(** * sngrep call storage: a shallow embedding of [src/storage.c]

    The store keeps three views of the same [SipCall] objects: the sorted
    list [calls.list], the list [calls.active] and the Call-ID hash table
    [calls.callids].  All three hold pointers, so calls and streams live in
    explicit heaps and the views hold addresses into them. *)

From Stdlib Require Import ZArith Lia Bool Sorted.
From stdpp Require Import base option list strings gmap.

Local Open Scope Z_scope.

(** ** Packets, as the dissectors hand them over *)

(** Modelled from the spec: [Address] is declared outside src/; an
    endpoint is an IP, kept in text form, and a 16-bit port (spec 3). *)
Record Address := mkAddress { ip : string; port : Z }.

#[global] Instance Address_eq_dec : EqDecision Address.
Proof. solve_decision. Defined.

(** [Address emptyaddr = {}] *)
Definition emptyaddr : Address := mkAddress EmptyString 0.

(** Modelled from the spec: [addressport_equals] is not under src/; two
    endpoints are equal when IP and port are. *)
Definition addressport_equals (a b : Address) : bool := bool_decide (a = b).

(** Modelled from the spec: the protocol ids are declared outside src/;
    they name the slots of [packet->proto] and the kind of a stream. *)
Inductive PacketProto := PACKET_SIP | PACKET_SDP | PACKET_RTP | PACKET_RTCP.

#[global] Instance PacketProto_eq_dec : EqDecision PacketProto.
Proof. solve_decision. Defined.

(** Modelled from the spec: the dissector payloads are declared outside
    src/; their fields are those of spec 6 that [storage.c] reads. *)
Record PacketSipData := mkSipData {
  sd_callid : string;
  sd_xcallid : string;
  sd_from : string;
  sd_to : string;
  sd_cseq : Z;
  sd_reqresp : Z;
  sd_resp_str : string;
  sd_payload : string
}.

(** Modelled from the spec: one [m=] line (spec 6); [address] is the
    advertised endpoint, which the source passes on as an [Address], and
    [rtcpport] is 0 when the SDP carries no [a=rtcp] attribute. *)
Record PacketSdpMedia := mkMedia {
  address : Address;
  rtpport : Z;
  rtcpport : Z
}.

#[global] Instance PacketSdpMedia_eq_dec : EqDecision PacketSdpMedia.
Proof. solve_decision. Defined.

Record PacketSdpData := mkSdpData { sdp_medias : list PacketSdpMedia }.

(** [rtp->encoding->id] *)
Record PacketRtpData := mkRtpData { encoding_id : Z }.

Record PacketRtcpData := mkRtcpData { rtcp_reports : list Z }.

(** Modelled from the spec: a dissected packet with its endpoints and
    one slot per protocol of [packet->proto]; a slot is [None] when
    [g_ptr_array_index] yields NULL. *)
Record Packet := mkPacket {
  packet_src : Address;
  packet_dst : Address;
  proto_SIP : option PacketSipData;
  proto_SDP : option PacketSdpData;
  proto_RTP : option PacketRtpData;
  proto_RTCP : option PacketRtcpData
}.

(** Modelled from the spec: the old-style [packet_t] that messages and
    streams keep; the source reads its [src], [dst] and [newpacket]. *)
Record packet_t := mkOldPacket {
  pkt_src : Address;
  pkt_dst : Address;
  newpacket : Packet
}.

(** Modelled from the spec: [packet_to_oldpkt] is not under src/; the
    message takes over the frame (spec 4.6, step 4), keeping its
    endpoints. *)
Definition packet_to_oldpkt (p : Packet) : packet_t :=
  mkOldPacket (packet_src p) (packet_dst p) p.

(** ** Messages, streams and calls *)

(** Addresses of heap objects. *)
Definition ptr := nat.
Bind Scope nat_scope with ptr.

(** A [SipMsg*]: messages live in the message list of their call, so a
    pointer to one is the call and the position in that list. *)
Record MsgRef := mkMsgRef { ref_call : ptr; ref_pos : nat }.

(** Modelled from the spec: [SipMsg] is declared outside src/; the
    fields [storage.c] assigns, the medias, the back-reference to the
    call and the retransmission mark (spec 3 and 4.4). *)
Record SipMsg := mkSipMsg {
  cseq : Z;
  sip_from : string;
  sip_to : string;
  reqresp : Z;
  resp_str : string;
  msg_packet : option packet_t;
  msg_medias : list PacketSdpMedia;
  msg_call : option ptr;
  msg_retrans : bool
}.

(** Modelled from the spec: [rtp_stream_t] is declared outside src/; the
    fields of spec 3, with the packets the stream has taken. *)
Record rtp_stream_t := mkStream {
  type : PacketProto;
  media : PacketSdpMedia;
  src : Address;
  dst : Address;
  fmtcode : Z;
  complete : bool;
  pkt_cnt : Z;
  packets : list packet_t;
  msg : option MsgRef
}.

(** Modelled from the spec: the dialog states of spec 3;
    [CALL_STATE_NONE] is the zeroed field of a call without INVITE. *)
Inductive CallState :=
  | CALL_STATE_NONE | CALL_SETUP | IN_CALL | COMPLETED
  | CANCELLED | REJECTED | BUSY | DIVERTED.

(** Modelled from the spec: [SipCall] is declared outside src/; the
    attributes of spec 3.  Streams are held by address. *)
Record SipCall := mkCall {
  callid : string;
  xcallid : string;
  index : Z;
  state : CallState;
  locked : bool;
  msgs : list SipMsg;
  streams : list ptr;
  children : list ptr
}.

(** ** The store *)

(** Modelled from the spec: the sortable attributes of spec 4.1. *)
Inductive SipAttr :=
  | SIP_ATTR_CALLINDEX | SIP_ATTR_CALLID | SIP_ATTR_XCALLID | SIP_ATTR_SRC
  | SIP_ATTR_DST | SIP_ATTR_SIPFROM | SIP_ATTR_SIPTO | SIP_ATTR_METHOD
  | SIP_ATTR_CALLSTATE | SIP_ATTR_CONVDUR | SIP_ATTR_TOTALDUR
  | SIP_ATTR_MSGCNT | SIP_ATTR_DATE | SIP_ATTR_TIME | SIP_ATTR_TRANSPORT.

(** Modelled from the spec: the option records of [storage.h] are
    declared outside src/; their fields are those of spec 6. *)
Record SStorageCaptureOpts := mkCaptureOpts {
  limit : Z;
  rotate : bool;
  rtp : bool
}.

Record SStorageSortOpts := mkSortOpts { by_ : SipAttr; asc : bool }.

(** A compiled expression: GLib keeps the pattern and the compile
    flags; matching itself is GLib's (see [Collaborators]). *)
Record GRegex := mkRegex { rx_pattern : string; rx_caseless : bool }.

(** [minvert] is a [gboolean], that is a [gint]: the source compares it
    with 0 and 1, so the integer is kept. *)
Record SStorageMatchOpts := mkMatchOpts {
  mexpr : option string;
  micase : bool;
  minvert : Z;
  mregex : option GRegex;
  invite : bool;
  mcomplete : bool
}.

(** Modelled from the spec: [sip_call_list_t], the type of the global
    [calls], is declared outside src/; its fields are the ones
    [storage.c] uses: the three views, the counters and the options.
    The width of [last_index] is not in src/: the field is an integer
    here, and the statements about the counter hold below a bound
    [index_max] that stands for the largest value of its C type. *)
Record sip_call_list_t := mkCalls {
  calls_list : list ptr;
  calls_active : list ptr;
  calls_callids : gmap string ptr;
  calls_last_index : Z;
  calls_changed : bool;
  calls_capture : SStorageCaptureOpts;
  calls_match : SStorageMatchOpts;
  calls_sort : SStorageSortOpts
}.

(** The process state the store works on: the global [calls], the heap
    of calls, the heap of streams, and whether the allocator still
    serves [call_create]. *)
Record World := mkWorld {
  calls : sip_call_list_t;
  call_heap : gmap ptr SipCall;
  stream_heap : gmap ptr rtp_stream_t;
  mem_ok : bool
}.

(** ** Collaborators outside [storage.c]

    Constants of [packet_sip.h], GLib's regular expressions, the
    attribute comparator, the settings and the lookups of [stream.c] and
    [call.c] that the spec leaves open are parameters of the
    development. *)
Class Collaborators := {
  SIP_METHOD_INVITE : Z;
  SIP_METHOD_MESSAGE : Z;
  SIP_METHOD_CANCEL : Z;
  SIP_METHOD_BYE : Z;
  (** [g_regex_new(expr, cflags, 0, error)]: [None] when it does not compile *)
  g_regex_new : string -> bool -> option GRegex;
  (** [g_regex_match(regex, payload, 0, NULL)] *)
  g_regex_match : GRegex -> string -> bool;
  call_attr_compare : SipCall -> SipCall -> SipAttr -> Z;
  (** [sip_attr_from_name(setting_get_value(SETTING_CL_SORTFIELD))];
      [None] is the negative sentinel *)
  setting_sortfield : option SipAttr;
  (** [!strcmp(setting_get_value(SETTING_CL_SORTORDER), "asc")] *)
  setting_sortorder_asc : bool;
  (** the global stream lookup of spec 4.6, [ingest_rtp] step 2 *)
  stream_find_by_format : World -> Address -> Address -> Z -> option ptr;
  call_find_stream_exact : World -> option ptr -> Address -> Address -> option ptr;
  (** the message a stream made by [stream_create] refers to, which
      neither [storage.c] nor the spec fixes *)
  stream_create_msg : Packet -> PacketSdpMedia -> option MsgRef
}.

(** ** Field updates *)

Definition set_calls (w : World) (c : sip_call_list_t) : World :=
  mkWorld c (call_heap w) (stream_heap w) (mem_ok w).
Definition set_call_heap (w : World) (h : gmap ptr SipCall) : World :=
  mkWorld (calls w) h (stream_heap w) (mem_ok w).
Definition set_stream_heap (w : World) (h : gmap ptr rtp_stream_t) : World :=
  mkWorld (calls w) (call_heap w) h (mem_ok w).

Definition set_list (c : sip_call_list_t) (l : list ptr) : sip_call_list_t :=
  mkCalls l (calls_active c) (calls_callids c) (calls_last_index c)
    (calls_changed c) (calls_capture c) (calls_match c) (calls_sort c).
Definition set_active (c : sip_call_list_t) (l : list ptr) : sip_call_list_t :=
  mkCalls (calls_list c) l (calls_callids c) (calls_last_index c)
    (calls_changed c) (calls_capture c) (calls_match c) (calls_sort c).
Definition set_callids (c : sip_call_list_t) (h : gmap string ptr) : sip_call_list_t :=
  mkCalls (calls_list c) (calls_active c) h (calls_last_index c)
    (calls_changed c) (calls_capture c) (calls_match c) (calls_sort c).
Definition set_last_index (c : sip_call_list_t) (i : Z) : sip_call_list_t :=
  mkCalls (calls_list c) (calls_active c) (calls_callids c) i
    (calls_changed c) (calls_capture c) (calls_match c) (calls_sort c).
Definition set_changed (c : sip_call_list_t) (b : bool) : sip_call_list_t :=
  mkCalls (calls_list c) (calls_active c) (calls_callids c) (calls_last_index c)
    b (calls_capture c) (calls_match c) (calls_sort c).
Definition set_sort (c : sip_call_list_t) (s : SStorageSortOpts) : sip_call_list_t :=
  mkCalls (calls_list c) (calls_active c) (calls_callids c) (calls_last_index c)
    (calls_changed c) (calls_capture c) (calls_match c) s.

Definition set_index (c : SipCall) (i : Z) : SipCall :=
  mkCall (callid c) (xcallid c) i (state c) (locked c) (msgs c) (streams c) (children c).
Definition set_state (c : SipCall) (s : CallState) : SipCall :=
  mkCall (callid c) (xcallid c) (index c) s (locked c) (msgs c) (streams c) (children c).
Definition set_msgs (c : SipCall) (l : list SipMsg) : SipCall :=
  mkCall (callid c) (xcallid c) (index c) (state c) (locked c) l (streams c) (children c).
Definition set_streams (c : SipCall) (l : list ptr) : SipCall :=
  mkCall (callid c) (xcallid c) (index c) (state c) (locked c) (msgs c) l (children c).
Definition set_children (c : SipCall) (l : list ptr) : SipCall :=
  mkCall (callid c) (xcallid c) (index c) (state c) (locked c) (msgs c) (streams c) l.

(** ** Heaps *)

(** An address no object of the heap lives at ([g_malloc0]). *)
Definition fresh_ptr {A} (h : gmap ptr A) : ptr :=
  S (max_list (fst <$> map_to_list h)).

(** The store owns its calls and the calls own their streams, so a
    pointer they hold is live; at any other address the model reads
    zeroed memory. *)
Definition null_call : SipCall :=
  mkCall EmptyString EmptyString 0 CALL_STATE_NONE false [] [] [].

Definition null_media : PacketSdpMedia := mkMedia emptyaddr 0 0.

Definition null_stream : rtp_stream_t :=
  mkStream PACKET_SIP null_media emptyaddr emptyaddr 0 false 0 [] None.

Definition get_call (w : World) (p : ptr) : SipCall :=
  default null_call (call_heap w !! p).

Definition get_stream (w : World) (p : ptr) : rtp_stream_t :=
  default null_stream (stream_heap w !! p).

(** In-place update of the call, and of the stream, at an address. *)
Definition upd_call (p : ptr) (f : SipCall -> SipCall) (w : World) : World :=
  set_call_heap w (alter f p (call_heap w)).

Definition upd_stream (p : ptr) (f : rtp_stream_t -> rtp_stream_t) (w : World) : World :=
  set_stream_heap w (alter f p (stream_heap w)).

(** ** Sequences (GLib's [GSequence] and the helpers of [glib-utils.h]) *)

Definition g_sequence_append (l : list ptr) (x : ptr) : list ptr := l ++ [x].

Definition g_sequence_get_length (l : list ptr) : Z := Z.of_nat (length l).

(** Modelled from the spec: [g_sequence_index] of [glib-utils.h] is not
    under src/; the source compares its result with -1 to learn whether
    the call is in the sequence. *)
Fixpoint g_sequence_index (l : list ptr) (x : ptr) : Z :=
  match l with
  | [] => -1
  | y :: l' =>
      if bool_decide (y = x) then 0
      else let i := g_sequence_index l' x in if i =? -1 then -1 else i + 1
  end.

(** Modelled from the spec: [g_sequence_remove_data] of [glib-utils.h] is
    not under src/; it takes the item out of the sequence where it is
    found ("remove it from A if present", spec 4.6). *)
Fixpoint g_sequence_remove_data (l : list ptr) (x : ptr) : list ptr :=
  match l with
  | [] => []
  | y :: l' => if bool_decide (y = x) then l' else y :: g_sequence_remove_data l' x
  end.

(** [g_sequence_insert_sorted]: the new item goes before the first item
    that compares greater, after the items that compare equal. *)
Fixpoint g_sequence_insert_sorted (l : list ptr) (x : ptr)
    (cmp : ptr -> ptr -> Z) : list ptr :=
  match l with
  | [] => [x]
  | y :: l' =>
      if 0 <? cmp y x then x :: y :: l'
      else y :: g_sequence_insert_sorted l' x cmp
  end.

Section Storage.
Context `{Collaborators}.

(** ** Calls ([call.c]) *)

(** Modelled from the spec: [call_create] is not under src/.  A call is
    identified by its Call-ID and carries the X-Call-ID (spec 3); it
    starts with no message, no stream, unlocked.  The source tests the
    result for NULL (line 161): the allocation may be refused. *)
Definition call_create (cid xcid : string) (w : World) : option (ptr * World) :=
  if mem_ok w then
    let p := fresh_ptr (call_heap w) in
    Some (p, set_call_heap w
               (<[p := mkCall cid xcid 0 CALL_STATE_NONE false [] [] []]> (call_heap w)))
  else None.

(** Modelled from the spec: [call_msg_count] is not under src/; the
    number of messages of the call. *)
Definition call_msg_count (c : SipCall) : Z := Z.of_nat (length (msgs c)).

(** Modelled from the spec: [call_add_xcall] is not under src/; spec 4.6
    step 3 links the child only when the X-Call-ID resolves in the
    index, so a NULL parent is left alone. *)
Definition call_add_xcall (parent : option ptr) (child : ptr) (w : World) : World :=
  match parent with
  | None => w
  | Some pp => upd_call pp (fun c => set_children c (children c ++ [child])) w
  end.

(** Modelled from the spec: [call_update_state] is not under src/; the
    INVITE state machine of spec 4.4.  Terminal states are sticky. *)
Definition call_update_state (c : SipCall) (m : SipMsg) : SipCall :=
  let r := reqresp m in
  match state c with
  | CALL_STATE_NONE =>
      if r =? SIP_METHOD_INVITE then set_state c CALL_SETUP else c
  | CALL_SETUP =>
      if r =? SIP_METHOD_CANCEL then set_state c CANCELLED
      else if r =? 200 then set_state c IN_CALL
      else if (300 <=? r) && (r <? 400) then set_state c DIVERTED
      else if r =? 486 then set_state c BUSY
      else if (400 <=? r) && (r <? 500) then set_state c REJECTED
      else c
  | IN_CALL =>
      if r =? SIP_METHOD_BYE then set_state c COMPLETED else c
  | _ => c
  end.

Definition set_msg_call (m : SipMsg) (c : option ptr) : SipMsg :=
  mkSipMsg (cseq m) (sip_from m) (sip_to m) (reqresp m) (resp_str m)
    (msg_packet m) (msg_medias m) c (msg_retrans m).
Definition set_msg_packet (m : SipMsg) (p : option packet_t) : SipMsg :=
  mkSipMsg (cseq m) (sip_from m) (sip_to m) (reqresp m) (resp_str m)
    p (msg_medias m) (msg_call m) (msg_retrans m).
Definition set_msg_medias (m : SipMsg) (l : list PacketSdpMedia) : SipMsg :=
  mkSipMsg (cseq m) (sip_from m) (sip_to m) (reqresp m) (resp_str m)
    (msg_packet m) l (msg_call m) (msg_retrans m).
Definition set_msg_retrans (m : SipMsg) (b : bool) : SipMsg :=
  mkSipMsg (cseq m) (sip_from m) (sip_to m) (reqresp m) (resp_str m)
    (msg_packet m) (msg_medias m) (msg_call m) b.

(** Modelled from the spec: [call_add_message] is not under src/; it
    appends the message in arrival order, sets its back-reference and
    feeds it through the state machine (spec 4.4). *)
Definition call_add_message (call : ptr) (m : SipMsg) (w : World) : World :=
  upd_call call
    (fun c => call_update_state
                (set_msgs c (msgs c ++ [set_msg_call m (Some call)])) m) w.

(** Modelled from the spec: [msg_create] is not under src/; a zeroed
    message, whose fields the source assigns one by one. *)
Definition msg_create : SipMsg :=
  mkSipMsg 0 EmptyString EmptyString 0 EmptyString None [] None false.

Definition get_msg (w : World) (r : MsgRef) : SipMsg :=
  default msg_create (msgs (get_call w (ref_call r)) !! ref_pos r).

Definition upd_msg (r : MsgRef) (f : SipMsg -> SipMsg) (w : World) : World :=
  upd_call (ref_call r) (fun c => set_msgs c (alter f (ref_pos r) (msgs c))) w.

Definition msg_payload (m : SipMsg) : option string :=
  match msg_packet m with
  | Some pk => sd_payload <$> proto_SIP (newpacket pk)
  | None => None
  end.

(** Modelled from the spec: [call_msg_retrans_check] is not under src/;
    the message is a retransmission iff the message inserted last before
    it with the same CSeq and method or code has the same payload
    (spec 4.4). *)
Definition call_msg_retrans_check (r : MsgRef) (w : World) : World :=
  let m := get_msg w r in
  let before := take (ref_pos r) (msgs (get_call w (ref_call r))) in
  let same m' := (cseq m' =? cseq m) && (reqresp m' =? reqresp m) in
  let flag :=
    match List.find same (rev before) with
    | Some m' => bool_decide (msg_payload m' = msg_payload m)
    | None => false
    end in
  upd_msg r (fun x => set_msg_retrans x flag) w.

(** Modelled from the spec: [call_is_invite] is not under src/; true iff
    the first accepted message is an INVITE (spec 4.4). *)
Definition call_is_invite (c : SipCall) : bool :=
  match msgs c with
  | m :: _ => reqresp m =? SIP_METHOD_INVITE
  | [] => false
  end.

(** Modelled from the spec: [call_is_active] is not under src/; the
    state-based activity of spec 4.4 and 9 (open question 2). *)
Definition call_is_active (c : SipCall) : bool :=
  match state c with
  | CALL_SETUP | IN_CALL => true
  | _ => false
  end.

(** Modelled from the spec: [msg_get_call] is not under src/; the
    message's back-reference to its call, NULL for no message. *)
Definition msg_get_call (w : World) (m : option MsgRef) : option ptr :=
  match m with
  | Some r => msg_call (get_msg w r)
  | None => None
  end.

(** Modelled from the spec: [call_add_stream] is not under src/; the
    stream joins the streams of the call (spec 4.4). *)
Definition call_add_stream (call : option ptr) (sp : ptr) (w : World) : World :=
  match call with
  | Some p => upd_call p (fun c => set_streams c (streams c ++ [sp])) w
  | None => w
  end.

(** Modelled from the spec: [call_find_stream] is not under src/; the
    lookup compares source and destination (spec 4.3) and ignores the
    format (spec 4.6); a zero source is the source of a stream that was
    registered from SDP and has seen no packet. *)
Definition call_find_stream (call : option ptr) (s d : Address) (w : World) : option ptr :=
  match call with
  | Some p =>
      List.find (fun sp => addressport_equals (src (get_stream w sp)) s
                           && addressport_equals (dst (get_stream w sp)) d)
                (streams (get_call w p))
  | None => None
  end.

(** ** Streams ([stream.c]) *)

Definition set_type (s : rtp_stream_t) (t : PacketProto) : rtp_stream_t :=
  mkStream t (media s) (src s) (dst s) (fmtcode s) (complete s) (pkt_cnt s)
    (packets s) (msg s).
Definition set_dst (s : rtp_stream_t) (a : Address) : rtp_stream_t :=
  mkStream (type s) (media s) (src s) a (fmtcode s) (complete s) (pkt_cnt s)
    (packets s) (msg s).
Definition set_dst_port (s : rtp_stream_t) (p : Z) : rtp_stream_t :=
  set_dst s (mkAddress (ip (dst s)) p).
Definition set_msg (s : rtp_stream_t) (m : option MsgRef) : rtp_stream_t :=
  mkStream (type s) (media s) (src s) (dst s) (fmtcode s) (complete s) (pkt_cnt s)
    (packets s) m.

(** Modelled from the spec: [stream_create] is not under src/.  A new
    stream keeps its media descriptor, has the media address at the RTP
    port as destination and no source yet (spec 4.6 (i)), no packet and
    no format. *)
Definition stream_create (packet : Packet) (m : PacketSdpMedia) : rtp_stream_t :=
  mkStream PACKET_RTP m emptyaddr (mkAddress (ip (address m)) (rtpport m))
    0 false 0 [] (stream_create_msg packet m).

(** Modelled from the spec: [stream_is_complete] is not under src/; the
    [complete] flag of spec 3. *)
Definition stream_is_complete (s : rtp_stream_t) : bool := complete s.

(** Modelled from the spec: [stream_complete] is not under src/; it
    "sets src and flips complete to true only on first call" (spec 4.3). *)
Definition stream_complete (s : rtp_stream_t) (a : Address) : rtp_stream_t :=
  if complete s then s
  else mkStream (type s) (media s) a (dst s) (fmtcode s) true (pkt_cnt s)
         (packets s) (msg s).

(** Modelled from the spec: [stream_set_format] is not under src/; it
    records the RTP payload type (spec 4.3). *)
Definition stream_set_format (s : rtp_stream_t) (f : Z) : rtp_stream_t :=
  mkStream (type s) (media s) (src s) (dst s) f (complete s) (pkt_cnt s)
    (packets s) (msg s).

(** Modelled from the spec: [stream_add_packet] is not under src/; it
    keeps the packet and counts it (spec 4.3). *)
Definition stream_add_packet (s : rtp_stream_t) (pk : packet_t) : rtp_stream_t :=
  mkStream (type s) (media s) (src s) (dst s) (fmtcode s) (complete s)
    (pkt_cnt s + 1) (packets s ++ [pk]) (msg s).

(** The stream object is placed in the heap; its address is what the
    source holds in [rtp_stream_t *stream]. *)
Definition alloc_stream (s : rtp_stream_t) (w : World) : ptr * World :=
  let p := fresh_ptr (stream_heap w) in
  (p, set_stream_heap w (<[p := s]> (stream_heap w))).

(** Modelled from the spec: [call_destroy], the destroy notifier of
    [calls.list], is not under src/; destroying a call destroys its
    messages and streams (spec 3). *)
Definition call_destroy (p : ptr) (w : World) : World :=
  let c := get_call w p in
  mkWorld (calls w) (delete p (call_heap w))
    (foldr delete (stream_heap w) (streams c)) (mem_ok w).

(** ** [storage.c] *)

(** [storage_init]: [None] is the FALSE return. *)
Definition storage_init (capture_options : SStorageCaptureOpts)
    (match_options : SStorageMatchOpts) (sort_options : SStorageSortOpts)
    (w : World) : option World :=
  let compiled :=
    match mexpr match_options with
    | Some e =>
        match g_regex_new e (micase match_options) with
        | Some rx => Some (Some rx)
        | None => None
        end
    | None => Some (mregex match_options)
    end in
  match compiled with
  | None => None
  | Some rx =>
      let m := mkMatchOpts (mexpr match_options) (micase match_options)
                 (minvert match_options) rx (invite match_options)
                 (mcomplete match_options) in
      let srt :=
        match setting_sortfield with
        | Some a => mkSortOpts a setting_sortorder_asc
        | None => mkSortOpts SIP_ATTR_CALLINDEX true
        end in
      Some (set_calls w
              (mkCalls [] [] ∅ 0 (calls_changed (calls w)) capture_options m srt))
  end.

Definition storage_capture_options (w : World) : SStorageCaptureOpts :=
  calls_capture (calls w).

Definition storage_sorter (w : World) (a b : ptr) : Z :=
  let cmp := call_attr_compare (get_call w a) (get_call w b)
               (by_ (calls_sort (calls w))) in
  if asc (calls_sort (calls w)) then cmp else cmp * -1.

Definition storage_calls_changed (w : World) : bool * World :=
  let changed := calls_changed (calls w) in
  (changed, set_calls w (set_changed (calls w) false)).

Definition storage_calls_count (w : World) : Z :=
  g_sequence_get_length (calls_list (calls w)).

Definition storage_call_is_active (w : World) (call : ptr) : bool :=
  negb (g_sequence_index (calls_active (calls w)) call =? -1).

Definition storage_find_by_callid (w : World) (cid : string) : option ptr :=
  calls_callids (calls w) !! cid.

Definition storage_match_expr (w : World) : option string :=
  mexpr (calls_match (calls w)).

(** [storage_check_match_expr]; [g_regex_match] on a NULL regex is
    FALSE. *)
Definition storage_check_match_expr (w : World) (payload : string) : Z :=
  match mexpr (calls_match (calls w)) with
  | None => 1
  | Some _ =>
      let matched :=
        match mregex (calls_match (calls w)) with
        | Some rx => g_regex_match rx payload
        | None => false
        end in
      if matched then Z.b2z (0 =? minvert (calls_match (calls w)))
      else Z.b2z (1 =? minvert (calls_match (calls w)))
  end.

(** The loop of [storage_calls_rotate] over the iterator [it]. *)
Fixpoint storage_calls_rotate_from (w : World) (it : list ptr) : World :=
  match it with
  | [] => w
  | call :: it' =>
      if negb (locked (get_call w call)) then
        let c1 := set_callids (calls w)
                    (delete (callid (get_call w call)) (calls_callids (calls w))) in
        let c2 := set_active c1 (g_sequence_remove_data (calls_active c1) call) in
        let c3 := set_list c2 (g_sequence_remove_data (calls_list c2) call) in
        call_destroy call (set_calls w c3)
      else storage_calls_rotate_from w it'
  end.

Definition storage_calls_rotate (w : World) : World :=
  storage_calls_rotate_from w (calls_list (calls w)).

(** [storage_calls_clear]: every call of the list is destroyed. *)
Definition storage_calls_clear (w : World) : World :=
  let w' := foldr call_destroy w (calls_list (calls w)) in
  set_calls w' (set_active (set_list (set_callids (calls w') ∅) []) []).

(** [storage_set_sort_options]; [g_sequence_sort] is a stable sort. *)
Definition storage_set_sort_options (srt : SStorageSortOpts) (w : World) : World :=
  let w' := set_calls w (set_sort (calls w) srt) in
  set_calls w'
    (set_list (calls w')
       (foldl (fun acc x => g_sequence_insert_sorted acc x (storage_sorter w'))
              [] (calls_list (calls w')))).

Definition storage_sort_options (w : World) : SStorageSortOpts :=
  calls_sort (calls w).

(** The body of the loop of [storage_register_streams] for one media
    descriptor; [packet] is [msg->packet->newpacket] and [pk] is
    [msg->packet]. *)
Definition register_media (r : MsgRef) (packet : Packet) (pk : packet_t)
    (m : PacketSdpMedia) (w : World) : World :=
  (* Add to the message *)
  let w := upd_msg r (fun x => set_msg_medias x (msg_medias x ++ [m])) w in
  let call := msg_call (get_msg w r) in
  (* Create RTP stream for this media *)
  let w :=
    match call_find_stream call emptyaddr (address m) w with
    | None =>
        let s := set_msg (set_type (stream_create packet m) PACKET_RTP) (Some r) in
        let '(sp, w1) := alloc_stream s w in
        call_add_stream call sp w1
    | Some _ => w
    end in
  (* Create RTCP stream for this media *)
  let w :=
    match call_find_stream call emptyaddr (address m) w with
    | None =>
        let s := stream_create packet m in
        let s := set_dst_port s
                   (if rtcpport m =? 0 then (rtpport m + 1) mod 65536
                    else rtcpport m) in
        let s := set_msg (set_type s PACKET_RTCP) (Some r) in
        let '(sp, w1) := alloc_stream s w in
        call_add_stream call sp w1
    | Some _ => w
    end in
  (* Create RTP stream with source of message as destination address *)
  match call_find_stream call (pkt_src pk) (address m) w with
  | None =>
      let s := set_msg (set_type (stream_create packet m) PACKET_RTP) (Some r) in
      let s := set_dst s (pkt_src pk) in
      let s := set_dst_port s (rtpport m) in
      let '(sp, w1) := alloc_stream s w in
      call_add_stream call sp w1
  | Some _ => w
  end.

(** [storage_register_streams]; a message always has its packet when
    the source gets here (line 175). *)
Definition storage_register_streams (r : MsgRef) (w : World) : World :=
  match msg_packet (get_msg w r) with
  | None => w
  | Some pk =>
      let packet := newpacket pk in
      match proto_SDP packet with
      | None => w
      | Some sdp =>
          foldl (fun w m => register_media r packet pk m w) w (sdp_medias sdp)
      end
  end.

(** Lines 141-172 of [storage_check_sip_packet]: the call of the message
    with the [newcall] flag, or [None] for [goto skip_message]. *)
Definition sip_find_or_create_call (sip_data : PacketSipData) (m : SipMsg)
    (w : World) : option (ptr * bool) * World :=
  match storage_find_by_callid w (sd_callid sip_data) with
  | Some call => (Some (call, false), w)
  | None =>
      (* Check if payload matches expression *)
      if storage_check_match_expr w (sd_payload sip_data) =? 0 then (None, w)
      (* User requested only INVITE starting dialogs *)
      else if invite (calls_match (calls w))
              && negb (reqresp m =? SIP_METHOD_INVITE) then (None, w)
      (* Only create a new call if the first msg is a request *)
      else if mcomplete (calls_match (calls w))
              && (SIP_METHOD_MESSAGE <? reqresp m) then (None, w)
      else
        (* Rotate call list if limit has been reached *)
        let w :=
          if limit (calls_capture (calls w)) =? storage_calls_count w
          then storage_calls_rotate w else w in
        (* Create the call if not found *)
        match call_create (sd_callid sip_data) (sd_xcallid sip_data) w with
        | None => (None, w)
        | Some (call, w) =>
            (* Add this Call-Id to hash table *)
            let w := set_calls w
                       (set_callids (calls w)
                          (<[callid (get_call w call) := call]>
                             (calls_callids (calls w)))) in
            (* Set call index *)
            let w := set_calls w
                       (set_last_index (calls w) (calls_last_index (calls w) + 1)) in
            let w := upd_call call
                       (fun c => set_index c (calls_last_index (calls w))) w in
            (Some (call, true), w)
        end
  end.

(** Lines 191-206: streams, state and the active list of an INVITE
    dialog. *)
Definition sip_update_invite (call : ptr) (r : MsgRef) (w : World) : World :=
  if call_is_invite (get_call w call) then
    (* Parse media data *)
    let w := storage_register_streams r w in
    (* Update Call State *)
    let w := upd_call call (fun c => call_update_state c (get_msg w r)) w in
    (* Check if this call should be in active call list *)
    if call_is_active (get_call w call) then
      if storage_call_is_active w call then
        set_calls w (set_active (calls w)
                       (g_sequence_append (calls_active (calls w)) call))
      else w
    else
      if storage_call_is_active w call then
        set_calls w (set_active (calls w)
                       (g_sequence_remove_data (calls_active (calls w)) call))
      else w
  else w.

(** Lines 174-217: the message joins its call, the list is updated and
    marked as changed. *)
Definition sip_store_message (packet : Packet) (m : SipMsg) (call : ptr)
    (newcall : bool) (w : World) : MsgRef * World :=
  (* At this point we know we're handling an interesting SIP Packet *)
  let m := set_msg_packet m (Some (packet_to_oldpkt packet)) in
  (* Always dissect first call message *)
  let w :=
    if call_msg_count (get_call w call) =? 0 then
      if negb (String.length (xcallid (get_call w call)) =? 0)%nat then
        call_add_xcall
          (storage_find_by_callid w (xcallid (get_call w call))) call w
      else w
    else w in
  (* Add the message to the call *)
  let r := mkMsgRef call (length (msgs (get_call w call))) in
  let w := call_add_message call m w in
  (* check if message is a retransmission *)
  let w := call_msg_retrans_check r w in
  let w := sip_update_invite call r w in
  let w :=
    if newcall then
      (* Append this call to the call list *)
      set_calls w (set_list (calls w)
                     (g_sequence_insert_sorted (calls_list (calls w)) call
                        (storage_sorter w)))
    else w in
  (* Mark the list as changed *)
  (r, set_calls w (set_changed (calls w) true)).

(** [storage_check_sip_packet]: the message kept, or [None] when it was
    skipped and deallocated, and the store afterwards.  The capture
    layer calls it for packets with SIP data only. *)
Definition storage_check_sip_packet (packet : Packet) (w : World)
    : option MsgRef * World :=
  match proto_SIP packet with
  | None => (None, w)
  | Some sip_data =>
      (* Create a new message from this data *)
      let m := mkSipMsg (sd_cseq sip_data) (sd_from sip_data) (sd_to sip_data)
                 (sd_reqresp sip_data) (sd_resp_str sip_data) None [] None false in
      (* Find the call for this msg *)
      match sip_find_or_create_call sip_data m w with
      | (None, w) =>
          (* skip_message: deallocate message memory *)
          (None, w)
      | (Some (call, newcall), w) =>
          let '(r, w) := sip_store_message packet m call newcall w in
          (Some r, w)
      end
  end.

(** Lines 298-301 and 307-310: the stream in the opposite direction. *)
Definition create_reverse (packet : packet_t) (stream : ptr) (format : Z)
    (w : World) : World :=
  let reverse := stream_create (newpacket packet) (media (get_stream w stream)) in
  let reverse := stream_complete reverse (dst (get_stream w stream)) in
  let reverse := stream_set_format reverse format in
  let '(rp, w1) := alloc_stream reverse w in
  call_add_stream (msg_get_call w1 (msg (get_stream w1 stream))) rp w1.

(** Lines 264-270: a complete stream with another format is replaced,
    for this packet, by a new stream of the same media. *)
Definition rtp_resolve_format (packet : packet_t) (stream : ptr) (format : Z)
    (w : World) : ptr * World :=
  if stream_is_complete (get_stream w stream)
     && negb (fmtcode (get_stream w stream) =? format) then
    (* Create a new stream for this new format *)
    let s := stream_create (newpacket packet) (media (get_stream w stream)) in
    let s := stream_complete s (pkt_src packet) in
    let s := stream_set_format s format in
    let '(sp, w1) := alloc_stream s w in
    (sp, call_add_stream (msg_get_call w1 (msg (get_stream w1 sp))) sp w1)
  else (stream, w).

(** Lines 273-314: the first packet of a stream sets its source and may
    create the reverse stream. *)
Definition rtp_first_packet (packet : packet_t) (stream : ptr) (format : Z)
    (w : World) : World :=
  if negb (stream_is_complete (get_stream w stream)) then
    let w := upd_stream stream
               (fun s => stream_set_format (stream_complete s (pkt_src packet)) format)
               w in
    let s := get_stream w stream in
    let call := msg_get_call w (msg s) in
    (* Check if an stream in the opposite direction exists *)
    match call_find_stream call (dst s) (src s) w with
    | None => create_reverse packet stream format w
    | Some reverse =>
        (* If the reverse stream has other source configured *)
        if negb (port (src (get_stream w reverse)) =? 0)
           && negb (addressport_equals (src s) (src (get_stream w reverse))) then
          match call_find_stream_exact w call (dst s) (src s) with
          | None => create_reverse packet stream format w
          | Some _ => w
          end
        else w
    end
  else w.

(** Lines 251-318, the RTP block: [None] is the early [return NULL];
    otherwise the local [stream] afterwards, which stays unset when the
    packet has no RTP data. *)
Definition rtp_block (packet : packet_t) (w : World)
    : option (option ptr * World) :=
  match proto_RTP (newpacket packet) with
  | Some rtp =>
      (* Get RTP Encoding information *)
      let format := encoding_id rtp mod 256 in
      (* Find the matching stream *)
      match stream_find_by_format w (pkt_src packet) (pkt_dst packet) format with
      | None => None
      | Some stream =>
          let '(stream, w) := rtp_resolve_format packet stream format w in
          let w := rtp_first_packet packet stream format w in
          (* Add packet to stream *)
          Some (Some stream,
                upd_stream stream (fun s => stream_add_packet s packet) w)
      end
  | None => Some (None, w)
  end.

(** [storage_check_rtp_packet]: the stream returned, if any, and the
    store afterwards.  The second block reads the slot [PACKET_RTP]
    again (line 321), under the name [rtcp]. *)
Definition storage_check_rtp_packet (packet : packet_t) (w : World)
    : option ptr * World :=
  match rtp_block packet w with
  | None => (None, w)
  | Some (stream, w) =>
      match proto_RTP (newpacket packet) with
      | Some rtcp =>
          match stream with
          | Some stream =>
              (* Add packet to stream *)
              let w := upd_stream stream
                         (fun s => stream_complete s (pkt_src packet)) w in
              let w := upd_stream stream
                         (fun s => stream_add_packet s packet) w in
              (Some stream, w)
          | None => (None, w)
          end
      | None => (None, w)
      end
  end.

(** ** The rest of [storage.c]: views, statistics, soft clear *)

Definition storage_calls_vector (w : World) : list ptr := calls_list (calls w).

Definition storage_active_calls_vector (w : World) : list ptr :=
  calls_active (calls w).

(** [storage_calls_iterator]: the iterator at the beginning of the list
    is the list that is still to be visited. *)
Definition storage_calls_iterator (w : World) : list ptr := calls_list (calls w).

(** Modelled from the spec: [sip_stats_t] is declared outside src/; the
    two counters of spec 4.7. *)
Record sip_stats_t := mkStats { total : Z; displayed : Z }.

(** The loop of [storage_calls_stats] over the iterator [it];
    [filter_check_call] is the display filter of [filter.c], a
    parameter: it looks at the call it is given. *)
Fixpoint storage_calls_stats_from (filter_check_call : SipCall -> bool)
    (w : World) (it : list ptr) (stats : sip_stats_t) : sip_stats_t :=
  match it with
  | [] => stats
  | call :: it' =>
      storage_calls_stats_from filter_check_call w it'
        (if filter_check_call (get_call w call)
         then mkStats (total stats) (displayed stats + 1)
         else stats)
  end.

(** [storage_calls_stats]; [g_sequence_iter_length] of the begin
    iterator is the length of the list. *)
Definition storage_calls_stats (filter_check_call : SipCall -> bool) (w : World)
    : sip_stats_t :=
  let it := storage_calls_iterator w in
  storage_calls_stats_from filter_check_call w it
    (mkStats (g_sequence_get_length it) 0).

(** Modelled from the spec: [g_sequence_copy] of [glib-utils.h] is not
    under src/; the fresh sequence holds, in order, the items of the
    old one that satisfy the filter (spec 4.6, clear-soft). *)
Definition g_sequence_copy (l : list ptr) (keep : ptr -> bool) : list ptr :=
  List.filter keep l.

(** The loop of [storage_calls_clear_soft] that fills the hash table
    again (lines 463-468).  The keys of the table are the Call-ID
    buffers of the calls themselves (line 165) and the table frees its
    keys (line 80: [g_free] is the key destroy function), so the
    [g_hash_table_remove_all] of line 455 has freed [call->callid] of
    every call that was in the table when line 467 reads it again.
    What such a read gives is not determined by the source:
    [freed_callid call] stands for it, and nothing is assumed about
    it. *)
Fixpoint storage_repopulate_callids (freed_callid : ptr -> string)
    (it : list ptr) (h : gmap string ptr) : gmap string ptr :=
  match it with
  | [] => h
  | call :: it' =>
      storage_repopulate_callids freed_callid it' (<[freed_callid call := call]> h)
  end.

(** [storage_calls_clear_soft].  The source frees neither the old
    sequences nor the calls they alone held: the heaps stay as they
    are.  The table it leaves has dangling keys (see
    [storage_repopulate_callids]). *)
Definition storage_calls_clear_soft (filter_check_call : SipCall -> bool)
    (freed_callid : ptr -> string) (w : World) : World :=
  (* Create again the callid hash table *)
  let w := set_calls w (set_callids (calls w) ∅) in
  (* Repopulate list applying current filter *)
  let keep := fun p => filter_check_call (get_call w p) in
  let w := set_calls w
             (set_list (calls w) (g_sequence_copy (storage_calls_vector w) keep)) in
  let w := set_calls w
             (set_active (calls w)
                (g_sequence_copy (storage_active_calls_vector w) keep)) in
  (* Repopulate callids based on filtered list *)
  set_calls w
    (set_callids (calls w)
       (storage_repopulate_callids freed_callid (storage_calls_iterator w)
          (calls_callids (calls w)))).

(** ** Sequences of operations

    Everything [storage.c] lets its callers do to an initialised store. *)
Inductive store_op :=
  | OpSip (p : Packet)
  | OpRtp (p : packet_t)
  | OpChanged
  | OpRotate
  | OpClear
  | OpClearSoft (filter_check_call : SipCall -> bool) (freed_callid : ptr -> string)
  | OpSort (srt : SStorageSortOpts).

Definition apply_op (o : store_op) (w : World) : World :=
  match o with
  | OpSip p => (storage_check_sip_packet p w).2
  | OpRtp p => (storage_check_rtp_packet p w).2
  | OpChanged => (storage_calls_changed w).2
  | OpRotate => storage_calls_rotate w
  | OpClear => storage_calls_clear w
  | OpClearSoft f k => storage_calls_clear_soft f k w
  | OpSort srt => storage_set_sort_options srt w
  end.

Definition apply_ops (os : list store_op) (w : World) : World :=
  foldl (fun w o => apply_op o w) w os.

(** ** Notions used in the statements on sequences of operations *)

(** What a call is known by for as long as it lives: ingestion changes
    its messages, streams, children and state, never these. *)
Definition call_identity (c : SipCall) : string * string * Z * bool :=
  (callid c, xcallid c, index c, locked c).

(** [w'] holds calls at the addresses where [w] does, with the same
    identity. *)
Definition identity_kept (w w' : World) : Prop :=
  forall p, call_identity <$> call_heap w' !! p = call_identity <$> call_heap w !! p.

(** The list and the Call-ID index describe the same calls: no call is
    listed twice, every listed call is allocated and found under its own
    Call-ID, and every entry of the index leads to a listed call with
    that Call-ID. *)
Definition index_consistent (w : World) : Prop :=
  NoDup (calls_list (calls w))
  /\ (forall p, p ∈ calls_list (calls w) ->
        exists c, call_heap w !! p = Some c
                  /\ calls_callids (calls w) !! callid c = Some p)
  /\ (forall cid p, calls_callids (calls w) !! cid = Some p ->
        p ∈ calls_list (calls w)
        /\ exists c, call_heap w !! p = Some c /\ callid c = cid).

(** Calls compared address by address: [w'] holds at every address a
    call that is related by [R] to the one [w] holds there. *)
Definition calls_related (R : ptr -> SipCall -> SipCall -> Prop) (w w' : World)
    : Prop :=
  forall p, R p (get_call w p) (get_call w' p).

(** What a message is made of when it arrives: everything but the
    medias and the retransmission mark, which are filled in after it
    has joined its call. *)
Definition msg_header (m : SipMsg)
    : Z * string * string * Z * string * option packet_t * option ptr :=
  (cseq m, sip_from m, sip_to m, reqresp m, resp_str m, msg_packet m, msg_call m).

(** The messages of a call after the message at [r0] got its medias or
    its mark: as many as before, each with the header it had, and
    identical to what it was except at [r0]. *)
Definition msgs_settled (r0 : MsgRef) (p : ptr) (c c' : SipCall) : Prop :=
  length (msgs c') = length (msgs c)
  /\ forall i m, msgs c !! i = Some m ->
       exists m', msgs c' !! i = Some m'
                  /\ msg_header m' = msg_header m
                  /\ ((p, i) <> (ref_call r0, ref_pos r0) -> m' = m).

(** The call indexes in use: every listed call has an index between 1
    and the counter, and no two listed calls share one. *)
Definition indexes_consistent (w : World) : Prop :=
  0 <= calls_last_index (calls w)
  /\ forall p c, p ∈ calls_list (calls w) -> call_heap w !! p = Some c ->
       1 <= index c <= calls_last_index (calls w)
       /\ forall q c', q ∈ calls_list (calls w) -> call_heap w !! q = Some c' ->
            index c' = index c -> q = p.

(** What a call keeps when streams are added to it. *)
Definition streams_extended (c c' : SipCall) : Prop :=
  call_identity c' = call_identity c
  /\ state c' = state c /\ msgs c' = msgs c /\ children c' = children c
  /\ streams c `prefix_of` streams c'.

(** A stream as [storage_register_streams] leaves it: it belongs to the
    message, carries one of the medias and has seen no packet. *)
Definition registered_stream (r : MsgRef) (M : list PacketSdpMedia)
    (t : rtp_stream_t) : Prop :=
  msg t = Some r /\ media t ∈ M /\ src t = emptyaddr
  /\ complete t = false /\ pkt_cnt t = 0 /\ packets t = [].

(** The streams of the old store are kept and the new ones are
    registered streams. *)
Definition streams_registered (r : MsgRef) (M : list PacketSdpMedia)
    (w w' : World) : Prop :=
  (forall q t, stream_heap w !! q = Some t -> stream_heap w' !! q = Some t)
  /\ (forall q t, stream_heap w' !! q = Some t -> stream_heap w !! q = None ->
        registered_stream r M t).

(** One guarded creation of [storage_register_streams]. *)
Definition register_block (found : option ptr) (call : option ptr)
    (s : rtp_stream_t) (w : World) : World :=
  match found with
  | None => let '(sp, w1) := alloc_stream s w in call_add_stream call sp w1
  | Some _ => w
  end.

(** What [storage_register_streams] may change in a call. *)
Definition medias_registered (r : MsgRef) (p : ptr) (c c' : SipCall) : Prop :=
  call_identity c' = call_identity c
  /\ state c' = state c /\ children c' = children c
  /\ streams c `prefix_of` streams c'
  /\ length (msgs c') = length (msgs c)
  /\ (forall i, i <> ref_pos r -> msgs c' !! i = msgs c !! i)
  /\ (p <> ref_call r -> msgs c' = msgs c).

(** The operations that take no call out of the store on request. *)
Definition keeps_calls (o : store_op) : bool :=
  match o with
  | OpClear | OpClearSoft _ _ => false
  | _ => true
  end.

(** The operations after which the keys of the Call-ID table are still
    the Call-IDs of the calls: all but [storage_calls_clear_soft],
    which frees them (lines 455 and 467). *)
Definition keeps_index (o : store_op) : bool :=
  match o with
  | OpClearSoft _ _ => false
  | _ => true
  end.

(** [index_consistent], decided. *)
Definition index_consistentb (w : World) : bool :=
  bool_decide (NoDup (calls_list (calls w)))
  && forallb (fun p => match call_heap w !! p with
                       | Some c =>
                           bool_decide (calls_callids (calls w) !! callid c = Some p)
                       | None => false
                       end) (calls_list (calls w))
  && forallb (fun e => bool_decide (e.2 ∈ calls_list (calls w))
                       && match call_heap w !! e.2 with
                          | Some c => bool_decide (callid c = e.1)
                          | None => false
                          end) (map_to_list (calls_callids (calls w))).

(** ** Notions used in the statements *)

(** The store after the call at [call] has been rotated out. *)
Definition rotated_out (w : World) (call : ptr) : World :=
  call_destroy call
    (set_calls w
       (set_list
          (set_active
             (set_callids (calls w)
                (delete (callid (get_call w call)) (calls_callids (calls w))))
             (g_sequence_remove_data (calls_active (calls w)) call))
          (g_sequence_remove_data (calls_list (calls w)) call))).

(** The three filters of lines 143-154 on the first message of an
    unknown Call-ID. *)
Definition sip_filters_pass (w : World) (sip_data : PacketSipData) : bool :=
  negb (storage_check_match_expr w (sd_payload sip_data) =? 0)
  && negb (invite (calls_match (calls w))
           && negb (sd_reqresp sip_data =? SIP_METHOD_INVITE))
  && negb (mcomplete (calls_match (calls w))
           && (SIP_METHOD_MESSAGE <? sd_reqresp sip_data)).

(** The store when [call_create] is reached: rotated if it was full. *)
Definition sip_make_room (w : World) : World :=
  if limit (calls_capture (calls w)) =? storage_calls_count w
  then storage_calls_rotate w else w.

(** The store right after a new call was created, indexed and numbered
    (lines 161-171). *)
Definition sip_new_call (sip_data : PacketSipData) (w : World) : ptr * World :=
  let w1 := sip_make_room w in
  let p := fresh_ptr (call_heap w1) in
  let i := calls_last_index (calls w1) + 1 in
  (p, mkWorld
        (set_last_index
           (set_callids (calls w1) (<[sd_callid sip_data := p]> (calls_callids (calls w1))))
           i)
        (<[p := mkCall (sd_callid sip_data) (sd_xcallid sip_data) i
                  CALL_STATE_NONE false [] [] []]> (call_heap w1))
        (stream_heap w1) (mem_ok w1)).

(** Ingestion never pins or unpins a call: the flag belongs to the
    user interface.  [locks_kept w w'] says that [w'] has the lock
    flags of [w]. *)
Definition locks_kept (w w' : World) : Prop :=
  forall p, locked (get_call w' p) = locked (get_call w p).

(** The list has room for the next call, or can make room for it: it
    holds at most [capture.limit] calls, and when it is full one of
    them is not pinned. *)
Definition pin_room (w : World) : Prop :=
  storage_calls_count w <= limit (calls_capture (calls w))
  /\ (storage_calls_count w = limit (calls_capture (calls w)) ->
      exists p, p ∈ calls_list (calls w) /\ locked (get_call w p) = false).

(** No call is pinned. *)
Definition no_call_locked (w : World) : Prop :=
  forall p, locked (get_call w p) = false.

(** The message built from the SIP data (lines 133-138). *)
Definition sip_message (sip_data : PacketSipData) : SipMsg :=
  mkSipMsg (sd_cseq sip_data) (sd_from sip_data) (sd_to sip_data)
    (sd_reqresp sip_data) (sd_resp_str sip_data) None [] None false.

(** The capture thread feeds SIP and RTP packets one at a time and the
    user interface polls the changed flag in between. *)
Inductive capture_event :=
  | SipPacket (p : Packet)
  | RtpPacket (p : packet_t)
  | PollChanged.

(** What a run leaves behind. *)
Record run_result := mkRun {
  polls : list bool;   (* what each poll returned, in order *)
  stored : nat;        (* SIP packets that were stored *)
  final : World
}.

Fixpoint run (es : list capture_event) (w : World) : run_result :=
  match es with
  | [] => mkRun [] 0 w
  | SipPacket p :: es' =>
      let '(r, w1) := storage_check_sip_packet p w in
      let res := run es' w1 in
      mkRun (polls res)
        (match r with Some _ => 1 | None => 0 end + stored res) (final res)
  | RtpPacket p :: es' =>
      run es' (storage_check_rtp_packet p w).2
  | PollChanged :: es' =>
      let '(b, w1) := storage_calls_changed w in
      let res := run es' w1 in
      mkRun (b :: polls res) (stored res) (final res)
  end.

(** The number of polls that returned true. *)
Definition count_true (l : list bool) : nat := length (filter (eq true) l).

End Storage.

(** ** A concrete environment

    The scenarios below run the store with a literal pattern matcher, the
    comparison by call index, and the method tags of spec 3 (requests
    are numbered from 1000, responses keep their status code). *)
Module Sample.

Definition contains (pat s : string) : bool :=
  match String.index 0 pat s with
  | Some _ => true
  | None => false
  end.

Definition all_streams (w : World) : list ptr :=
  flat_map (fun c => streams (get_call w c)) (calls_list (calls w)).

(** Modelled from the spec: [stream_find_by_format] is not under src/;
    a lookup over the streams of all calls by endpoint pair and format
    (spec 4.6).  It prefers the stream with this source, destination
    and format, then the one with this source and destination, then a
    stream with this destination whose source is not known yet. *)
Definition find_by_format (w : World) (s d : Address) (f : Z) : option ptr :=
  let l := all_streams w in
  let at_ sp := get_stream w sp in
  match List.find (fun sp => complete (at_ sp)
                             && addressport_equals (src (at_ sp)) s
                             && addressport_equals (dst (at_ sp)) d
                             && (fmtcode (at_ sp) =? f)) l with
  | Some sp => Some sp
  | None =>
      match List.find (fun sp => complete (at_ sp)
                                 && addressport_equals (src (at_ sp)) s
                                 && addressport_equals (dst (at_ sp)) d) l with
      | Some sp => Some sp
      | None =>
          List.find (fun sp => negb (complete (at_ sp))
                               && addressport_equals (dst (at_ sp)) d) l
      end
  end.

(** Modelled from the spec: [call_find_stream_exact] is not under src/;
    the lookup that wants source and destination of a stream that has
    its source (spec 4.3). *)
Definition find_stream_exact (w : World) (call : option ptr) (s d : Address)
    : option ptr :=
  match call with
  | Some p =>
      List.find (fun sp => complete (get_stream w sp)
                           && addressport_equals (src (get_stream w sp)) s
                           && addressport_equals (dst (get_stream w sp)) d)
                (streams (get_call w p))
  | None => None
  end.

Definition attr_compare (a b : SipCall) (attr : SipAttr) : Z :=
  match attr with
  | SIP_ATTR_CALLINDEX => index a - index b
  | SIP_ATTR_MSGCNT => Z.of_nat (length (msgs a)) - Z.of_nat (length (msgs b))
  | _ => 0
  end.

#[export] Instance env : Collaborators := {|
  SIP_METHOD_INVITE := 1001;
  SIP_METHOD_MESSAGE := 1006;
  SIP_METHOD_CANCEL := 1007;
  SIP_METHOD_BYE := 1008;
  g_regex_new := fun e icase => Some (mkRegex e icase);
  g_regex_match := fun rx payload => contains (rx_pattern rx) payload;
  call_attr_compare := attr_compare;
  setting_sortfield := Some SIP_ATTR_CALLINDEX;
  setting_sortorder_asc := true;
  stream_find_by_format := find_by_format;
  call_find_stream_exact := find_stream_exact;
  stream_create_msg := fun _ _ => None
|}.

(** The process before [storage_init]: [calls = {0}] and empty heaps. *)
Definition boot : World :=
  mkWorld
    (mkCalls [] [] ∅ 0 false (mkCaptureOpts 0 false false)
       (mkMatchOpts None false 0 None false false)
       (mkSortOpts SIP_ATTR_CALLINDEX true))
    ∅ ∅ true.

Definition no_match : SStorageMatchOpts :=
  mkMatchOpts None false 0 None false false.

Definition by_index : SStorageSortOpts := mkSortOpts SIP_ATTR_CALLINDEX true.

(** A store initialised with the given capture limit and match options. *)
Definition store (lim : Z) (m : SStorageMatchOpts) : World :=
  default boot (storage_init (mkCaptureOpts lim true true) m by_index boot).

Definition ua1 : Address := mkAddress "10.0.0.1" 5060.
Definition ua2 : Address := mkAddress "10.0.0.2" 5060.

(** A SIP packet from [ua2] to [ua1] with the given Call-ID, method or
    code, payload and SDP. *)
Definition sip_packet (cid : string) (rr : Z) (payload : string)
    (sdp : option PacketSdpData) : Packet :=
  mkPacket ua2 ua1
    (Some (mkSipData cid EmptyString "sip:bob@example.org" "sip:alice@example.org"
             1 rr EmptyString payload))
    sdp None None.

Definition invite (cid : string) : Packet :=
  sip_packet cid 1001 "INVITE sip:carol@example.org SIP/2.0" None.

(** Modelled from the spec: pinning a call is the user's action on the
    [locked] flag (spec 3); it is not under src/. *)
Definition call_lock (p : ptr) (w : World) : World :=
  upd_call p (fun c => mkCall (callid c) (xcallid c) (index c) (state c) true
                          (msgs c) (streams c) (children c)) w.

(** The allocator stops serving [call_create]. *)
Definition out_of_memory (w : World) : World :=
  mkWorld (calls w) (call_heap w) (stream_heap w) false.

Definition ingest_sip (p : Packet) (w : World) : World :=
  (storage_check_sip_packet p w).2.

(** One stored call, "A", in a store of capacity 1. *)
Definition one_call : World := ingest_sip (invite "A") (store 1 no_match).

(** Spec 8, scenario 2: A, then B, with A pinned, in a store of
    capacity 2. *)
Definition two_calls_A_locked : World :=
  call_lock 1%nat (ingest_sip (invite "B") (ingest_sip (invite "A") (store 2 no_match))).

(** Spec 8, scenario 3: dialog X advertises 10.0.0.1:16000, then the
    first RTP packet arrives from 10.0.0.2:24000 with payload type 0. *)
Definition audio : PacketSdpMedia := mkMedia (mkAddress "10.0.0.1" 16000) 16000 0.

Definition invite_sdp : Packet :=
  sip_packet "X" 1001 "INVITE sip:carol@example.org SIP/2.0"
    (Some (mkSdpData [audio])).

Definition dialog_X : World := ingest_sip invite_sdp (store 2 no_match).

Definition rtp_src : Address := mkAddress "10.0.0.2" 24000.
Definition rtp_dst : Address := mkAddress "10.0.0.1" 16000.

Definition first_rtp : packet_t :=
  mkOldPacket rtp_src rtp_dst
    (mkPacket rtp_src rtp_dst None None (Some (mkRtpData 0)) None).

(** A receiver report on the RTCP port of the same media. *)
Definition rtcp_only : packet_t :=
  mkOldPacket (mkAddress "10.0.0.2" 24001) (mkAddress "10.0.0.1" 16001)
    (mkPacket (mkAddress "10.0.0.2" 24001) (mkAddress "10.0.0.1" 16001)
       None None None (Some (mkRtcpData [201]))).

(** Spec 8, scenario 4: the inverted match on "sip:alice@". *)
Definition not_alice : SStorageMatchOpts :=
  mkMatchOpts (Some "sip:alice@") false 1 None false false.

Definition invite_alice : Packet :=
  sip_packet "A" 1001 "INVITE sip:alice@example.org SIP/2.0" None.

(** What a stream looks like from outside. *)
Definition stream_view (w : World) (p : ptr)
    : PacketProto * Address * Address * Z * bool * Z :=
  let s := get_stream w p in
  (type s, src s, dst s, fmtcode s, complete s, pkt_cnt s).

(** The fields of the first line of [invite]. *)
Definition invite_data (cid xcid : string) : PacketSipData :=
  mkSipData cid xcid "sip:bob@example.org" "sip:alice@example.org" 1 1001
    EmptyString "INVITE sip:carol@example.org SIP/2.0".

(** An INVITE that names another dialog in its X-Call-ID. *)
Definition invite_from (cid xcid : string) : Packet :=
  mkPacket ua2 ua1 (Some (invite_data cid xcid)) None None None.

Definition by_index_desc : SStorageSortOpts := mkSortOpts SIP_ATTR_CALLINDEX false.

(** The display filter that shows pinned calls only. *)
Definition locked_only (c : SipCall) : bool := locked c.

(** A capture session: three dialogs, an RTP packet, a poll of the
    interface and a change of the sort order. *)
Definition session : list store_op :=
  [ OpSip (invite "A"); OpSip (invite "B"); OpRtp first_rtp; OpChanged;
    OpSip (invite "C"); OpSort by_index_desc ].

End Sample.

Section Properties.
Context `{Collaborators}.

(** * Properties *)

(** ** What the helpers leave alone *)

Lemma calls_upd_call p f w : calls (upd_call p f w) = calls w.
Proof. reflexivity. Qed.

Lemma calls_upd_stream p f w : calls (upd_stream p f w) = calls w.
Proof. reflexivity. Qed.

Lemma calls_alloc_stream s w : calls (snd (alloc_stream s w)) = calls w.
Proof. reflexivity. Qed.

Lemma calls_call_add_stream c sp w : calls (call_add_stream c sp w) = calls w.
Proof. by destruct c. Qed.

Lemma calls_call_add_xcall parent child w :
  calls (call_add_xcall parent child w) = calls w.
Proof. by destruct parent. Qed.

Lemma calls_call_add_message call m w : calls (call_add_message call m w) = calls w.
Proof. reflexivity. Qed.

Lemma calls_call_msg_retrans_check r w : calls (call_msg_retrans_check r w) = calls w.
Proof. reflexivity. Qed.

Lemma calls_call_destroy p w : calls (call_destroy p w) = calls w.
Proof. reflexivity. Qed.

Lemma calls_register_media r packet pk m w :
  calls (register_media r packet pk m w) = calls w.
Proof.
  unfold register_media, alloc_stream.
  repeat (case_match; simpl);
    repeat (rewrite calls_call_add_stream; simpl); reflexivity.
Qed.

Lemma calls_storage_register_streams r w :
  calls (storage_register_streams r w) = calls w.
Proof.
  unfold storage_register_streams.
  destruct (msg_packet _) as [pk|]; [|done].
  destruct (proto_SDP _) as [sdp|]; [|done].
  generalize (sdp_medias sdp); intros l; revert w.
  induction l as [|m l IH]; intros w; [done|].
  simpl. rewrite IH. apply calls_register_media.
Qed.

Lemma mem_ok_storage_calls_rotate_from w it :
  mem_ok (storage_calls_rotate_from w it) = mem_ok w.
Proof.
  induction it as [|p it IH]; simpl; [done|].
  by destruct (locked _).
Qed.

(** The list, the index and the options after [sip_update_invite]: only
    the active list may differ. *)
Lemma sip_update_invite_frame call r w :
  let w' := sip_update_invite call r w in
  calls_list (calls w') = calls_list (calls w)
  /\ calls_callids (calls w') = calls_callids (calls w)
  /\ calls_capture (calls w') = calls_capture (calls w)
  /\ calls_changed (calls w') = calls_changed (calls w)
  /\ calls_match (calls w') = calls_match (calls w).
Proof.
  unfold sip_update_invite.
  destruct (call_is_invite _); [|done].
  set (w1 := upd_call _ _ _).
  assert (calls w1 = calls w) as Hc
    by (unfold w1; rewrite calls_upd_call; apply calls_storage_register_streams).
  destruct (call_is_active _), (storage_call_is_active _ _); simpl;
    rewrite ?Hc, ?calls_storage_register_streams; auto.
Qed.

(** ** Sequences *)

Lemma g_sequence_index_absent l x :
  g_sequence_index l x = -1 <-> x ∉ l.
Proof.
  induction l as [|y l IH]; simpl.
  - split; [intros _; apply not_elem_of_nil|done].
  - rewrite not_elem_of_cons. case_bool_decide as Hy.
    + split; [done|]. intros [? _]. congruence.
    + destruct (Z.eqb_spec (g_sequence_index l x) (-1)) as [He|He].
      * split; [|done]. intros _. split; [congruence|]. by apply IH.
      * assert (0 <= g_sequence_index l x \/ g_sequence_index l x = -1) as Hr.
        { clear. induction l as [|z l IHl]; simpl; [by right|].
          case_bool_decide; [left; lia|].
          destruct (Z.eqb_spec (g_sequence_index l x) (-1)); [by right|left; lia]. }
        split; [lia|]. intros [_ Hn]. apply IH in Hn. done.
Qed.

Lemma g_sequence_remove_data_absent l x :
  x ∉ l -> g_sequence_remove_data l x = l.
Proof.
  induction l as [|y l IH]; simpl; [done|].
  rewrite not_elem_of_cons. intros [Hne Hn].
  case_bool_decide; [congruence|]. by rewrite IH.
Qed.

Lemma g_sequence_remove_data_first l1 x l2 :
  x ∉ l1 -> g_sequence_remove_data (l1 ++ x :: l2) x = l1 ++ l2.
Proof.
  induction l1 as [|y l1 IH]; simpl.
  - intros _. by rewrite bool_decide_eq_true_2.
  - rewrite not_elem_of_cons. intros [Hne Hn].
    case_bool_decide; [congruence|]. by rewrite IH.
Qed.

Lemma g_sequence_remove_data_length l x :
  x ∈ l -> length (g_sequence_remove_data l x) = pred (length l).
Proof.
  induction l as [|y l IH]; simpl; [by intros ?%elem_of_nil|].
  case_bool_decide as Hy; [done|].
  rewrite elem_of_cons. intros [->|Hin]; [done|].
  simpl. rewrite IH by done. destruct l; [by apply elem_of_nil in Hin|done].
Qed.

Lemma g_sequence_insert_sorted_length l x cmp :
  length (g_sequence_insert_sorted l x cmp) = S (length l).
Proof.
  induction l as [|y l IH]; simpl; [done|].
  destruct (0 <? cmp y x); simpl; [done|by rewrite IH].
Qed.

Lemma g_sequence_insert_sorted_elem l x cmp y :
  y ∈ g_sequence_insert_sorted l x cmp <-> y = x \/ y ∈ l.
Proof.
  induction l as [|z l IH]; simpl.
  - rewrite list_elem_of_singleton.
    split; [by left|]. intros [?|Hn]; [done|]. by apply elem_of_nil in Hn.
  - destruct (0 <? cmp z x); rewrite !elem_of_cons, ?IH; tauto.
Qed.

(** ** Fresh addresses *)

Lemma fresh_ptr_fresh {A} (h : gmap ptr A) : h !! fresh_ptr h = None.
Proof.
  destruct (h !! fresh_ptr h) as [a|] eqn:Hl; [|done].
  assert (fresh_ptr h ∈ fst <$> map_to_list h) as Hin.
  { apply (list_elem_of_fmap_2' fst _ (fresh_ptr h, a)); [|done].
    by apply elem_of_map_to_list. }
  apply max_list_elem_of_le in Hin. unfold fresh_ptr in Hin. exfalso. exact (Nat.nle_succ_diag_l _ Hin).
Qed.

(** ** Rotation *)

(** The scan stops at the first unlocked call, or runs to the end. *)
Lemma storage_calls_rotate_from_cases w it :
  (Forall (fun p => locked (get_call w p) = true) it
   /\ storage_calls_rotate_from w it = w)
  \/ (exists l1 call l2,
        it = l1 ++ call :: l2
        /\ Forall (fun p => locked (get_call w p) = true) l1
        /\ locked (get_call w call) = false
        /\ storage_calls_rotate_from w it = rotated_out w call).
Proof.
  induction it as [|p it IH]; simpl.
  - left. by split.
  - destruct (locked (get_call w p)) eqn:Hl; simpl.
    + destruct IH as [[Hall Heq]|(l1 & call & l2 & -> & Hall & Hun & Heq)].
      * left. split; [by constructor|done].
      * right. exists (p :: l1), call, l2. repeat split; [by constructor|done..].
    + right. exists [], p, it. repeat split; [by constructor|done].
Qed.

Lemma storage_calls_rotate_all_locked w :
  Forall (fun p => locked (get_call w p) = true) (calls_list (calls w)) ->
  storage_calls_rotate w = w.
Proof.
  intros Hall. unfold storage_calls_rotate.
  destruct (storage_calls_rotate_from_cases w (calls_list (calls w)))
    as [[_ Heq]|(l1 & call & l2 & Hl & _ & Hun & _)]; [done|].
  rewrite Hl in Hall. apply Forall_app in Hall as [_ Hall].
  apply Forall_cons in Hall as [Hlk _]. congruence.
Qed.

(** The options and the flags survive a rotation. *)
Lemma storage_calls_rotate_frame w :
  let w' := storage_calls_rotate w in
  calls_capture (calls w') = calls_capture (calls w)
  /\ calls_changed (calls w') = calls_changed (calls w)
  /\ calls_match (calls w') = calls_match (calls w)
  /\ calls_sort (calls w') = calls_sort (calls w)
  /\ calls_last_index (calls w') = calls_last_index (calls w)
  /\ mem_ok w' = mem_ok w.
Proof.
  unfold storage_calls_rotate.
  destruct (storage_calls_rotate_from_cases w (calls_list (calls w)))
    as [[_ ->]|(l1 & call & l2 & _ & _ & _ & ->)]; simpl; auto 10.
Qed.

(** A rotation takes at most one call out of the list, and exactly one
    when some call of the list is unlocked. *)
Lemma storage_calls_rotate_count w :
  (exists p, p ∈ calls_list (calls w) /\ locked (get_call w p) = false) ->
  storage_calls_count (storage_calls_rotate w) = storage_calls_count w - 1.
Proof.
  intros (p & Hin & Hun). unfold storage_calls_rotate, storage_calls_count.
  destruct (storage_calls_rotate_from_cases w (calls_list (calls w)))
    as [[Hall _]|(l1 & call & l2 & Hl & _ & _ & ->)].
  - rewrite Forall_forall in Hall. specialize (Hall p Hin). congruence.
  - simpl. unfold g_sequence_get_length.
    rewrite g_sequence_remove_data_length.
    + rewrite Hl. rewrite !length_app. simpl. lia.
    + rewrite Hl. apply elem_of_app. right. by left.
Qed.

(** ** Admission of a SIP packet *)

Lemma sip_find_or_create_call_known sip_data m w call :
  storage_find_by_callid w (sd_callid sip_data) = Some call ->
  sip_find_or_create_call sip_data m w = (Some (call, false), w).
Proof. intros Hf. unfold sip_find_or_create_call. by rewrite Hf. Qed.

Lemma sip_find_or_create_call_filtered sip_data m w :
  reqresp m = sd_reqresp sip_data ->
  storage_find_by_callid w (sd_callid sip_data) = None ->
  sip_filters_pass w sip_data = false ->
  sip_find_or_create_call sip_data m w = (None, w).
Proof.
  intros Hm Hf Hp. unfold sip_find_or_create_call, sip_filters_pass in *.
  rewrite Hf, Hm.
  destruct (_ =? 0); [done|].
  destruct (invite _ && _); [done|].
  destruct (mcomplete _ && _); [done|]. done.
Qed.

Lemma sip_find_or_create_call_refused sip_data m w :
  reqresp m = sd_reqresp sip_data ->
  storage_find_by_callid w (sd_callid sip_data) = None ->
  sip_filters_pass w sip_data = true ->
  mem_ok w = false ->
  sip_find_or_create_call sip_data m w = (None, sip_make_room w).
Proof.
  intros Hm Hf Hp Hmem. unfold sip_find_or_create_call, sip_filters_pass in *.
  rewrite Hf, Hm.
  destruct (_ =? 0); [done|].
  destruct (invite _ && _); [done|].
  destruct (mcomplete _ && _); [done|].
  fold (sip_make_room w). unfold call_create.
  assert (mem_ok (sip_make_room w) = false) as ->; [|done].
  unfold sip_make_room. destruct (_ =? _); [|done].
  destruct (storage_calls_rotate_frame w) as (_ & _ & _ & _ & _ & ->). done.
Qed.

Lemma sip_find_or_create_call_created sip_data m w :
  reqresp m = sd_reqresp sip_data ->
  storage_find_by_callid w (sd_callid sip_data) = None ->
  sip_filters_pass w sip_data = true ->
  mem_ok w = true ->
  sip_find_or_create_call sip_data m w
  = (Some ((sip_new_call sip_data w).1, true), (sip_new_call sip_data w).2).
Proof.
  intros Hm Hf Hp Hmem. unfold sip_find_or_create_call, sip_filters_pass in *.
  rewrite Hf, Hm.
  destruct (_ =? 0); [done|].
  destruct (invite _ && _); [done|].
  destruct (mcomplete _ && _); [done|].
  fold (sip_make_room w). unfold call_create, sip_new_call.
  assert (mem_ok (sip_make_room w) = true) as Hm1.
  { unfold sip_make_room. destruct (_ =? _); [|done].
    destruct (storage_calls_rotate_frame w) as (_ & _ & _ & _ & _ & ->). done. }
  rewrite Hm1. simpl. unfold get_call, upd_call. simpl.
  rewrite lookup_insert_eq. simpl.
  f_equal. unfold set_call_heap. simpl. f_equal; [|done].
  apply map_eq. intros k. rewrite lookup_alter.
  destruct (decide (fresh_ptr (call_heap (sip_make_room w)) = k)) as [->|Hne].
  - by rewrite !lookup_insert_eq.
  - by rewrite !lookup_insert_ne.
Qed.

(** What storing the message does to the views. *)
Lemma sip_store_message_frame packet m call newcall w :
  let r := (sip_store_message packet m call newcall w).1 in
  let w' := (sip_store_message packet m call newcall w).2 in
  ref_call r = call
  /\ calls_callids (calls w') = calls_callids (calls w)
  /\ calls_capture (calls w') = calls_capture (calls w)
  /\ calls_match (calls w') = calls_match (calls w)
  /\ calls_changed (calls w') = true
  /\ (newcall = false -> calls_list (calls w') = calls_list (calls w))
  /\ (newcall = true ->
      exists cmp, calls_list (calls w')
                  = g_sequence_insert_sorted (calls_list (calls w)) call cmp).
Proof.
  unfold sip_store_message.
  set (w1 := if call_msg_count _ =? 0 then _ else w).
  assert (calls w1 = calls w) as H1.
  { unfold w1. destruct (_ =? 0); [|done]. destruct (negb _); [|done].
    apply calls_call_add_xcall. }
  set (r := mkMsgRef call _).
  set (w2 := call_msg_retrans_check r _).
  assert (calls w2 = calls w) as H2 by (by rewrite <- H1).
  destruct (sip_update_invite_frame call r w2) as (Hl & Hh & Hc & _ & Hm).
  rewrite H2 in Hl, Hh, Hc, Hm.
  destruct newcall; simpl; repeat split; try done.
  intros _. eexists. by rewrite Hl.
Qed.

(** ** Lock flags *)

Lemma locks_kept_refl w : locks_kept w w.
Proof. by intros p. Qed.

Lemma locks_kept_trans w1 w2 w3 :
  locks_kept w1 w2 -> locks_kept w2 w3 -> locks_kept w1 w3.
Proof. intros H12 H23 p. by rewrite H23, H12. Qed.

Lemma locks_kept_upd_call p f w :
  (forall c, locked (f c) = locked c) -> locks_kept w (upd_call p f w).
Proof.
  intros Hf q. unfold get_call, upd_call. simpl. rewrite lookup_alter.
  destruct (decide (p = q)) as [->|]; [|done].
  destruct (call_heap w !! q); simpl; [apply Hf|done].
Qed.

Lemma locks_kept_stream_heap w h : locks_kept w (set_stream_heap w h).
Proof. by intros p. Qed.

Lemma locks_kept_set_calls w c : locks_kept w (set_calls w c).
Proof. by intros p. Qed.

Lemma locks_kept_call_add_stream c sp w : locks_kept w (call_add_stream c sp w).
Proof.
  destruct c; [|apply locks_kept_refl]. by apply locks_kept_upd_call.
Qed.

Lemma locks_kept_call_add_xcall parent child w :
  locks_kept w (call_add_xcall parent child w).
Proof.
  destruct parent; [|apply locks_kept_refl]. by apply locks_kept_upd_call.
Qed.

Lemma locked_call_update_state c m : locked (call_update_state c m) = locked c.
Proof.
  unfold call_update_state. destruct (state c); try done;
    repeat (case_match; try done).
Qed.

Lemma locks_kept_call_add_message call m w :
  locks_kept w (call_add_message call m w).
Proof.
  apply locks_kept_upd_call. intros c. by rewrite locked_call_update_state.
Qed.

Lemma locks_kept_upd_msg r f w : locks_kept w (upd_msg r f w).
Proof. by apply locks_kept_upd_call. Qed.

Lemma locks_kept_register_media r packet pk m w :
  locks_kept w (register_media r packet pk m w).
Proof.
  unfold register_media, alloc_stream.
  repeat (case_match; simpl);
    repeat first
      [ apply locks_kept_upd_msg
      | eapply locks_kept_trans; [|apply locks_kept_call_add_stream]
      | eapply locks_kept_trans; [|apply locks_kept_stream_heap] ].
Qed.

Lemma locks_kept_storage_register_streams r w :
  locks_kept w (storage_register_streams r w).
Proof.
  unfold storage_register_streams.
  destruct (msg_packet _) as [pk|]; [|apply locks_kept_refl].
  destruct (proto_SDP _) as [sdp|]; [|apply locks_kept_refl].
  generalize (sdp_medias sdp); intros l; revert w.
  induction l as [|m l IH]; intros w; [apply locks_kept_refl|].
  simpl. eapply locks_kept_trans; [|apply IH]. apply locks_kept_register_media.
Qed.

Lemma locks_kept_sip_update_invite call r w :
  locks_kept w (sip_update_invite call r w).
Proof.
  unfold sip_update_invite.
  destruct (call_is_invite _); [|apply locks_kept_refl].
  set (w1 := upd_call _ _ _).
  assert (locks_kept w w1) as H1.
  { eapply locks_kept_trans; [apply locks_kept_storage_register_streams|].
    apply locks_kept_upd_call. intros c. apply locked_call_update_state. }
  destruct (call_is_active _), (storage_call_is_active _ _); try done;
    (eapply locks_kept_trans; [exact H1|apply locks_kept_set_calls]).
Qed.

Lemma locks_kept_sip_store_message packet m call newcall w :
  locks_kept w (sip_store_message packet m call newcall w).2.
Proof.
  unfold sip_store_message.
  set (w1 := if call_msg_count _ =? 0 then _ else w).
  assert (locks_kept w w1) as H1.
  { unfold w1. destruct (_ =? 0); [|apply locks_kept_refl].
    destruct (negb _); [|apply locks_kept_refl]. apply locks_kept_call_add_xcall. }
  set (r := mkMsgRef call _).
  set (w2 := call_msg_retrans_check r _).
  assert (locks_kept w w2) as H2.
  { eapply locks_kept_trans; [exact H1|].
    eapply locks_kept_trans; [apply locks_kept_call_add_message|].
    apply locks_kept_upd_msg. }
  simpl. eapply locks_kept_trans; [|apply locks_kept_set_calls].
  assert (locks_kept w (sip_update_invite call r w2)) as H3
    by (eapply locks_kept_trans; [exact H2|apply locks_kept_sip_update_invite]).
  destruct newcall; [|done].
  eapply locks_kept_trans; [exact H3|apply locks_kept_set_calls].
Qed.

Lemma no_call_locked_kept w w' :
  locks_kept w w' -> no_call_locked w -> no_call_locked w'.
Proof. intros Hk Hn p. by rewrite Hk. Qed.

Lemma no_call_locked_call_destroy p w :
  no_call_locked w -> no_call_locked (call_destroy p w).
Proof.
  intros Hn q. unfold get_call, call_destroy. simpl. rewrite lookup_delete.
  destruct (decide (p = q)); [done|apply Hn].
Qed.

Lemma no_call_locked_sip_make_room w :
  no_call_locked w -> no_call_locked (sip_make_room w).
Proof.
  intros Hn. unfold sip_make_room. destruct (_ =? _); [|done].
  unfold storage_calls_rotate.
  destruct (storage_calls_rotate_from_cases w (calls_list (calls w)))
    as [[_ ->]|(l1 & call & l2 & _ & _ & _ & ->)]; [done|].
  apply no_call_locked_call_destroy. intros q. apply Hn.
Qed.

Lemma no_call_locked_sip_new_call sip_data w :
  no_call_locked w -> no_call_locked (sip_new_call sip_data w).2.
Proof.
  intros Hn q. apply no_call_locked_sip_make_room in Hn.
  unfold sip_new_call, get_call. simpl. rewrite lookup_insert.
  destruct (decide (_ = q)); [done|apply Hn].
Qed.

(** ** Streams under RTP ingestion *)

Lemma stream_heap_call_add_stream c sp w :
  stream_heap (call_add_stream c sp w) = stream_heap w.
Proof. by destruct c. Qed.

Lemma stream_heap_create_reverse packet stream format w :
  stream_heap (create_reverse packet stream format w)
  = <[fresh_ptr (stream_heap w) :=
        stream_set_format
          (stream_complete
             (stream_create (newpacket packet) (media (get_stream w stream)))
             (dst (get_stream w stream))) format]> (stream_heap w).
Proof.
  unfold create_reverse, alloc_stream. by rewrite stream_heap_call_add_stream.
Qed.

(** A live stream is not disturbed by the creation of a reverse stream. *)
Lemma create_reverse_other packet stream format w q s :
  stream_heap w !! q = Some s ->
  stream_heap (create_reverse packet stream format w) !! q = Some s.
Proof.
  intros Hq. rewrite stream_heap_create_reverse.
  rewrite lookup_insert_ne; [done|].
  intros <-. by rewrite fresh_ptr_fresh in Hq.
Qed.

Lemma lookup_upd_stream p f w :
  stream_heap (upd_stream p f w) !! p = f <$> stream_heap w !! p.
Proof. unfold upd_stream. simpl. by rewrite lookup_alter_eq. Qed.

Lemma get_stream_live w p s : stream_heap w !! p = Some s -> get_stream w p = s.
Proof. intros Hp. unfold get_stream. by rewrite Hp. Qed.

(** The stream the packet resolved to after lines 273-314: completed
    with the packet source and with the format set if it was
    incomplete, untouched otherwise; its packets are as before. *)
Lemma rtp_first_packet_stream packet stream format w s :
  stream_heap w !! stream = Some s ->
  stream_heap (rtp_first_packet packet stream format w) !! stream
  = Some (if complete s then s
          else stream_set_format (stream_complete s (pkt_src packet)) format).
Proof.
  intros Hs. unfold rtp_first_packet, stream_is_complete.
  rewrite (get_stream_live _ _ _ Hs).
  destruct (complete s) eqn:Hc; simpl; [done|].
  set (w1 := upd_stream stream _ w).
  assert (stream_heap w1 !! stream
          = Some (stream_set_format (stream_complete s (pkt_src packet)) format))
    as H1 by (unfold w1; by rewrite lookup_upd_stream, Hs).
  repeat case_match; try done; by apply create_reverse_other.
Qed.

(** The stream that takes the packet after lines 264-270: the one found,
    or a new complete stream of this format without packets. *)
Lemma rtp_resolve_format_stream packet stream format w s :
  stream_heap w !! stream = Some s ->
  let '(sp, w') := rtp_resolve_format packet stream format w in
  if complete s && negb (fmtcode s =? format) then
    stream_heap w !! sp = None
    /\ stream_heap w' !! sp
       = Some (stream_set_format
                 (stream_complete (stream_create (newpacket packet) (media s))
                    (pkt_src packet)) format)
  else sp = stream /\ w' = w.
Proof.
  intros Hs. unfold rtp_resolve_format, stream_is_complete, alloc_stream.
  rewrite (get_stream_live _ _ _ Hs).
  destruct (complete s && negb (fmtcode s =? format)); [|done].
  split; [apply fresh_ptr_fresh|].
  rewrite stream_heap_call_add_stream. simpl. by rewrite lookup_insert_eq.
Qed.

Lemma calls_create_reverse packet stream format w :
  calls (create_reverse packet stream format w) = calls w.
Proof.
  unfold create_reverse, alloc_stream. by rewrite calls_call_add_stream.
Qed.

Lemma calls_rtp_first_packet packet stream format w :
  calls (rtp_first_packet packet stream format w) = calls w.
Proof.
  unfold rtp_first_packet.
  repeat case_match; try done; by rewrite calls_create_reverse.
Qed.

Lemma calls_rtp_resolve_format packet stream format w :
  calls (rtp_resolve_format packet stream format w).2 = calls w.
Proof.
  unfold rtp_resolve_format, alloc_stream.
  case_match; [|done]. simpl. by rewrite calls_call_add_stream.
Qed.

(** RTP ingestion leaves the three views, the options and the changed
    flag as they are. *)
Lemma calls_storage_check_rtp_packet packet w :
  calls (storage_check_rtp_packet packet w).2 = calls w.
Proof.
  unfold storage_check_rtp_packet, rtp_block.
  destruct (proto_RTP _) as [rtp|]; [|done].
  destruct (stream_find_by_format _ _ _ _) as [stream|]; [|done].
  pose proof (calls_rtp_resolve_format packet stream (encoding_id rtp mod 256) w) as Hr.
  destruct (rtp_resolve_format _ _ _ _) as [sp w1]. simpl in *.
  by rewrite calls_rtp_first_packet.
Qed.

Lemma locks_kept_create_reverse packet stream format w :
  locks_kept w (create_reverse packet stream format w).
Proof.
  unfold create_reverse, alloc_stream.
  eapply locks_kept_trans; [|apply locks_kept_call_add_stream].
  apply locks_kept_stream_heap.
Qed.

Lemma locks_kept_upd_stream p f w : locks_kept w (upd_stream p f w).
Proof. by intros q. Qed.

Lemma locks_kept_rtp_first_packet packet stream format w :
  locks_kept w (rtp_first_packet packet stream format w).
Proof.
  unfold rtp_first_packet.
  repeat case_match; try apply locks_kept_refl;
    try apply locks_kept_upd_stream;
    (eapply locks_kept_trans; [|apply locks_kept_create_reverse]);
    apply locks_kept_upd_stream.
Qed.

Lemma locks_kept_storage_check_rtp_packet packet w :
  locks_kept w (storage_check_rtp_packet packet w).2.
Proof.
  unfold storage_check_rtp_packet, rtp_block.
  destruct (proto_RTP _) as [rtp|]; [|apply locks_kept_refl].
  destruct (stream_find_by_format _ _ _ _) as [stream|]; [|apply locks_kept_refl].
  assert (locks_kept w (rtp_resolve_format packet stream (encoding_id rtp mod 256) w).2)
    as Hr.
  { unfold rtp_resolve_format, alloc_stream. case_match; [|apply locks_kept_refl].
    simpl. eapply locks_kept_trans; [|apply locks_kept_call_add_stream].
    apply locks_kept_stream_heap. }
  destruct (rtp_resolve_format _ _ _ _) as [sp w1]. simpl in *.
  repeat (eapply locks_kept_trans; [|apply locks_kept_upd_stream]).
  eapply locks_kept_trans; [exact Hr|apply locks_kept_rtp_first_packet].
Qed.

(** ** RTP and RTCP packets *)

(** C4 (as the code has it): a packet that carries RTCP data and no RTP
    data resolves no stream at all.  The second block of
    [storage_check_rtp_packet] reads the slot [PACKET_RTP] where the
    RTCP data was meant, finds it empty and returns NULL; no stream
    receives the packet and the store is unchanged. *)
Theorem storage_check_rtp_packet_rtcp_only (packet : packet_t) (w : World)
    (rtcp : PacketRtcpData) :
  proto_RTCP (newpacket packet) = Some rtcp ->
  proto_RTP (newpacket packet) = None ->
  storage_check_rtp_packet packet w = (None, w).
Proof.
  intros _ Hrtp. unfold storage_check_rtp_packet, rtp_block. by rewrite Hrtp.
Qed.

Lemma pkt_cnt_stream_complete s a : pkt_cnt (stream_complete s a) = pkt_cnt s.
Proof. unfold stream_complete. by destruct (complete s). Qed.

Lemma packets_stream_complete s a : packets (stream_complete s a) = packets s.
Proof. unfold stream_complete. by destruct (complete s). Qed.

(** C10: a packet with RTP data that resolves to a stream is added to
    that stream twice, once by the RTP block and once by the block
    meant for RTCP, which tests the same [PACKET_RTP] slot and calls
    [stream_complete] with the packet source again: the packet counter
    of the stream grows by two for one observed packet.  The stream is
    the one found, or the new one made for a complete stream of another
    format (its counter starts at 0). *)
Theorem storage_check_rtp_packet_adds_twice (packet : packet_t) (w : World)
    (rtp : PacketRtpData) (stream : ptr) (s : rtp_stream_t) :
  proto_RTP (newpacket packet) = Some rtp ->
  stream_find_by_format w (pkt_src packet) (pkt_dst packet)
    (encoding_id rtp mod 256) = Some stream ->
  stream_heap w !! stream = Some s ->
  exists (sp : ptr) (w1 : World) (s1 : rtp_stream_t),
    rtp_block packet w
    = Some (Some sp, upd_stream sp (fun x => stream_add_packet x packet) w1)
    /\ stream_heap w1 !! sp = Some s1
    /\ pkt_cnt s1
       = (if complete s && negb (fmtcode s =? encoding_id rtp mod 256)
          then 0 else pkt_cnt s)
    /\ storage_check_rtp_packet packet w
       = (Some sp,
          upd_stream sp (fun x => stream_add_packet x packet)
            (upd_stream sp (fun x => stream_complete x (pkt_src packet))
               (upd_stream sp (fun x => stream_add_packet x packet) w1)))
    /\ pkt_cnt (get_stream (storage_check_rtp_packet packet w).2 sp)
       = pkt_cnt s1 + 2
    /\ packets (get_stream (storage_check_rtp_packet packet w).2 sp)
       = packets s1 ++ [packet; packet].
Proof.
  intros Hrtp Hfind Hs.
  set (format := encoding_id rtp mod 256) in *.
  pose proof (rtp_resolve_format_stream packet stream format w s Hs) as Hres.
  unfold storage_check_rtp_packet, rtp_block. rewrite Hrtp. fold format.
  rewrite Hfind.
  destruct (rtp_resolve_format packet stream format w) as [sp w0].
  assert (exists s0, stream_heap w0 !! sp = Some s0
                     /\ pkt_cnt s0 = (if complete s && negb (fmtcode s =? format)
                                      then 0 else pkt_cnt s))
    as (s0 & Hs0 & Hc0).
  { destruct (complete s && negb (fmtcode s =? format)).
    - destruct Hres as [_ Hnew]. eexists. split; [exact Hnew|].
      simpl. rewrite ?pkt_cnt_stream_complete. done.
    - destruct Hres as [-> ->]. by exists s. }
  pose proof (rtp_first_packet_stream packet sp format w0 s0 Hs0) as H1.
  set (w1 := rtp_first_packet packet sp format w0) in *.
  set (s1 := if complete s0 then s0 else _) in H1.
  exists sp, w1, s1.
  assert (pkt_cnt s1 = pkt_cnt s0) as Hc1.
  { unfold s1. destruct (complete s0); [done|].
    simpl. by rewrite pkt_cnt_stream_complete. }
  repeat split; [done|congruence|..].
  - unfold get_stream. simpl. rewrite !lookup_alter_eq, H1. simpl.
    rewrite pkt_cnt_stream_complete. simpl. lia.
  - unfold get_stream. simpl. rewrite !lookup_alter_eq, H1. simpl.
    rewrite packets_stream_complete. simpl. by rewrite <- app_assoc.
Qed.

Lemma msg_get_call_stream_heap w h m :
  msg_get_call (set_stream_heap w h) m = msg_get_call w m.
Proof. by destruct m. Qed.

Lemma call_add_stream_streams call sp w c :
  call_heap w !! call = Some c ->
  streams (get_call (call_add_stream (Some call) sp w) call) = streams c ++ [sp].
Proof.
  intros Hc. unfold get_call, call_add_stream, upd_call. simpl.
  by rewrite lookup_alter_eq, Hc.
Qed.

(** The first packet of an incomplete stream whose call has no stream
    in the opposite direction: the stream is completed with the packet
    source and gets the format; a new stream is created at a fresh
    address, completed with the destination of the first, given the
    same format and added to the call.  Its destination is the one
    [stream_create] gives every stream of that media; the source of the
    packet does not enter it. *)
Lemma rtp_first_packet_reverse packet stream format w s call c :
  stream_heap w !! stream = Some s ->
  complete s = false ->
  msg_get_call w (msg s) = Some call ->
  call_heap w !! call = Some c ->
  call_find_stream (Some call) (dst s) (pkt_src packet)
    (upd_stream stream
       (fun x => stream_set_format (stream_complete x (pkt_src packet)) format) w)
  = None ->
  let w' := rtp_first_packet packet stream format w in
  exists rp,
    stream_heap w !! rp = None
    /\ stream_heap w' !! stream
       = Some (mkStream (type s) (media s) (pkt_src packet) (dst s) format true
                 (pkt_cnt s) (packets s) (msg s))
    /\ stream_heap w' !! rp
       = Some (mkStream PACKET_RTP (media s) (dst s)
                 (mkAddress (ip (address (media s))) (rtpport (media s)))
                 format true 0 []
                 (stream_create_msg (newpacket packet) (media s)))
    /\ streams (get_call w' call) = streams c ++ [rp].
Proof.
  intros Hs Hc Hcall Hlive Hnone w'. unfold w', rtp_first_packet, stream_is_complete.
  rewrite (get_stream_live _ _ _ Hs), Hc. simpl.
  set (w1 := upd_stream stream _ w) in *.
  set (s1 := mkStream (type s) (media s) (pkt_src packet) (dst s) format true
               (pkt_cnt s) (packets s) (msg s)).
  assert (stream_heap w1 !! stream = Some s1) as H1.
  { unfold w1. rewrite lookup_upd_stream, Hs. simpl.
    unfold stream_complete. by rewrite Hc. }
  rewrite (get_stream_live _ _ _ H1). simpl.
  assert (msg_get_call w1 (msg s) = Some call) as Hcall1
    by (unfold w1, upd_stream; by rewrite msg_get_call_stream_heap).
  rewrite Hcall1, Hnone.
  exists (fresh_ptr (stream_heap w1)).
  pose proof (fresh_ptr_fresh (stream_heap w1)) as Hfresh.
  assert (fresh_ptr (stream_heap w1) <> stream) as Hne
    by (intros Heq; rewrite Heq in Hfresh; congruence).
  split.
  { rewrite <- Hfresh. symmetry. unfold w1 at 2. simpl.
    apply lookup_alter_ne. exact (fun Heq => Hne (eq_sym Heq)). }
  split; [by apply create_reverse_other|].
  split.
  - rewrite stream_heap_create_reverse, lookup_insert_eq.
    by rewrite (get_stream_live _ _ _ H1).
  - unfold create_reverse, alloc_stream.
    set (w2 := set_stream_heap w1 _).
    assert (get_stream w2 stream = s1) as H2.
    { apply get_stream_live. unfold w2. simpl. by rewrite lookup_insert_ne. }
    rewrite H2. simpl.
    assert (msg_get_call w2 (msg s) = Some call) as ->
      by (unfold w2; by rewrite msg_get_call_stream_heap).
    by apply call_add_stream_streams.
Qed.

(** ** SIP packets *)

(** The outcomes of [storage_check_sip_packet], path by path. *)
Lemma storage_check_sip_packet_paths packet w :
  storage_check_sip_packet packet w
  = match proto_SIP packet with
    | None => (None, w)
    | Some sip_data =>
        let m := sip_message sip_data in
        match storage_find_by_callid w (sd_callid sip_data) with
        | Some call =>
            (Some (sip_store_message packet m call false w).1,
             (sip_store_message packet m call false w).2)
        | None =>
            if sip_filters_pass w sip_data then
              if mem_ok w then
                let new := sip_new_call sip_data w in
                (Some (sip_store_message packet m new.1 true new.2).1,
                 (sip_store_message packet m new.1 true new.2).2)
              else (None, sip_make_room w)
            else (None, w)
        end
    end.
Proof.
  unfold storage_check_sip_packet.
  destruct (proto_SIP packet) as [sip_data|]; [|done].
  fold (sip_message sip_data). cbv zeta.
  destruct (storage_find_by_callid w (sd_callid sip_data)) as [call|] eqn:Hf.
  - rewrite (sip_find_or_create_call_known _ _ _ _ Hf).
    by destruct (sip_store_message _ _ _ _ _).
  - destruct (sip_filters_pass w sip_data) eqn:Hp.
    + destruct (mem_ok w) eqn:Hm.
      * rewrite sip_find_or_create_call_created by done.
        by destruct (sip_store_message _ _ _ _ _).
      * by rewrite sip_find_or_create_call_refused.
    + by rewrite sip_find_or_create_call_filtered.
Qed.

(** A first message that fails the match expression, the INVITE-only
    or the complete-only check is skipped before the store is touched. *)
Lemma storage_check_sip_packet_filtered packet sip_data w :
  proto_SIP packet = Some sip_data ->
  storage_find_by_callid w (sd_callid sip_data) = None ->
  sip_filters_pass w sip_data = false ->
  storage_check_sip_packet packet w = (None, w).
Proof.
  intros Hs Hf Hp. by rewrite storage_check_sip_packet_paths, Hs, Hf, Hp.
Qed.

Lemma sip_make_room_frame w :
  let w' := sip_make_room w in
  calls_capture (calls w') = calls_capture (calls w)
  /\ calls_changed (calls w') = calls_changed (calls w)
  /\ calls_match (calls w') = calls_match (calls w)
  /\ storage_calls_count w' <= storage_calls_count w.
Proof.
  unfold sip_make_room. destruct (_ =? _); [|simpl; repeat split; lia].
  destruct (storage_calls_rotate_frame w) as (Hc & Hch & Hm & _).
  repeat split; try done.
  unfold storage_calls_rotate, storage_calls_count, g_sequence_get_length.
  destruct (storage_calls_rotate_from_cases w (calls_list (calls w)))
    as [[_ ->]|(l1 & call & l2 & Hl & _ & _ & ->)]; [lia|].
  simpl. rewrite g_sequence_remove_data_length.
  - lia.
  - rewrite Hl. apply elem_of_app. right. by left.
Qed.

(** A skipped message leaves the changed flag as it was. *)
Lemma storage_check_sip_packet_skipped packet w w' :
  storage_check_sip_packet packet w = (None, w') ->
  calls_changed (calls w') = calls_changed (calls w).
Proof.
  rewrite storage_check_sip_packet_paths.
  destruct (proto_SIP packet) as [sip_data|]; [|by intros [= <-]].
  cbv zeta. destruct (storage_find_by_callid _ _); [done|].
  destruct (sip_filters_pass _ _); [|by intros [= <-]].
  destruct (mem_ok w); [done|]. intros [= <-].
  by destruct (sip_make_room_frame w) as (_ & -> & _).
Qed.

(** A stored message sets it. *)
Lemma storage_check_sip_packet_stored packet w r w' :
  storage_check_sip_packet packet w = (Some r, w') ->
  calls_changed (calls w') = true.
Proof.
  rewrite storage_check_sip_packet_paths.
  destruct (proto_SIP packet) as [sip_data|]; [|done].
  cbv zeta. destruct (storage_find_by_callid _ _) as [call|].
  - destruct (sip_store_message_frame packet (sip_message sip_data) call false w)
      as (_ & _ & _ & _ & Hch & _).
    intros [= _ <-]. exact Hch.
  - destruct (sip_filters_pass _ _); [|done].
    destruct (mem_ok w); [|done].
    destruct (sip_store_message_frame packet (sip_message sip_data)
                (sip_new_call sip_data w).1 true (sip_new_call sip_data w).2)
      as (_ & _ & _ & _ & Hch & _).
    intros [= _ <-]. exact Hch.
Qed.

(** ** Runs of the store *)

(** C9: [storage_calls_changed] returns the flag and clears it, and
    touches nothing else; the second of two consecutive calls returns
    false; over any run, the polls that return true are at most one for
    the flag that was pending plus one per SIP packet that was stored. *)
Theorem storage_calls_changed_read_and_reset (w : World) :
  (storage_calls_changed w).1 = calls_changed (calls w)
  /\ (storage_calls_changed w).2 = set_calls w (set_changed (calls w) false)
  /\ calls_changed (calls (storage_calls_changed w).2) = false
  /\ (storage_calls_changed (storage_calls_changed w).2).1 = false
  /\ forall es,
       (count_true (polls (run es w))
        <= (if calls_changed (calls w) then 1 else 0) + stored (run es w))%nat.
Proof.
  repeat split.
  intros es. revert w. induction es as [|e es IH]; intros w; simpl.
  - unfold count_true. simpl. lia.
  - destruct e as [p|p|].
    + destruct (storage_check_sip_packet p w) as [r w1] eqn:Hp. simpl.
      specialize (IH w1). destruct r as [r|].
      * destruct (calls_changed (calls w1)), (calls_changed (calls w)); lia.
      * apply storage_check_sip_packet_skipped in Hp. rewrite Hp in IH. lia.
    + specialize (IH (storage_check_rtp_packet p w).2).
      by rewrite calls_storage_check_rtp_packet in IH.
    + simpl. specialize (IH (set_calls w (set_changed (calls w) false))).
      simpl in IH. unfold count_true in *. rewrite filter_cons.
      destruct (calls_changed (calls w)); simpl.
      * destruct (decide (true = true)); [simpl; lia|done].
      * destruct (decide (true = false)); [done|lia].
Qed.

(** C8: [storage_calls_rotate] takes out the first call of the list
    that is not locked: it leaves the list at that position, leaves the
    active list if it is there, loses its Call-ID in the index and is
    destroyed; with every call locked the store is left as it is, so
    rotating again changes nothing. *)
Theorem storage_calls_rotate_first_unlocked (w : World) :
  (forall l1 call l2,
      calls_list (calls w) = l1 ++ call :: l2 ->
      Forall (fun p => locked (get_call w p) = true) l1 ->
      locked (get_call w call) = false ->
      let w' := storage_calls_rotate w in
      calls_list (calls w') = l1 ++ l2
      /\ (call ∉ calls_active (calls w) ->
          calls_active (calls w') = calls_active (calls w))
      /\ (forall a1 a2, calls_active (calls w) = a1 ++ call :: a2 -> call ∉ a1 ->
          calls_active (calls w') = a1 ++ a2)
      /\ calls_callids (calls w')
         = delete (callid (get_call w call)) (calls_callids (calls w))
      /\ call_heap w' !! call = None)
  /\ (Forall (fun p => locked (get_call w p) = true) (calls_list (calls w)) ->
      storage_calls_rotate w = w
      /\ storage_calls_rotate (storage_calls_rotate w) = storage_calls_rotate w).
Proof.
  split.
  - intros l1 call l2 Hl Hlocked Hun w'.
    assert (call ∉ l1) as Hnotin.
    { intros Hin. rewrite Forall_forall in Hlocked.
      specialize (Hlocked call Hin). congruence. }
    assert (w' = rotated_out w call) as ->.
    { unfold w', storage_calls_rotate.
      destruct (storage_calls_rotate_from_cases w (calls_list (calls w)))
        as [[Hall _]|(k1 & c & k2 & Hk & Hk1 & Hc & ->)].
      - rewrite Hl in Hall. apply Forall_app in Hall as [_ Hall].
        apply Forall_cons in Hall as [Hlk _]. congruence.
      - rewrite Hl in Hk.
        assert (c ∉ k1) as Hck.
        { intros Hin. rewrite Forall_forall in Hk1.
          specialize (Hk1 c Hin). congruence. }
        assert (l1 = k1 /\ call = c) as [_ ->]; [|done].
        clear -Hk Hnotin Hck Hlocked Hk1 Hun Hc.
        revert k1 Hk Hck Hk1. induction l1 as [|x l1 IH]; intros k1 Hk Hck Hk1.
        + destruct k1 as [|y k1]; simpl in Hk; [by inversion Hk|].
          inversion Hk; subst. apply Forall_cons in Hk1 as [Hy _]. congruence.
        + destruct k1 as [|y k1]; simpl in Hk.
          * inversion Hk; subst. apply Forall_cons in Hlocked as [Hx _]. congruence.
          * inversion Hk; subst.
            apply not_elem_of_cons in Hnotin as [_ Hnotin].
            apply not_elem_of_cons in Hck as [_ Hck].
            apply Forall_cons in Hlocked as [_ Hlocked].
            apply Forall_cons in Hk1 as [_ Hk1].
            destruct (IH Hlocked Hnotin k1) as [-> ->]; done. }
    simpl. repeat split.
    + rewrite Hl. by apply g_sequence_remove_data_first.
    + apply g_sequence_remove_data_absent.
    + intros a1 a2 -> Ha. by apply g_sequence_remove_data_first.
    + apply lookup_delete_eq.
  - intros Hall. rewrite storage_calls_rotate_all_locked by done.
    split; [done|]. by apply storage_calls_rotate_all_locked.
Qed.

(** ** The capture limit *)

(** A full list that has an unlocked call loses one call when room is
    made; a list that is not full is left alone. *)
Lemma sip_make_room_pin_room w :
  pin_room w ->
  calls_capture (calls (sip_make_room w)) = calls_capture (calls w)
  /\ storage_calls_count (sip_make_room w) + 1 <= limit (calls_capture (calls w)).
Proof.
  intros [Hle Hun]. destruct (sip_make_room_frame w) as (Hc & _). split; [done|].
  unfold sip_make_room.
  destruct (Z.eqb_spec (limit (calls_capture (calls w))) (storage_calls_count w))
    as [Heq|Hne]; [|lia].
  rewrite storage_calls_rotate_count; [lia|]. apply Hun. by symmetry.
Qed.

(** One SIP packet keeps the room. *)
Lemma pin_room_storage_check_sip_packet packet w :
  pin_room w -> pin_room (storage_check_sip_packet packet w).2.
Proof.
  intros Hw. pose proof Hw as [Hle Hun].
  destruct (sip_make_room_pin_room w Hw) as [Hcr Hroom].
  rewrite storage_check_sip_packet_paths.
  destruct (proto_SIP packet) as [sip_data|]; [|done].
  cbv zeta. destruct (storage_find_by_callid _ _) as [call|].
  - destruct (sip_store_message_frame packet (sip_message sip_data) call false w)
      as (_ & _ & Hc & _ & _ & Hl & _).
    pose proof (locks_kept_sip_store_message packet (sip_message sip_data) call
                  false w) as Hk.
    cbn [snd]. unfold pin_room, storage_calls_count. rewrite Hc, (Hl eq_refl).
    split; [exact Hle|]. intros Heq. destruct (Hun Heq) as (p & Hp & Hlk).
    exists p. split; [done|]. by rewrite Hk.
  - destruct (sip_filters_pass _ _); [|done].
    destruct (mem_ok w).
    + destruct (sip_store_message_frame packet (sip_message sip_data)
                  (sip_new_call sip_data w).1 true (sip_new_call sip_data w).2)
        as (_ & _ & Hc & _ & _ & _ & Hl).
      destruct (Hl eq_refl) as [cmp Hcmp].
      pose proof (locks_kept_sip_store_message packet (sip_message sip_data)
                    (sip_new_call sip_data w).1 true (sip_new_call sip_data w).2)
        as Hk.
      cbn [snd]. unfold pin_room, storage_calls_count, g_sequence_get_length.
      rewrite Hc, Hcmp, g_sequence_insert_sorted_length.
      assert (calls_capture (calls (sip_new_call sip_data w).2)
              = calls_capture (calls w)) as -> by (simpl; exact Hcr).
      assert (calls_list (calls (sip_new_call sip_data w).2)
              = calls_list (calls (sip_make_room w))) as -> by done.
      unfold storage_calls_count, g_sequence_get_length in Hroom.
      split; [lia|]. intros _. exists (sip_new_call sip_data w).1. split.
      * apply g_sequence_insert_sorted_elem. by left.
      * rewrite Hk. unfold sip_new_call, get_call. simpl.
        by rewrite lookup_insert_eq.
    + cbn [snd]. unfold pin_room. rewrite Hcr. split; lia.
Qed.

(** When every call of a full list is locked the rotation finds
    nothing to take out, and the new call is admitted all the same. *)
Lemma storage_check_sip_packet_all_locked packet sip_data w :
  proto_SIP packet = Some sip_data ->
  storage_find_by_callid w (sd_callid sip_data) = None ->
  sip_filters_pass w sip_data = true ->
  mem_ok w = true ->
  storage_calls_count w = limit (calls_capture (calls w)) ->
  Forall (fun p => locked (get_call w p) = true) (calls_list (calls w)) ->
  storage_calls_rotate w = w
  /\ is_Some (storage_check_sip_packet packet w).1
  /\ storage_calls_count (storage_check_sip_packet packet w).2
     = limit (calls_capture (calls w)) + 1.
Proof.
  intros Hs Hf Hp Hm Hfull Hall.
  pose proof (storage_calls_rotate_all_locked w Hall) as Hrot.
  split; [done|].
  rewrite storage_check_sip_packet_paths, Hs. cbv zeta. rewrite Hf, Hp, Hm.
  split; [by eexists|].
  destruct (sip_store_message_frame packet (sip_message sip_data)
              (sip_new_call sip_data w).1 true (sip_new_call sip_data w).2)
    as (_ & _ & _ & _ & _ & _ & Hl).
  destruct (Hl eq_refl) as [cmp Hcmp].
  unfold storage_calls_count, g_sequence_get_length in *. cbn [snd].
  rewrite Hcmp, g_sequence_insert_sorted_length. simpl.
  unfold sip_make_room, storage_calls_count, g_sequence_get_length.
  rewrite <- Hfull, Z.eqb_refl, Hrot. lia.
Qed.

(** C2 (amended): in a store that holds at most [capture.limit] calls
    and in which a full list has a call that is not locked, the list
    holds at most [capture.limit] calls after every packet of every
    run, and a full list still has a call that is not locked: the
    rotation always finds a call to take out before a new call comes
    in, whatever other calls are pinned. *)
Theorem storage_calls_count_bounded (es : list capture_event) (w : World) :
  pin_room w ->
  storage_calls_count (final (run es w))
  <= limit (calls_capture (calls (final (run es w))))
  /\ pin_room (final (run es w)).
Proof.
  intros Hw. assert (pin_room (final (run es w))) as Hfin; [|by destruct Hfin].
  revert w Hw. induction es as [|e es IH]; intros w Hw; [done|].
  destruct e as [p|p|]; simpl.
  - pose proof (pin_room_storage_check_sip_packet p w Hw) as Hp.
    destruct (storage_check_sip_packet p w) as [r w1]. by apply IH.
  - apply IH. destruct Hw as [Hle Hun].
    pose proof (locks_kept_storage_check_rtp_packet p w) as Hk.
    unfold pin_room, storage_calls_count in *.
    rewrite calls_storage_check_rtp_packet. split; [done|].
    intros Heq. destruct (Hun Heq) as (q & Hq & Hlk).
    exists q. split; [done|]. by rewrite Hk.
  - by apply IH.
Qed.

(** ** The match expression *)

(** A first message that passes the filters, with memory for the call,
    is stored: its Call-ID then resolves to the call of the message and
    that call is in the list. *)
Lemma storage_check_sip_packet_admitted packet sip_data w :
  proto_SIP packet = Some sip_data ->
  storage_find_by_callid w (sd_callid sip_data) = None ->
  sip_filters_pass w sip_data = true ->
  mem_ok w = true ->
  exists r,
    (storage_check_sip_packet packet w).1 = Some r
    /\ storage_find_by_callid (storage_check_sip_packet packet w).2
         (sd_callid sip_data) = Some (ref_call r)
    /\ ref_call r ∈ calls_list (calls (storage_check_sip_packet packet w).2).
Proof.
  intros Hs Hf Hp Hm.
  rewrite storage_check_sip_packet_paths, Hs. cbv zeta. rewrite Hf, Hp, Hm.
  destruct (sip_store_message_frame packet (sip_message sip_data)
              (sip_new_call sip_data w).1 true (sip_new_call sip_data w).2)
    as (Hr & Hh & _ & _ & _ & _ & Hl).
  destruct (Hl eq_refl) as [cmp Hcmp].
  eexists. split; [done|]. cbn [fst snd]. split.
  - unfold storage_find_by_callid. rewrite Hh, Hr. simpl.
    by rewrite lookup_insert_eq.
  - rewrite Hcmp, Hr. apply g_sequence_insert_sorted_elem. by left.
Qed.

(** C7: with no match expression every payload matches; with an
    expression the check is (payload matches) XOR invert.  So with
    invert set, a first message whose payload matches the expression is
    skipped and creates no call, and one that does not match is stored
    (with the INVITE-only and complete-only options off and memory for
    the call), its Call-ID resolving to a call of the list. *)
Theorem storage_check_match_expr_invert (w : World) :
  (forall payload,
      mexpr (calls_match (calls w)) = None ->
      storage_check_match_expr w payload = 1)
  /\ (forall payload e rx (inv : bool),
        mexpr (calls_match (calls w)) = Some e ->
        mregex (calls_match (calls w)) = Some rx ->
        minvert (calls_match (calls w)) = Z.b2z inv ->
        storage_check_match_expr w payload
        = Z.b2z (xorb (g_regex_match rx payload) inv))
  /\ (forall packet sip_data e rx,
        proto_SIP packet = Some sip_data ->
        storage_find_by_callid w (sd_callid sip_data) = None ->
        mexpr (calls_match (calls w)) = Some e ->
        mregex (calls_match (calls w)) = Some rx ->
        minvert (calls_match (calls w)) = 1 ->
        (g_regex_match rx (sd_payload sip_data) = true ->
         storage_check_sip_packet packet w = (None, w))
        /\ (g_regex_match rx (sd_payload sip_data) = false ->
            invite (calls_match (calls w)) = false ->
            mcomplete (calls_match (calls w)) = false ->
            mem_ok w = true ->
            exists r,
              (storage_check_sip_packet packet w).1 = Some r
              /\ storage_find_by_callid (storage_check_sip_packet packet w).2
                   (sd_callid sip_data) = Some (ref_call r)
              /\ ref_call r
                 ∈ calls_list (calls (storage_check_sip_packet packet w).2))).
Proof.
  assert (forall payload e rx (inv : bool),
             mexpr (calls_match (calls w)) = Some e ->
             mregex (calls_match (calls w)) = Some rx ->
             minvert (calls_match (calls w)) = Z.b2z inv ->
             storage_check_match_expr w payload
             = Z.b2z (xorb (g_regex_match rx payload) inv)) as Hxor.
  { intros payload e rx inv He Hrx Hinv. unfold storage_check_match_expr.
    rewrite He, Hrx, Hinv. by destruct (g_regex_match rx payload), inv. }
  split; [|split; [exact Hxor|]].
  - intros payload He. unfold storage_check_match_expr. by rewrite He.
  - intros packet sip_data e rx Hs Hf He Hrx Hinv.
    pose proof (Hxor (sd_payload sip_data) e rx true He Hrx Hinv) as Hchk.
    split.
    + intros Hmatch. apply (storage_check_sip_packet_filtered _ sip_data); try done.
      unfold sip_filters_pass. by rewrite Hchk, Hmatch.
    + intros Hmatch Hi Hc Hm.
      apply storage_check_sip_packet_admitted; try done.
      unfold sip_filters_pass. by rewrite Hchk, Hmatch, Hi, Hc.
Qed.

(** ** The active list *)

(** The source appends a call to [calls.active] only when it is already
    there (lines 197-200), so an empty active list stays empty whatever
    SIP packet is ingested. *)
Lemma storage_check_sip_packet_active_empty packet w :
  calls_active (calls w) = [] ->
  calls_active (calls (storage_check_sip_packet packet w).2) = [].
Proof.
  intros Ha.
  assert (forall call r w0, calls_active (calls w0) = [] ->
            calls_active (calls (sip_update_invite call r w0)) = []) as Hupd.
  { intros call r w0 H0. unfold sip_update_invite.
    destruct (call_is_invite _); [|done].
    set (w1 := upd_call _ _ _).
    assert (calls w1 = calls w0) as Hc
      by (unfold w1; rewrite calls_upd_call; apply calls_storage_register_streams).
    unfold storage_call_is_active. rewrite Hc, H0. simpl.
    destruct (call_is_active _); by rewrite Hc. }
  assert (forall m call newcall w0, calls_active (calls w0) = [] ->
            calls_active (calls (sip_store_message packet m call newcall w0).2) = [])
    as Hstore.
  { intros m call newcall w0 H0. unfold sip_store_message.
    set (w1 := if call_msg_count _ =? 0 then _ else w0).
    assert (calls w1 = calls w0) as H1.
    { unfold w1. destruct (_ =? 0); [|done]. destruct (negb _); [|done].
      apply calls_call_add_xcall. }
    set (r := mkMsgRef call _).
    set (w2 := call_msg_retrans_check r _).
    assert (calls_active (calls w2) = []) as H2 by (by rewrite <- H0, <- H1).
    specialize (Hupd call r w2 H2). by destruct newcall. }
  assert (calls_active (calls (sip_make_room w)) = []) as Hroom.
  { unfold sip_make_room. destruct (_ =? _); [|done]. unfold storage_calls_rotate.
    destruct (storage_calls_rotate_from_cases w (calls_list (calls w)))
      as [[_ ->]|(l1 & call & l2 & _ & _ & _ & ->)]; [done|].
    simpl. by rewrite Ha. }
  rewrite storage_check_sip_packet_paths.
  destruct (proto_SIP packet) as [sip_data|]; [|done].
  cbv zeta. destruct (storage_find_by_callid _ _) as [call|].
  - by apply Hstore.
  - destruct (sip_filters_pass _ _); [|done].
    destruct (mem_ok w); [|done]. by apply Hstore.
Qed.

(** Over a whole run no call ever enters an empty active list. *)
Lemma run_active_empty es w :
  calls_active (calls w) = [] ->
  calls_active (calls (final (run es w))) = [].
Proof.
  revert w. induction es as [|e es IH]; intros w Ha; [done|].
  destruct e as [p|p|]; simpl.
  - pose proof (storage_check_sip_packet_active_empty p w Ha) as Hp.
    destruct (storage_check_sip_packet p w) as [r w1]. by apply IH.
  - apply IH. by rewrite calls_storage_check_rtp_packet.
  - by apply IH.
Qed.

(** When [call_create] fails the message is skipped after the store
    made room for the call. *)
Lemma storage_check_sip_packet_refused packet sip_data w :
  proto_SIP packet = Some sip_data ->
  storage_find_by_callid w (sd_callid sip_data) = None ->
  sip_filters_pass w sip_data = true ->
  mem_ok w = false ->
  storage_check_sip_packet packet w = (None, sip_make_room w).
Proof.
  intros Hs Hf Hp Hm. by rewrite storage_check_sip_packet_paths, Hs, Hf, Hp, Hm.
Qed.

(** ** Streams registered from SDP *)

Lemma get_msg_upd_msg r f w m0 :
  msgs (get_call w (ref_call r)) !! ref_pos r = Some m0 ->
  get_msg (upd_msg r f w) r = f m0.
Proof.
  intros Hm. unfold get_msg, upd_msg, upd_call, get_call in *. simpl.
  rewrite lookup_alter_eq.
  destruct (call_heap w !! ref_call r) as [c|]; simpl in *; [|done].
  by rewrite list_lookup_alter_eq, Hm.
Qed.

Lemma msg_call_live w r p :
  msg_call (get_msg w r) = Some p ->
  exists m0, msgs (get_call w (ref_call r)) !! ref_pos r = Some m0
             /\ msg_call m0 = Some p.
Proof.
  unfold get_msg. destruct (msgs _ !! _) as [m0|]; simpl; [|done].
  intros Hp. by exists m0.
Qed.

Lemma call_live_upd_call p f w q c :
  call_heap w !! q = Some c ->
  exists c', call_heap (upd_call p f w) !! q = Some c'.
Proof.
  intros Hq. unfold upd_call. simpl. rewrite lookup_alter.
  destruct (decide (p = q)) as [->|]; rewrite Hq; simpl; by eexists.
Qed.

(** A stream that was just added to a live call is found by its
    endpoints. *)
Lemma call_find_stream_added call sp s w c :
  call_heap w !! call = Some c ->
  stream_heap w !! sp = Some s ->
  is_Some (call_find_stream (Some call) (src s) (dst s)
             (call_add_stream (Some call) sp w)).
Proof.
  intros Hc Hs. unfold call_find_stream.
  rewrite (call_add_stream_streams _ _ _ _ Hc).
  destruct (List.find _ _) as [x|] eqn:Hfind; [by eexists|].
  exfalso. apply List.find_none with (x := sp) in Hfind.
  - unfold get_stream in Hfind. rewrite stream_heap_call_add_stream, Hs in Hfind.
    simpl in Hfind. unfold addressport_equals in Hfind.
    by rewrite !bool_decide_eq_true_2 in Hfind.
  - apply in_or_app. right. by left.
Qed.

(** [storage_register_streams] never registers an RTCP stream: for a
    media whose address carries its RTP port, in a message of a live
    call, every RTCP stream of the heap after [register_media] was
    there before.  The guard of line 420 finds the RTP stream that
    line 412 found or line 416 added. *)
Lemma register_media_no_rtcp r packet pk m w p c :
  msg_call (get_msg w r) = Some p ->
  call_heap w !! p = Some c ->
  port (address m) = rtpport m ->
  forall q s,
    stream_heap (register_media r packet pk m w) !! q = Some s ->
    type s = PACKET_RTCP ->
    stream_heap w !! q = Some s.
Proof.
  intros Hp Hc Hport q s.
  destruct (msg_call_live w r p Hp) as (m0 & Hm0 & Hp0).
  unfold register_media.
  set (w0 := upd_msg r _ w).
  assert (msg_call (get_msg w0 r) = Some p) as ->
    by (unfold w0; by rewrite (get_msg_upd_msg _ _ _ _ Hm0)).
  assert (stream_heap w0 = stream_heap w) as Hsh by done.
  destruct (call_live_upd_call (ref_call r)
              (fun c => set_msgs c (alter (fun x => set_msg_medias x (msg_medias x ++ [m]))
                                      (ref_pos r) (msgs c))) w p c Hc) as [c0 Hc0].
  fold (upd_msg r (fun x => set_msg_medias x (msg_medias x ++ [m])) w) in Hc0.
  fold w0 in Hc0.
  assert (mkAddress (ip (address m)) (rtpport m) = address m) as Haddr
    by (rewrite <- Hport; by destruct (address m)).
  (* the store after the first block, where the guard of the second finds a stream *)
  set (wA := match call_find_stream (Some p) emptyaddr (address m) w0 with
             | None => _ | Some _ => w0 end).
  assert (is_Some (call_find_stream (Some p) emptyaddr (address m) wA)
          /\ (exists c', call_heap wA !! p = Some c')
          /\ forall q s, stream_heap wA !! q = Some s -> type s = PACKET_RTCP ->
                         stream_heap w !! q = Some s) as (Hfound & [cA HcA] & HheapA).
  { unfold wA. destruct (call_find_stream (Some p) emptyaddr (address m) w0) eqn:Hf.
    - rewrite Hf. split; [by eexists|]. split; [by eexists|]. intros q' s' Hq' _. exact Hq'.
    - unfold alloc_stream.
      set (s1 := set_msg (set_type (stream_create packet m) PACKET_RTP) (Some r)).
      set (w1 := set_stream_heap w0 _).
      assert (stream_heap w1 !! fresh_ptr (stream_heap w0) = Some s1) as H1
        by (unfold w1; simpl; by rewrite lookup_insert_eq).
      split; [|split].
      + pose proof (call_find_stream_added p _ s1 w1 c0 Hc0 H1) as Hadd.
        simpl in Hadd. by rewrite Haddr in Hadd.
      + apply (call_live_upd_call _ _ w1 p c0 Hc0).
      + intros q' s' Hq' Ht. rewrite stream_heap_call_add_stream in Hq'.
        unfold w1 in Hq'. simpl in Hq'. rewrite lookup_insert in Hq'.
        case_decide; [|exact Hq']. injection Hq' as <-. done. }
  destruct Hfound as [found Hfound]. rewrite Hfound.
  destruct (call_find_stream (Some p) (pkt_src pk) (address m) wA); [apply HheapA|].
  unfold alloc_stream. rewrite stream_heap_call_add_stream. simpl.
  rewrite lookup_insert.
  destruct (decide (fresh_ptr (stream_heap wA) = q)); [|apply HheapA].
  intros [= <-]. done.
Qed.

(** ** The identity of calls under ingestion *)

Lemma identity_kept_refl w : identity_kept w w.
Proof. by intros p. Qed.

Lemma identity_kept_trans w1 w2 w3 :
  identity_kept w1 w2 -> identity_kept w2 w3 -> identity_kept w1 w3.
Proof. intros H12 H23 p. by rewrite H23, H12. Qed.

Lemma identity_kept_upd_call p f w :
  (forall c, call_identity (f c) = call_identity c) ->
  identity_kept w (upd_call p f w).
Proof.
  intros Hf q. unfold upd_call. simpl. rewrite lookup_alter.
  destruct (decide (p = q)) as [->|]; [|done].
  destruct (call_heap w !! q); simpl; [by rewrite Hf|done].
Qed.

Lemma identity_kept_same_heap w w' :
  call_heap w' = call_heap w -> identity_kept w w'.
Proof. intros Hh p. by rewrite Hh. Qed.

Lemma identity_kept_call_add_stream c sp w :
  identity_kept w (call_add_stream c sp w).
Proof.
  destruct c; [|apply identity_kept_refl]. by apply identity_kept_upd_call.
Qed.

Lemma identity_kept_call_add_xcall parent child w :
  identity_kept w (call_add_xcall parent child w).
Proof.
  destruct parent; [|apply identity_kept_refl]. by apply identity_kept_upd_call.
Qed.

Lemma call_identity_call_update_state c m :
  call_identity (call_update_state c m) = call_identity c.
Proof.
  unfold call_update_state. destruct (state c); try done;
    repeat (case_match; try done).
Qed.

Lemma identity_kept_call_add_message call m w :
  identity_kept w (call_add_message call m w).
Proof.
  apply identity_kept_upd_call. intros c.
  by rewrite call_identity_call_update_state.
Qed.

Lemma identity_kept_upd_msg r f w : identity_kept w (upd_msg r f w).
Proof. by apply identity_kept_upd_call. Qed.

Lemma identity_kept_register_media r packet pk m w :
  identity_kept w (register_media r packet pk m w).
Proof.
  unfold register_media, alloc_stream.
  repeat (case_match; simpl);
    repeat first
      [ apply identity_kept_upd_msg
      | eapply identity_kept_trans; [|apply identity_kept_call_add_stream]
      | eapply identity_kept_trans; [|by apply identity_kept_same_heap] ].
Qed.

Lemma identity_kept_storage_register_streams r w :
  identity_kept w (storage_register_streams r w).
Proof.
  unfold storage_register_streams.
  destruct (msg_packet _) as [pk|]; [|apply identity_kept_refl].
  destruct (proto_SDP _) as [sdp|]; [|apply identity_kept_refl].
  generalize (sdp_medias sdp); intros l; revert w.
  induction l as [|m l IH]; intros w; [apply identity_kept_refl|].
  simpl. eapply identity_kept_trans; [|apply IH].
  apply identity_kept_register_media.
Qed.

Lemma identity_kept_sip_update_invite call r w :
  identity_kept w (sip_update_invite call r w).
Proof.
  unfold sip_update_invite.
  destruct (call_is_invite _); [|apply identity_kept_refl].
  set (w1 := upd_call _ _ _).
  assert (identity_kept w w1) as H1.
  { eapply identity_kept_trans; [apply identity_kept_storage_register_streams|].
    apply identity_kept_upd_call. intros c. apply call_identity_call_update_state. }
  destruct (call_is_active _), (storage_call_is_active _ _); try done;
    (eapply identity_kept_trans; [exact H1|by apply identity_kept_same_heap]).
Qed.

Lemma identity_kept_sip_store_message packet m call newcall w :
  identity_kept w (sip_store_message packet m call newcall w).2.
Proof.
  unfold sip_store_message.
  set (w1 := if call_msg_count _ =? 0 then _ else w).
  assert (identity_kept w w1) as H1.
  { unfold w1. destruct (_ =? 0); [|apply identity_kept_refl].
    destruct (negb _); [|apply identity_kept_refl].
    apply identity_kept_call_add_xcall. }
  set (r := mkMsgRef call _).
  set (w2 := call_msg_retrans_check r _).
  assert (identity_kept w w2) as H2.
  { eapply identity_kept_trans; [exact H1|].
    eapply identity_kept_trans; [apply identity_kept_call_add_message|].
    apply identity_kept_upd_msg. }
  simpl. eapply identity_kept_trans; [|by apply identity_kept_same_heap].
  assert (identity_kept w (sip_update_invite call r w2)) as H3
    by (eapply identity_kept_trans; [exact H2|apply identity_kept_sip_update_invite]).
  destruct newcall; [|done].
  eapply identity_kept_trans; [exact H3|by apply identity_kept_same_heap].
Qed.

Lemma identity_kept_create_reverse packet stream format w :
  identity_kept w (create_reverse packet stream format w).
Proof.
  unfold create_reverse, alloc_stream.
  eapply identity_kept_trans; [|apply identity_kept_call_add_stream].
  by apply identity_kept_same_heap.
Qed.

Lemma identity_kept_rtp_first_packet packet stream format w :
  identity_kept w (rtp_first_packet packet stream format w).
Proof.
  unfold rtp_first_packet.
  repeat case_match; try apply identity_kept_refl;
    try (by apply identity_kept_same_heap);
    (eapply identity_kept_trans; [|apply identity_kept_create_reverse]);
    by apply identity_kept_same_heap.
Qed.

Lemma identity_kept_storage_check_rtp_packet packet w :
  identity_kept w (storage_check_rtp_packet packet w).2.
Proof.
  unfold storage_check_rtp_packet, rtp_block.
  destruct (proto_RTP _) as [rtp|]; [|apply identity_kept_refl].
  destruct (stream_find_by_format _ _ _ _) as [stream|]; [|apply identity_kept_refl].
  assert (identity_kept w
            (rtp_resolve_format packet stream (encoding_id rtp mod 256) w).2) as Hr.
  { unfold rtp_resolve_format, alloc_stream. case_match; [|apply identity_kept_refl].
    simpl. eapply identity_kept_trans; [|apply identity_kept_call_add_stream].
    by apply identity_kept_same_heap. }
  destruct (rtp_resolve_format _ _ _ _) as [sp w1]. simpl in *.
  repeat (eapply identity_kept_trans; [|by apply identity_kept_same_heap]).
  eapply identity_kept_trans; [exact Hr|apply identity_kept_rtp_first_packet].
Qed.

(** ** The list and the Call-ID index *)

Lemma identity_kept_live w w' p c :
  identity_kept w w' ->
  call_heap w !! p = Some c ->
  exists c', call_heap w' !! p = Some c' /\ call_identity c' = call_identity c.
Proof.
  intros Hk Hp. specialize (Hk p). rewrite Hp in Hk.
  destruct (call_heap w' !! p) as [c'|]; simpl in Hk; [|done].
  exists c'. split; [done|]. congruence.
Qed.

Lemma call_identity_callid c c' :
  call_identity c' = call_identity c -> callid c' = callid c.
Proof. unfold call_identity. by intros [= -> _ _ _]. Qed.

(** Consistency only looks at the list, the index and the identity of
    the calls. *)
Lemma index_consistent_transport w w' :
  identity_kept w w' ->
  calls_list (calls w') = calls_list (calls w) ->
  calls_callids (calls w') = calls_callids (calls w) ->
  index_consistent w -> index_consistent w'.
Proof.
  intros Hk Hl Hh (Hnd & Hin & Hidx). unfold index_consistent.
  rewrite Hl, Hh. split; [done|]. split.
  - intros p Hp. destruct (Hin p Hp) as (c & Hc & Hcid).
    destruct (identity_kept_live _ _ _ _ Hk Hc) as (c' & Hc' & Hid).
    exists c'. split; [done|]. by rewrite (call_identity_callid _ _ Hid).
  - intros cid p Hp. destruct (Hidx cid p Hp) as (Hpl & c & Hc & Hcid).
    split; [done|].
    destruct (identity_kept_live _ _ _ _ Hk Hc) as (c' & Hc' & Hid).
    exists c'. split; [done|]. by rewrite (call_identity_callid _ _ Hid).
Qed.

Lemma g_sequence_remove_data_NoDup l x :
  NoDup l ->
  NoDup (g_sequence_remove_data l x)
  /\ forall y, y ∈ g_sequence_remove_data l x <-> y ∈ l /\ y <> x.
Proof.
  induction 1 as [|z l Hz Hnd IH]; simpl.
  - split; [constructor|]. intros y. split; [by intros ?%elem_of_nil|].
    by intros [?%elem_of_nil _].
  - destruct IH as [IH1 IH2]. case_bool_decide as Hzx.
    + subst z. split; [done|]. intros y. rewrite elem_of_cons. split.
      * intros Hy. split; [by right|]. by intros ->.
      * intros [[->|Hy] Hne]; done.
    + split.
      * constructor; [|done]. rewrite IH2. tauto.
      * intros y. rewrite !elem_of_cons, IH2. split.
        -- intros [->|[Hy Hne]]; [split; [by left|done]|split; [by right|done]].
        -- intros [[->|Hy] Hne]; [by left|by right].
Qed.

(** [storage_calls_rotate] keeps the list and the index consistent. *)
Lemma index_consistent_storage_calls_rotate w :
  index_consistent w -> index_consistent (storage_calls_rotate w).
Proof.
  intros (Hnd & Hin & Hidx). unfold storage_calls_rotate.
  destruct (storage_calls_rotate_from_cases w (calls_list (calls w)))
    as [[_ ->]|(l1 & call & l2 & Hl & _ & _ & ->)]; [done|].
  assert (call ∈ calls_list (calls w)) as Hcall
    by (rewrite Hl; apply elem_of_app; right; by left).
  destruct (Hin call Hcall) as (cc & Hcc & Hhcc).
  destruct (g_sequence_remove_data_NoDup _ call Hnd) as [Hnd' Hmem].
  unfold index_consistent, rotated_out. simpl.
  unfold get_call. rewrite Hcc. simpl.
  split; [done|]. split.
  - intros p [Hp Hne]%Hmem. destruct (Hin p Hp) as (c & Hc & Hhc).
    exists c. split; [by rewrite lookup_delete_ne|].
    rewrite lookup_delete_ne; [done|].
    intros Heq. rewrite <- Heq, Hhcc in Hhc. by injection Hhc.
  - intros cid p [Hne Hp]%lookup_delete_Some.
    destruct (Hidx cid p Hp) as (Hpl & c & Hc & Hcid).
    assert (p <> call) as Hpc.
    { intros ->. rewrite Hcc in Hc. injection Hc as <-. done. }
    split; [by apply Hmem|]. exists c. split; [by rewrite lookup_delete_ne|done].
Qed.

Lemma index_consistent_sip_make_room w :
  index_consistent w -> index_consistent (sip_make_room w).
Proof.
  intros Hw. unfold sip_make_room. destruct (_ =? _); [|done].
  by apply index_consistent_storage_calls_rotate.
Qed.

(** Making room never adds an entry to the index. *)
Lemma sip_make_room_callids w cid :
  calls_callids (calls w) !! cid = None ->
  calls_callids (calls (sip_make_room w)) !! cid = None.
Proof.
  intros Hn. unfold sip_make_room. destruct (_ =? _); [|done].
  unfold storage_calls_rotate.
  destruct (storage_calls_rotate_from_cases w (calls_list (calls w)))
    as [[_ ->]|(l1 & call & l2 & _ & _ & _ & ->)]; [done|].
  simpl. apply lookup_delete_None. by right.
Qed.

(** A new call keeps the list and the index consistent once it is in
    both. *)
Lemma index_consistent_new_call sip_data w cmp :
  index_consistent w ->
  storage_find_by_callid w (sd_callid sip_data) = None ->
  let new := sip_new_call sip_data w in
  index_consistent
    (set_calls new.2
       (set_list (calls new.2)
          (g_sequence_insert_sorted (calls_list (calls new.2)) new.1 cmp))).
Proof.
  intros Hw Hnone. apply index_consistent_sip_make_room in Hw.
  apply sip_make_room_callids in Hnone.
  destruct Hw as (Hnd & Hin & Hidx).
  set (w1 := sip_make_room w) in *.
  pose proof (fresh_ptr_fresh (call_heap w1)) as Hfresh.
  set (p := fresh_ptr (call_heap w1)) in *.
  assert (p ∉ calls_list (calls w1)) as Hp.
  { intros Hp. destruct (Hin p Hp) as (c & Hc & _). congruence. }
  unfold index_consistent, sip_new_call. simpl. fold w1 p.
  split; [|split].
  - clear -Hnd Hp. induction (calls_list (calls w1)) as [|y l IH]; simpl.
    + apply NoDup_singleton.
    + apply NoDup_cons in Hnd as [Hy Hnd].
      apply not_elem_of_cons in Hp as [Hpy Hp].
      destruct (0 <? cmp y p).
      * constructor; [|by constructor].
        rewrite elem_of_cons. intros [?|?]; done.
      * constructor; [|by apply IH].
        rewrite g_sequence_insert_sorted_elem. intros [?|?]; done.
  - intros q [->|Hq]%g_sequence_insert_sorted_elem.
    + eexists. split; [by rewrite lookup_insert_eq|]. simpl.
      by rewrite lookup_insert_eq.
    + destruct (Hin q Hq) as (c & Hc & Hhc).
      assert (q <> p) as Hqp by (intros ->; congruence).
      exists c. split; [by rewrite lookup_insert_ne|].
      rewrite lookup_insert_ne; [done|]. intros Heq. rewrite <- Heq in Hhc. congruence.
  - intros cid q. rewrite lookup_insert.
    destruct (decide (sd_callid sip_data = cid)) as [<-|Hne].
    + intros [= <-]. split; [apply g_sequence_insert_sorted_elem; by left|].
      eexists. split; [by rewrite lookup_insert_eq|done].
    + intros Hq. destruct (Hidx cid q Hq) as (Hql & c & Hc & Hcid).
      split; [apply g_sequence_insert_sorted_elem; by right|].
      exists c. split; [|done]. rewrite lookup_insert_ne; [done|].
      intros <-. congruence.
Qed.

Lemma index_consistent_storage_check_sip_packet packet w :
  index_consistent w -> index_consistent (storage_check_sip_packet packet w).2.
Proof.
  intros Hw. rewrite storage_check_sip_packet_paths.
  destruct (proto_SIP packet) as [sip_data|]; [|done].
  cbv zeta. destruct (storage_find_by_callid _ _) as [call|] eqn:Hf.
  - destruct (sip_store_message_frame packet (sip_message sip_data) call false w)
      as (_ & Hh & _ & _ & _ & Hl & _).
    eapply index_consistent_transport; [| |exact Hh|exact Hw].
    + apply identity_kept_sip_store_message.
    + by apply Hl.
  - destruct (sip_filters_pass _ _); [|done].
    destruct (mem_ok w); [|by apply index_consistent_sip_make_room].
    destruct (sip_store_message_frame packet (sip_message sip_data)
                (sip_new_call sip_data w).1 true (sip_new_call sip_data w).2)
      as (_ & Hh & _ & _ & _ & _ & Hl).
    destruct (Hl eq_refl) as [cmp Hcmp].
    pose proof (index_consistent_new_call sip_data w cmp Hw Hf) as Hnew.
    cbn [snd]. eapply index_consistent_transport; [| | |exact Hnew].
    + eapply identity_kept_trans; [|apply identity_kept_sip_store_message].
      by apply identity_kept_same_heap.
    + exact Hcmp.
    + exact Hh.
Qed.

Lemma index_consistent_storage_check_rtp_packet packet w :
  index_consistent w -> index_consistent (storage_check_rtp_packet packet w).2.
Proof.
  intros Hw. eapply index_consistent_transport; [| | |exact Hw].
  - apply identity_kept_storage_check_rtp_packet.
  - by rewrite calls_storage_check_rtp_packet.
  - by rewrite calls_storage_check_rtp_packet.
Qed.

Lemma calls_foldr_call_destroy l w : calls (foldr call_destroy w l) = calls w.
Proof. induction l as [|p l IH]; [done|]. exact IH. Qed.

Lemma index_consistent_storage_calls_clear w :
  index_consistent (storage_calls_clear w).
Proof.
  unfold index_consistent, storage_calls_clear. simpl.
  split; [constructor|]. split.
  - by intros p ?%elem_of_nil.
  - intros cid p. by rewrite lookup_empty.
Qed.

Lemma g_sequence_copy_elem l keep x :
  x ∈ g_sequence_copy l keep <-> x ∈ l /\ keep x = true.
Proof.
  unfold g_sequence_copy. rewrite !list_elem_of_In. apply List.filter_In.
Qed.

Lemma g_sequence_copy_NoDup l keep : NoDup l -> NoDup (g_sequence_copy l keep).
Proof.
  induction 1 as [|x l Hx Hnd IH]; simpl; [constructor|].
  destruct (keep x) eqn:Hk; [|done]. constructor; [|done].
  fold (g_sequence_copy l keep). rewrite g_sequence_copy_elem. tauto.
Qed.

(** ** Sorting *)

Lemma g_sequence_insert_sorted_perm l x cmp :
  g_sequence_insert_sorted l x cmp ≡ₚ x :: l.
Proof.
  induction l as [|y l IH]; simpl; [done|].
  destruct (0 <? cmp y x); [done|]. rewrite IH. apply Permutation_swap.
Qed.

Lemma g_sequence_sort_perm cmp l acc :
  foldl (fun acc x => g_sequence_insert_sorted acc x cmp) acc l ≡ₚ acc ++ l.
Proof.
  revert acc. induction l as [|x l IH]; intros acc; simpl.
  - by rewrite app_nil_r.
  - rewrite IH, g_sequence_insert_sorted_perm. simpl. apply Permutation_middle.
Qed.

Lemma storage_set_sort_options_perm srt w :
  calls_list (calls (storage_set_sort_options srt w)) ≡ₚ calls_list (calls w).
Proof. unfold storage_set_sort_options. simpl. apply g_sequence_sort_perm. Qed.

Lemma index_consistent_storage_set_sort_options srt w :
  index_consistent w -> index_consistent (storage_set_sort_options srt w).
Proof.
  intros (Hnd & Hin & Hidx).
  pose proof (storage_set_sort_options_perm srt w) as Hperm.
  unfold index_consistent. split; [by rewrite Hperm|]. split.
  - intros p Hp. rewrite Hperm in Hp. by apply Hin.
  - intros cid p Hp. destruct (Hidx cid p Hp) as [Hpl Hc].
    split; [by rewrite Hperm|done].
Qed.

(** ** Every operation on an initialised store *)

Lemma index_consistent_apply_op o w :
  keeps_index o = true ->
  index_consistent w -> index_consistent (apply_op o w).
Proof.
  intros Hk Hw. destruct o; cbn [apply_op]; try done.
  - by apply index_consistent_storage_check_sip_packet.
  - by apply index_consistent_storage_check_rtp_packet.
  - by apply index_consistent_storage_calls_rotate.
  - apply index_consistent_storage_calls_clear.
  - by apply index_consistent_storage_set_sort_options.
Qed.

Lemma storage_init_empty capture_options match_options sort_options w w' :
  storage_init capture_options match_options sort_options w = Some w' ->
  calls_list (calls w') = [] /\ calls_active (calls w') = []
  /\ calls_callids (calls w') = ∅ /\ calls_last_index (calls w') = 0
  /\ calls_capture (calls w') = capture_options.
Proof.
  unfold storage_init. repeat case_match; try done; by intros [= <-].
Qed.

(** X1: after [storage_init], and after any sequence of SIP and RTP
    packets, polls, rotations, clears and sort changes, the list and
    the Call-ID index describe the same calls: no call is listed twice,
    [storage_find_by_callid] finds every listed call under its own
    Call-ID, and it finds nothing else.  [storage_calls_clear_soft] is
    not among the operations: it frees the keys of the table and
    inserts them again (lines 455 and 467), and nothing can be said of
    the lookups that follow. *)
Theorem storage_index_consistent (capture_options : SStorageCaptureOpts)
    (match_options : SStorageMatchOpts) (sort_options : SStorageSortOpts)
    (w0 w : World) (os : list store_op) :
  storage_init capture_options match_options sort_options w0 = Some w ->
  Forall (fun o => keeps_index o = true) os ->
  let w' := apply_ops os w in
  NoDup (storage_calls_vector w')
  /\ (forall p, p ∈ storage_calls_vector w' ->
        exists c, call_heap w' !! p = Some c
                  /\ storage_find_by_callid w' (callid c) = Some p)
  /\ (forall cid p, storage_find_by_callid w' cid = Some p ->
        p ∈ storage_calls_vector w'
        /\ exists c, call_heap w' !! p = Some c /\ callid c = cid).
Proof.
  intros Hinit Hos w'.
  assert (index_consistent w) as Hw.
  { destruct (storage_init_empty _ _ _ _ _ Hinit) as (Hl & _ & Hh & _).
    unfold index_consistent. rewrite Hl, Hh. split; [constructor|]. split.
    - by intros p ?%elem_of_nil.
    - intros cid p. by rewrite lookup_empty. }
  unfold w', apply_ops. clear Hinit w'. revert w Hw.
  induction Hos as [|o os Ho Hos IH]; intros w Hw; [exact Hw|].
  simpl. apply IH. by apply index_consistent_apply_op.
Qed.

(** ** A frame rule for the calls

    Whatever relation between the old and the new value of a call is
    kept by the three updates that follow the arrival of a message
    (a stream joins the call, the state machine runs, the message at
    [r0] gets its medias or its retransmission mark) is kept by the
    functions made of them. *)
Section CallFrame.

Variable R : ptr -> SipCall -> SipCall -> Prop.
Variable r0 : MsgRef.

Hypothesis R_refl : forall p c, R p c c.
Hypothesis R_trans : forall p c1 c2 c3, R p c1 c2 -> R p c2 c3 -> R p c1 c3.
Hypothesis R_stream : forall p c sp, R p c (set_streams c (streams c ++ [sp])).
Hypothesis R_state : forall p c m, R p c (call_update_state c m).
Hypothesis R_msg :
  forall c f, (forall m, msg_header (f m) = msg_header m) ->
    R (ref_call r0) c (set_msgs c (alter f (ref_pos r0) (msgs c))).

Lemma calls_related_refl w : calls_related R w w.
Proof. intros p. apply R_refl. Qed.

Lemma calls_related_trans w1 w2 w3 :
  calls_related R w1 w2 -> calls_related R w2 w3 -> calls_related R w1 w3.
Proof. intros H12 H23 p. eapply R_trans; [apply H12|apply H23]. Qed.

Lemma calls_related_upd_call p f w :
  (forall c, R p c (f c)) -> calls_related R w (upd_call p f w).
Proof.
  intros Hf q. unfold get_call, upd_call. simpl. rewrite lookup_alter.
  destruct (decide (p = q)) as [->|]; [|apply R_refl].
  destruct (call_heap w !! q); simpl; [apply Hf|apply R_refl].
Qed.

Lemma calls_related_same_heap w w' :
  call_heap w' = call_heap w -> calls_related R w w'.
Proof. intros Hh p. unfold get_call. rewrite Hh. apply R_refl. Qed.

Lemma calls_related_call_add_stream c sp w :
  calls_related R w (call_add_stream c sp w).
Proof.
  destruct c; [|apply calls_related_refl].
  apply calls_related_upd_call. intros c. apply R_stream.
Qed.

Lemma calls_related_upd_msg f w :
  (forall m, msg_header (f m) = msg_header m) ->
  calls_related R w (upd_msg r0 f w).
Proof. intros Hf. apply calls_related_upd_call. intros c. by apply R_msg. Qed.

Lemma calls_related_call_msg_retrans_check w :
  calls_related R w (call_msg_retrans_check r0 w).
Proof. by apply calls_related_upd_msg. Qed.

Lemma calls_related_register_media packet pk m w :
  calls_related R w (register_media r0 packet pk m w).
Proof.
  unfold register_media, alloc_stream.
  assert (calls_related R w
            (upd_msg r0 (fun x => set_msg_medias x (msg_medias x ++ [m])) w)) as H0
    by (by apply calls_related_upd_msg).
  repeat (case_match; simpl);
    repeat first
      [ exact H0
      | eapply calls_related_trans; [|apply calls_related_call_add_stream]
      | eapply calls_related_trans; [|by apply calls_related_same_heap] ].
Qed.

Lemma calls_related_storage_register_streams w :
  calls_related R w (storage_register_streams r0 w).
Proof.
  unfold storage_register_streams.
  destruct (msg_packet _) as [pk|]; [|apply calls_related_refl].
  destruct (proto_SDP _) as [sdp|]; [|apply calls_related_refl].
  generalize (sdp_medias sdp); intros l; revert w.
  induction l as [|m l IH]; intros w; [apply calls_related_refl|].
  simpl. eapply calls_related_trans; [|apply IH].
  apply calls_related_register_media.
Qed.

Lemma calls_related_sip_update_invite call w :
  calls_related R w (sip_update_invite call r0 w).
Proof.
  unfold sip_update_invite.
  destruct (call_is_invite _); [|apply calls_related_refl].
  set (w1 := upd_call _ _ _).
  assert (calls_related R w w1) as H1.
  { eapply calls_related_trans; [apply calls_related_storage_register_streams|].
    apply calls_related_upd_call. intros c. apply R_state. }
  destruct (call_is_active _), (storage_call_is_active _ _); try done;
    (eapply calls_related_trans; [exact H1|by apply calls_related_same_heap]).
Qed.

Lemma calls_related_create_reverse packet stream format w :
  calls_related R w (create_reverse packet stream format w).
Proof.
  unfold create_reverse, alloc_stream.
  eapply calls_related_trans; [|apply calls_related_call_add_stream].
  by apply calls_related_same_heap.
Qed.

Lemma calls_related_rtp_first_packet packet stream format w :
  calls_related R w (rtp_first_packet packet stream format w).
Proof.
  unfold rtp_first_packet.
  repeat case_match; try apply calls_related_refl;
    try (by apply calls_related_same_heap);
    (eapply calls_related_trans; [|apply calls_related_create_reverse]);
    by apply calls_related_same_heap.
Qed.

Lemma calls_related_storage_check_rtp_packet packet w :
  calls_related R w (storage_check_rtp_packet packet w).2.
Proof.
  unfold storage_check_rtp_packet, rtp_block.
  destruct (proto_RTP _) as [rtp|]; [|apply calls_related_refl].
  destruct (stream_find_by_format _ _ _ _) as [stream|]; [|apply calls_related_refl].
  assert (calls_related R w
            (rtp_resolve_format packet stream (encoding_id rtp mod 256) w).2) as Hr.
  { unfold rtp_resolve_format, alloc_stream. case_match; [|apply calls_related_refl].
    simpl. eapply calls_related_trans; [|apply calls_related_call_add_stream].
    by apply calls_related_same_heap. }
  destruct (rtp_resolve_format _ _ _ _) as [sp w1]. simpl in *.
  repeat (eapply calls_related_trans; [|by apply calls_related_same_heap]).
  eapply calls_related_trans; [exact Hr|apply calls_related_rtp_first_packet].
Qed.

End CallFrame.

(** ** Messages in arrival order *)

Lemma msgs_call_update_state c m : msgs (call_update_state c m) = msgs c.
Proof.
  unfold call_update_state. destruct (state c); try done;
    repeat (case_match; try done).
Qed.

Lemma msgs_settled_refl r0 p c : msgs_settled r0 p c c.
Proof. split; [done|]. intros i m Hm. by exists m. Qed.

Lemma msgs_settled_trans r0 p c1 c2 c3 :
  msgs_settled r0 p c1 c2 -> msgs_settled r0 p c2 c3 -> msgs_settled r0 p c1 c3.
Proof.
  intros [Hl12 H12] [Hl23 H23]. split; [congruence|].
  intros i m Hm. destruct (H12 i m Hm) as (m2 & Hm2 & Hh2 & He2).
  destruct (H23 i m2 Hm2) as (m3 & Hm3 & Hh3 & He3).
  exists m3. split; [done|]. split; [congruence|].
  intros Hne. rewrite (He3 Hne). by apply He2.
Qed.

Lemma msgs_settled_same_msgs r0 p c c' :
  msgs c' = msgs c -> msgs_settled r0 p c c'.
Proof. intros Hm. unfold msgs_settled. rewrite Hm. apply msgs_settled_refl. Qed.

Lemma msgs_settled_alter r0 c f :
  (forall m, msg_header (f m) = msg_header m) ->
  msgs_settled r0 (ref_call r0) c (set_msgs c (alter f (ref_pos r0) (msgs c))).
Proof.
  intros Hf. split; [simpl; apply length_alter|].
  intros i m Hm. simpl. destruct (decide (i = ref_pos r0)) as [->|Hne].
  - exists (f m). rewrite list_lookup_alter_eq, Hm. by repeat split.
  - exists m. rewrite list_lookup_alter_ne by done. repeat split; done.
Qed.

(** After lines 188-206 the messages of every call are settled. *)
Lemma msgs_settled_after_message call r0 w :
  calls_related (msgs_settled r0) w
    (sip_update_invite call r0 (call_msg_retrans_check r0 w)).
Proof.
  eapply (calls_related_trans _ (msgs_settled_trans r0)).
  - apply (calls_related_call_msg_retrans_check _ r0 (msgs_settled_refl r0)).
    intros c f Hf. by apply msgs_settled_alter.
  - apply (calls_related_sip_update_invite _ r0 (msgs_settled_refl r0)
             (msgs_settled_trans r0)).
    + intros p c sp. by apply msgs_settled_same_msgs.
    + intros p c m. apply msgs_settled_same_msgs. apply msgs_call_update_state.
    + intros c f Hf. by apply msgs_settled_alter.
Qed.

Lemma msgs_call_add_xcall parent child w q :
  msgs (get_call (call_add_xcall parent child w) q) = msgs (get_call w q).
Proof.
  destruct parent as [pp|]; [|done]. simpl.
  apply (calls_related_upd_call (fun _ c c' => msgs c' = msgs c)); done.
Qed.

Lemma call_heap_call_add_xcall_live parent child w q c :
  call_heap w !! q = Some c ->
  is_Some (call_heap (call_add_xcall parent child w) !! q).
Proof.
  intros Hq. destruct parent as [pp|]; [|by eexists]. simpl.
  rewrite lookup_alter. destruct (decide (pp = q)) as [->|]; rewrite Hq; by eexists.
Qed.

Lemma settled_snoc (l l' : list SipMsg) x q r0 :
  length l' = S (length l) ->
  (forall i m, (l ++ [x]) !! i = Some m ->
     exists m', l' !! i = Some m' /\ msg_header m' = msg_header m
                /\ ((q, i) <> (ref_call r0, ref_pos r0) -> m' = m)) ->
  ref_pos r0 = length l ->
  exists m', l' = l ++ [m'] /\ msg_header m' = msg_header x.
Proof.
  intros Hlen Hall Hpos.
  destruct (Hall (length l) x) as (m' & Hm' & Hh & _).
  { rewrite lookup_app_r by lia. by rewrite Nat.sub_diag. }
  exists m'. split; [|done].
  apply list_eq. intros i.
  destruct (decide (i < length l)%nat) as [Hlt|Hge].
  - rewrite lookup_app_l by done.
    destruct (lookup_lt_is_Some_2 l i Hlt) as [m Hm].
    destruct (Hall i m) as (m2 & Hm2 & _ & He); [by rewrite lookup_app_l|].
    rewrite Hm2, Hm. f_equal. apply He. intros [= _ Hi]. lia.
  - destruct (decide (i = length l)) as [->|Hne].
    + rewrite Hm'. rewrite lookup_app_r by lia. by rewrite Nat.sub_diag.
    + rewrite !lookup_ge_None_2; [done| |lia].
      rewrite length_app. simpl. lia.
Qed.

(** Lines 174-217 on a live call: the message joins the messages of
    its call at the end, with the fields it arrived with; every message
    stored before, in this and in any other call, is what it was. *)
Lemma sip_store_message_msgs packet m call newcall w c :
  call_heap w !! call = Some c ->
  let r := (sip_store_message packet m call newcall w).1 in
  let w' := (sip_store_message packet m call newcall w).2 in
  ref_pos r = length (msgs c)
  /\ (exists m', msgs (get_call w' call) = msgs c ++ [m']
        /\ msg_header m'
           = msg_header (set_msg_call
                           (set_msg_packet m (Some (packet_to_oldpkt packet)))
                           (Some call)))
  /\ forall q, q <> call -> msgs (get_call w' q) = msgs (get_call w q).
Proof.
  intros Hc. unfold sip_store_message.
  set (w1 := if call_msg_count _ =? 0 then _ else w).
  assert (forall q, msgs (get_call w1 q) = msgs (get_call w q)) as H1.
  { intros q. unfold w1. destruct (_ =? 0); [|done]. destruct (negb _); [|done].
    apply msgs_call_add_xcall. }
  assert (is_Some (call_heap w1 !! call)) as [c1 Hc1].
  { unfold w1. destruct (_ =? 0); [|by eexists]. destruct (negb _); [|by eexists].
    by eapply call_heap_call_add_xcall_live. }
  assert (msgs c1 = msgs c) as Hm1.
  { specialize (H1 call). unfold get_call in H1. by rewrite Hc1, Hc in H1. }
  assert (get_call w1 call = c1) as Hg1 by (unfold get_call; by rewrite Hc1).
  rewrite Hg1, Hm1.
  set (r := mkMsgRef call (length (msgs c))).
  set (mm := set_msg_call (set_msg_packet m (Some (packet_to_oldpkt packet)))
               (Some call)).
  set (w2 := call_add_message call _ w1).
  assert (msgs (get_call w2 call) = msgs c ++ [mm]) as H2.
  { unfold w2, call_add_message, get_call, upd_call. simpl.
    rewrite lookup_alter_eq, Hc1. simpl.
    by rewrite msgs_call_update_state, <- Hm1. }
  assert (forall q, q <> call -> msgs (get_call w2 q) = msgs (get_call w q)) as H2o.
  { intros q Hq. rewrite <- H1. unfold w2, call_add_message, get_call, upd_call.
    simpl. by rewrite lookup_alter_ne. }
  pose proof (msgs_settled_after_message call r w2) as Hset.
  set (w3 := sip_update_invite call r (call_msg_retrans_check r w2)) in *.
  assert (forall q, msgs (get_call
             (set_calls
                (if newcall
                 then set_calls w3
                        (set_list (calls w3)
                           (g_sequence_insert_sorted (calls_list (calls w3)) call
                              (storage_sorter w3)))
                 else w3)
                (set_changed
                   (calls (if newcall
                           then set_calls w3
                                  (set_list (calls w3)
                                     (g_sequence_insert_sorted
                                        (calls_list (calls w3)) call
                                        (storage_sorter w3)))
                           else w3)) true)) q)
          = msgs (get_call w3 q)) as Hfin by (intros q; by destruct newcall).
  simpl. split; [done|]. split.
  - rewrite Hfin. destruct (Hset call) as [Hlen Hall]. rewrite H2 in Hlen, Hall.
    apply (settled_snoc _ _ mm call r); [|exact Hall|done].
    rewrite Hlen, length_app. simpl. lia.
  - intros q Hq. rewrite Hfin, <- (H2o q Hq).
    destruct (Hset q) as [Hlen Hall].
    apply list_eq. intros i.
    destruct (msgs (get_call w2 q) !! i) as [x|] eqn:Hx.
    + destruct (Hall i x Hx) as (m' & Hm' & _ & He).
      rewrite Hm'. f_equal. apply He. intros [= Hqc _]. done.
    + apply lookup_ge_None in Hx. apply lookup_ge_None. lia.
Qed.

(** A call that is still listed after room was made was listed before
    and has not been touched. *)
Lemma sip_make_room_listed w q :
  index_consistent w ->
  q ∈ calls_list (calls (sip_make_room w)) ->
  q ∈ calls_list (calls w)
  /\ call_heap (sip_make_room w) !! q = call_heap w !! q.
Proof.
  intros (Hnd & _ & _). unfold sip_make_room. destruct (_ =? _); [|done].
  unfold storage_calls_rotate.
  destruct (storage_calls_rotate_from_cases w (calls_list (calls w)))
    as [[_ ->]|(l1 & call & l2 & _ & _ & _ & ->)]; [done|].
  simpl. destruct (g_sequence_remove_data_NoDup _ call Hnd) as [_ Hmem].
  intros [Hq Hne]%Hmem. split; [done|]. by rewrite lookup_delete_ne.
Qed.

(** X2: the messages of a call are kept in arrival order.  In a
    consistent store, a SIP packet that is stored adds exactly one
    message, at the end of the messages of its call (the call found
    under its Call-ID, or the new call), with the fields and the frame
    of the packet; the messages stored before, in this call and in
    every other listed call, are left as they were. *)
Theorem storage_check_sip_packet_appends (packet : Packet)
    (sip_data : PacketSipData) (w w' : World) (r : MsgRef) :
  index_consistent w ->
  proto_SIP packet = Some sip_data ->
  storage_check_sip_packet packet w = (Some r, w') ->
  let before :=
    match storage_find_by_callid w (sd_callid sip_data) with
    | Some call => msgs (get_call w call)
    | None => []
    end in
  ref_pos r = length before
  /\ (exists m',
        msgs (get_call w' (ref_call r)) = before ++ [m']
        /\ cseq m' = sd_cseq sip_data /\ sip_from m' = sd_from sip_data
        /\ sip_to m' = sd_to sip_data /\ reqresp m' = sd_reqresp sip_data
        /\ resp_str m' = sd_resp_str sip_data
        /\ msg_packet m' = Some (packet_to_oldpkt packet)
        /\ msg_call m' = Some (ref_call r))
  /\ forall q, q ∈ calls_list (calls w') -> q <> ref_call r ->
       msgs (get_call w' q) = msgs (get_call w q).
Proof.
  intros Hw Hs. rewrite storage_check_sip_packet_paths, Hs. cbv zeta.
  destruct (storage_find_by_callid w (sd_callid sip_data)) as [call|] eqn:Hf.
  - intros Heq.
    assert (r = (sip_store_message packet (sip_message sip_data) call false w).1
            /\ w' = (sip_store_message packet (sip_message sip_data) call false w).2)
      as [-> ->] by (split; congruence). clear Heq.
    destruct Hw as (_ & _ & Hidx). destruct (Hidx _ _ Hf) as (_ & c & Hc & _).
    destruct (sip_store_message_frame packet (sip_message sip_data) call false w)
      as (Hr & _).
    destruct (sip_store_message_msgs packet (sip_message sip_data) call false w c Hc)
      as (Hpos & (m' & Hm' & Hh) & Hother).
    assert (get_call w call = c) as Hg by (unfold get_call; by rewrite Hc).
    rewrite Hr, Hg. split; [done|]. split.
    + exists m'. split; [done|]. unfold msg_header in Hh. simpl in Hh.
      injection Hh as -> -> -> -> -> -> ->. by repeat split.
    + intros q _ Hq. by apply Hother.
  - destruct (sip_filters_pass _ _); [|done]. destruct (mem_ok w); [|done].
    intros Heq.
    set (new := sip_new_call sip_data w) in *.
    assert (r = (sip_store_message packet (sip_message sip_data) new.1 true new.2).1
            /\ w' = (sip_store_message packet (sip_message sip_data) new.1 true
                       new.2).2)
      as [-> ->] by (split; congruence). clear Heq.
    assert (call_heap new.2 !! new.1
            = Some (mkCall (sd_callid sip_data) (sd_xcallid sip_data)
                      (calls_last_index (calls (sip_make_room w)) + 1)
                      CALL_STATE_NONE false [] [] [])) as Hc
      by (unfold new, sip_new_call; simpl; by rewrite lookup_insert_eq).
    destruct (sip_store_message_frame packet (sip_message sip_data) new.1 true new.2)
      as (Hr & _ & _ & _ & _ & _ & Hl).
    destruct (Hl eq_refl) as [cmp Hcmp].
    destruct (sip_store_message_msgs packet (sip_message sip_data) new.1 true new.2
                _ Hc) as (Hpos & (m' & Hm' & Hh) & Hother).
    rewrite Hr. split; [done|]. split.
    + exists m'. split; [done|]. unfold msg_header in Hh. simpl in Hh.
      injection Hh as -> -> -> -> -> -> ->. by repeat split.
    + intros q Hq Hne. rewrite (Hother q Hne).
      rewrite Hcmp in Hq. apply g_sequence_insert_sorted_elem in Hq as [->|Hq]; [done|].
      destruct (sip_make_room_listed w q Hw Hq) as [_ Hsame].
      unfold get_call, new, sip_new_call. simpl.
      rewrite lookup_insert_ne by (intros Heq; apply Hne; by rewrite <- Heq).
      by rewrite Hsame.
Qed.

(** ** Initialisation and admission *)

(** X3: [storage_init] fails exactly when a match expression is given
    and does not compile.  When it succeeds the store is empty (no call
    listed, none active, every lookup by Call-ID misses, the index
    counter at 0), holds the capture options and the match options it
    was given, every field of them, with the compiled expression in
    place of [mregex] when there is an expression, and sorts by the
    configured field or, when that is unknown, by call index ascending:
    the sort options passed in are not used.  The changed flag and the
    heaps are left alone. *)
Theorem storage_init_result (capture_options : SStorageCaptureOpts)
    (match_options : SStorageMatchOpts) (sort_options : SStorageSortOpts)
    (w : World) :
  (storage_init capture_options match_options sort_options w = None
   <-> exists e, mexpr match_options = Some e
                 /\ g_regex_new e (micase match_options) = None)
  /\ (forall w',
        storage_init capture_options match_options sort_options w = Some w' ->
        storage_calls_count w' = 0
        /\ storage_active_calls_vector w' = []
        /\ (forall cid, storage_find_by_callid w' cid = None)
        /\ calls_last_index (calls w') = 0
        /\ storage_capture_options w' = capture_options
        /\ storage_match_expr w' = mexpr match_options
        /\ (forall e, mexpr match_options = Some e ->
              mregex (calls_match (calls w')) = g_regex_new e (micase match_options))
        /\ storage_sort_options w'
           = match setting_sortfield with
             | Some a => mkSortOpts a setting_sortorder_asc
             | None => mkSortOpts SIP_ATTR_CALLINDEX true
             end
        /\ call_heap w' = call_heap w /\ stream_heap w' = stream_heap w
        /\ calls_match (calls w')
           = mkMatchOpts (mexpr match_options) (micase match_options)
               (minvert match_options)
               (match mexpr match_options with
                | Some e => g_regex_new e (micase match_options)
                | None => mregex match_options
                end)
               (invite match_options) (mcomplete match_options)
        /\ calls_changed (calls w') = calls_changed (calls w)
        /\ mem_ok w' = mem_ok w)
  /\ (forall other,
        storage_init capture_options match_options other w
        = storage_init capture_options match_options sort_options w).
Proof.
  split; [|split].
  - unfold storage_init. destruct (mexpr match_options) as [e|].
    + destruct (g_regex_new e (micase match_options)) eqn:Hrx.
      * split; [done|]. intros (e' & [= <-] & He). congruence.
      * split; [|done]. intros _. by exists e.
    + split; [done|]. by intros (e & He & _).
  - intros w'. unfold storage_init.
    destruct (mexpr match_options) as [e|] eqn:He.
    + destruct (g_regex_new e (micase match_options)) eqn:Hrx; [|done].
      intros [= <-]. split_and!; try done;
        try (intros cid; apply lookup_empty).
      intros e' [= <-]. by rewrite Hrx.
    + intros [= <-]. split_and!; try done;
        try (intros cid; apply lookup_empty).
  - intros other. reflexivity.
Qed.

(** X4: the first message of an unknown Call-ID is stored exactly when
    it passes the three filters of lines 143-154 and [call_create]
    succeeds.  It is refused when the payload fails the match
    expression, when only INVITE may start a dialog and it is not an
    INVITE, or when only complete dialogs are wanted and its method or
    code is greater than MESSAGE; a refused message leaves the store
    exactly as it was. *)
Theorem storage_check_sip_packet_first_message (packet : Packet)
    (sip_data : PacketSipData) (w : World) :
  proto_SIP packet = Some sip_data ->
  storage_find_by_callid w (sd_callid sip_data) = None ->
  let refused :=
    storage_check_match_expr w (sd_payload sip_data) = 0
    \/ (invite (calls_match (calls w)) = true
        /\ sd_reqresp sip_data <> SIP_METHOD_INVITE)
    \/ (mcomplete (calls_match (calls w)) = true
        /\ SIP_METHOD_MESSAGE < sd_reqresp sip_data) in
  (refused -> storage_check_sip_packet packet w = (None, w))
  /\ (~ refused -> mem_ok w = true ->
      exists r,
        (storage_check_sip_packet packet w).1 = Some r
        /\ ref_pos r = 0%nat
        /\ storage_find_by_callid (storage_check_sip_packet packet w).2
             (sd_callid sip_data) = Some (ref_call r)
        /\ ref_call r ∈ storage_calls_vector (storage_check_sip_packet packet w).2)
  /\ ((storage_check_sip_packet packet w).1 = None <-> refused \/ mem_ok w = false).
Proof.
  intros Hs Hf refused.
  assert (sip_filters_pass w sip_data = false <-> refused) as Hiff.
  { unfold sip_filters_pass, refused.
    destruct (Z.eqb_spec (storage_check_match_expr w (sd_payload sip_data)) 0);
      destruct (invite (calls_match (calls w)));
      destruct (Z.eqb_spec (sd_reqresp sip_data) SIP_METHOD_INVITE);
      destruct (mcomplete (calls_match (calls w)));
      destruct (Z.ltb_spec SIP_METHOD_MESSAGE (sd_reqresp sip_data));
      simpl; split; try done; try tauto; try (intros _; tauto);
      intros [?|[[? ?]|[? ?]]]; first [done|lia]. }
  split; [|split].
  - intros Href. apply (storage_check_sip_packet_filtered _ sip_data); try done.
    by apply Hiff.
  - intros Hnot Hmem.
    assert (sip_filters_pass w sip_data = true) as Hp.
    { destruct (sip_filters_pass w sip_data); [done|].
      exfalso. apply Hnot. by apply Hiff. }
    destruct (storage_check_sip_packet_admitted packet sip_data w Hs Hf Hp Hmem)
      as (r & Hr & Hfind & Hin).
    exists r. repeat split; try done.
    set (new := sip_new_call sip_data w).
    assert ((storage_check_sip_packet packet w).1
            = Some (sip_store_message packet (sip_message sip_data) new.1 true
                      new.2).1) as Hr'.
    { rewrite storage_check_sip_packet_paths, Hs. cbv zeta.
      by rewrite Hf, Hp, Hmem. }
    assert (call_heap new.2 !! new.1
            = Some (mkCall (sd_callid sip_data) (sd_xcallid sip_data)
                      (calls_last_index (calls (sip_make_room w)) + 1)
                      CALL_STATE_NONE false [] [] [])) as Hc
      by (unfold new, sip_new_call; simpl; by rewrite lookup_insert_eq).
    destruct (sip_store_message_msgs packet (sip_message sip_data) new.1 true new.2
                _ Hc) as (Hpos & _).
    rewrite Hr in Hr'. injection Hr' as ->. exact Hpos.
  - rewrite storage_check_sip_packet_paths, Hs. cbv zeta. rewrite Hf.
    destruct (sip_filters_pass w sip_data) eqn:Hp.
    + destruct (mem_ok w); simpl.
      * split; [done|]. intros [Href|?]; [|done]. apply Hiff in Href. congruence.
      * split; [by right|done].
    + split; [|done]. intros _. left. by apply Hiff.
Qed.

(** ** Call indexes *)

Lemma call_identity_index c c' :
  call_identity c' = call_identity c -> index c' = index c.
Proof. unfold call_identity. by intros [= _ _ -> _]. Qed.

(** A store whose listed calls were all listed before, with the same
    identity, and whose counter has not gone down, keeps the indexes
    consistent. *)
Lemma indexes_consistent_sub w w' :
  (forall p, p ∈ calls_list (calls w') ->
     p ∈ calls_list (calls w)
     /\ call_identity <$> call_heap w' !! p = call_identity <$> call_heap w !! p) ->
  calls_last_index (calls w) <= calls_last_index (calls w') ->
  indexes_consistent w -> indexes_consistent w'.
Proof.
  intros Hsub Hle [H0 Hidx]. split; [lia|].
  assert (forall p c', p ∈ calls_list (calls w') -> call_heap w' !! p = Some c' ->
            exists c, p ∈ calls_list (calls w) /\ call_heap w !! p = Some c
                      /\ index c = index c') as Hback.
  { intros p c' Hp Hc'. destruct (Hsub p Hp) as [Hpl Hid]. rewrite Hc' in Hid.
    destruct (call_heap w !! p) as [c|]; simpl in Hid; [|done].
    exists c. repeat split; try done. apply call_identity_index. congruence. }
  intros p c' Hp Hc'. destruct (Hback p c' Hp Hc') as (c & Hpl & Hc & Hi).
  destruct (Hidx p c Hpl Hc) as [Hrange Huniq]. split; [lia|].
  intros q cq' Hq Hcq' Heq. destruct (Hback q cq' Hq Hcq') as (cq & Hql & Hcq & Hiq).
  apply (Huniq q cq Hql Hcq). congruence.
Qed.

Lemma storage_calls_rotate_listed w q :
  index_consistent w ->
  q ∈ calls_list (calls (storage_calls_rotate w)) ->
  q ∈ calls_list (calls w)
  /\ call_heap (storage_calls_rotate w) !! q = call_heap w !! q.
Proof.
  intros (Hnd & _ & _). unfold storage_calls_rotate.
  destruct (storage_calls_rotate_from_cases w (calls_list (calls w)))
    as [[_ ->]|(l1 & call & l2 & _ & _ & _ & ->)]; [done|].
  simpl. destruct (g_sequence_remove_data_NoDup _ call Hnd) as [_ Hmem].
  intros [Hq Hne]%Hmem. split; [done|]. by rewrite lookup_delete_ne.
Qed.

Lemma indexes_consistent_storage_calls_rotate w :
  index_consistent w -> indexes_consistent w ->
  indexes_consistent (storage_calls_rotate w).
Proof.
  intros Hw. apply indexes_consistent_sub.
  - intros p Hp. destruct (storage_calls_rotate_listed w p Hw Hp) as [Hpl Hh].
    split; [done|]. by rewrite Hh.
  - destruct (storage_calls_rotate_frame w) as (_ & _ & _ & _ & -> & _). lia.
Qed.

Lemma calls_last_index_sip_make_room w :
  calls_last_index (calls (sip_make_room w)) = calls_last_index (calls w).
Proof.
  unfold sip_make_room. destruct (_ =? _); [|done].
  by destruct (storage_calls_rotate_frame w) as (_ & _ & _ & _ & -> & _).
Qed.

Lemma indexes_consistent_sip_make_room w :
  index_consistent w -> indexes_consistent w ->
  indexes_consistent (sip_make_room w).
Proof.
  intros Hw Hi. unfold sip_make_room. destruct (_ =? _); [|done].
  by apply indexes_consistent_storage_calls_rotate.
Qed.

Lemma calls_last_index_sip_store_message packet m call newcall w :
  calls_last_index (calls (sip_store_message packet m call newcall w).2)
  = calls_last_index (calls w).
Proof.
  unfold sip_store_message.
  set (w1 := if call_msg_count _ =? 0 then _ else w).
  assert (calls w1 = calls w) as H1.
  { unfold w1. destruct (_ =? 0); [|done]. destruct (negb _); [|done].
    apply calls_call_add_xcall. }
  set (r := mkMsgRef call _).
  set (w2 := call_msg_retrans_check r _).
  assert (calls w2 = calls w) as H2 by (by rewrite <- H1).
  assert (calls_last_index (calls (sip_update_invite call r w2))
          = calls_last_index (calls w)) as H3.
  { rewrite <- H2. unfold sip_update_invite.
    destruct (call_is_invite _); [|done].
    set (w3 := upd_call _ _ _).
    assert (calls w3 = calls w2) as Hc
      by (unfold w3; rewrite calls_upd_call; apply calls_storage_register_streams).
    destruct (call_is_active _), (storage_call_is_active _ _); simpl;
      rewrite ?Hc, ?calls_storage_register_streams; done. }
  by destruct newcall.
Qed.

(** The store after a new call has been stored with its first
    message. *)
Lemma indexes_consistent_new_call sip_data w cmp :
  index_consistent w -> indexes_consistent w ->
  let new := sip_new_call sip_data w in
  indexes_consistent
    (set_calls new.2
       (set_list (calls new.2)
          (g_sequence_insert_sorted (calls_list (calls new.2)) new.1 cmp))).
Proof.
  intros Hw Hi.
  pose proof (indexes_consistent_sip_make_room w Hw Hi) as [H0 Hidx].
  apply index_consistent_sip_make_room in Hw. destruct Hw as (_ & Hin & _).
  set (w1 := sip_make_room w) in *.
  pose proof (fresh_ptr_fresh (call_heap w1)) as Hfresh.
  unfold indexes_consistent, sip_new_call. simpl. fold w1.
  set (p := fresh_ptr (call_heap w1)) in *.
  split; [lia|].
  assert (forall q c, q ∈ calls_list (calls w1) ->
            <[p:=mkCall (sd_callid sip_data) (sd_xcallid sip_data)
                   (calls_last_index (calls w1) + 1) CALL_STATE_NONE false [] [] []]>
              (call_heap w1) !! q = Some c ->
            call_heap w1 !! q = Some c /\ 1 <= index c <= calls_last_index (calls w1))
    as Hold.
  { intros q c Hq Hc. destruct (Hin q Hq) as (cq & Hcq & _).
    rewrite lookup_insert_ne in Hc by (intros <-; congruence).
    split; [done|]. by destruct (Hidx q c Hq Hc). }
  intros q c [->|Hq]%g_sequence_insert_sorted_elem Hc.
  - rewrite lookup_insert_eq in Hc. injection Hc as <-. simpl. split; [lia|].
    intros q' c' [->|Hq']%g_sequence_insert_sorted_elem Hc' Heq; [done|].
    destruct (Hold q' c' Hq' Hc') as [_ Hr]. lia.
  - destruct (Hold q c Hq Hc) as [Hc1 Hr]. split; [lia|].
    intros q' c' [->|Hq']%g_sequence_insert_sorted_elem Hc' Heq.
    + rewrite lookup_insert_eq in Hc'. injection Hc' as <-. simpl in Heq. lia.
    + destruct (Hold q' c' Hq' Hc') as [Hc1' _].
      destruct (Hidx q c Hq Hc1) as [_ Huniq]. by apply (Huniq q' c').
Qed.

Lemma indexes_consistent_storage_check_sip_packet packet w :
  index_consistent w -> indexes_consistent w ->
  indexes_consistent (storage_check_sip_packet packet w).2.
Proof.
  intros Hw Hi. rewrite storage_check_sip_packet_paths.
  destruct (proto_SIP packet) as [sip_data|]; [|done].
  cbv zeta. destruct (storage_find_by_callid _ _) as [call|] eqn:Hf.
  - destruct (sip_store_message_frame packet (sip_message sip_data) call false w)
      as (_ & _ & _ & _ & _ & Hl & _).
    eapply indexes_consistent_sub; [| |exact Hi].
    + intros p Hp. cbn [snd] in *. rewrite (Hl eq_refl) in Hp. split; [done|].
      apply identity_kept_sip_store_message.
    + cbn [snd]. rewrite calls_last_index_sip_store_message. lia.
  - destruct (sip_filters_pass _ _); [|done].
    destruct (mem_ok w); [|by apply indexes_consistent_sip_make_room].
    destruct (sip_store_message_frame packet (sip_message sip_data)
                (sip_new_call sip_data w).1 true (sip_new_call sip_data w).2)
      as (_ & _ & _ & _ & _ & _ & Hl).
    destruct (Hl eq_refl) as [cmp Hcmp].
    pose proof (indexes_consistent_new_call sip_data w cmp Hw Hi) as Hnew.
    cbn [snd]. eapply indexes_consistent_sub; [| |exact Hnew].
    + intros p Hp. rewrite Hcmp in Hp. split; [done|].
      apply (identity_kept_trans _ (sip_new_call sip_data w).2);
        [by apply identity_kept_same_heap|apply identity_kept_sip_store_message].
    + rewrite calls_last_index_sip_store_message. simpl. lia.
Qed.

Lemma indexes_consistent_apply_op o w :
  keeps_index o = true ->
  index_consistent w -> indexes_consistent w -> indexes_consistent (apply_op o w).
Proof.
  intros Hk Hw Hi. destruct o as [pk|pk| | | |flt frd|srt]; cbn [apply_op];
    try done.
  - by apply indexes_consistent_storage_check_sip_packet.
  - eapply indexes_consistent_sub; [| |exact Hi].
    + intros p Hp. rewrite calls_storage_check_rtp_packet in Hp. split; [done|].
      apply identity_kept_storage_check_rtp_packet.
    + rewrite calls_storage_check_rtp_packet. lia.
  - by apply indexes_consistent_storage_calls_rotate.
  - destruct Hi as [H0 _]. split.
    + unfold storage_calls_clear. simpl. by rewrite calls_foldr_call_destroy.
    + intros p c Hp. by apply elem_of_nil in Hp.
  - eapply indexes_consistent_sub; [| |exact Hi].
    + intros p Hp. rewrite storage_set_sort_options_perm in Hp. done.
    + unfold storage_set_sort_options. simpl. lia.
Qed.

(** X5: call indexes are never shared.  After [storage_init] and any
    sequence of SIP and RTP packets, polls, rotations, clears and sort
    changes that leaves the counter [calls.last_index] at most
    [index_max], every listed call has an index between 1 and the
    counter, hence at most [index_max], and two listed calls with the
    same index are the same call.  [index_max] stands for the largest
    value of the C type of the counter, which is declared outside
    src/: the counter never goes down, so a run that ends at or below
    [index_max] never incremented past it, and on such a run the [++]
    of line 168 is the addition used here.
    [storage_calls_clear_soft] is not among the operations: it frees
    the keys of the Call-ID table (lines 455 and 467). *)
Theorem storage_indexes_unique (capture_options : SStorageCaptureOpts)
    (match_options : SStorageMatchOpts) (sort_options : SStorageSortOpts)
    (w0 w : World) (os : list store_op) (index_max : Z) :
  storage_init capture_options match_options sort_options w0 = Some w ->
  Forall (fun o => keeps_index o = true) os ->
  calls_last_index (calls (apply_ops os w)) <= index_max ->
  let w' := apply_ops os w in
  forall p c, p ∈ storage_calls_vector w' -> call_heap w' !! p = Some c ->
    1 <= index c <= calls_last_index (calls w')
    /\ index c <= index_max
    /\ forall q c', q ∈ storage_calls_vector w' -> call_heap w' !! q = Some c' ->
         index c' = index c -> q = p.
Proof.
  intros Hinit Hos Hmax w'.
  assert (index_consistent w /\ indexes_consistent w) as Hw.
  { destruct (storage_init_empty _ _ _ _ _ Hinit) as (Hl & _ & Hh & Hli & _).
    split.
    - unfold index_consistent. rewrite Hl, Hh. split; [constructor|]. split.
      + by intros p ?%elem_of_nil.
      + intros cid p. by rewrite lookup_empty.
    - unfold indexes_consistent. rewrite Hl, Hli. split; [done|].
      intros p c Hp. by apply elem_of_nil in Hp. }
  assert (index_consistent w' /\ indexes_consistent w') as [_ [_ Hres]].
  { unfold w', apply_ops. clear Hinit Hmax w'. revert w Hw.
    induction Hos as [|o os Ho Hos IH]; intros w [Hw Hi]; [done|].
    simpl. apply IH. split.
    - by apply index_consistent_apply_op.
    - by apply indexes_consistent_apply_op. }
  intros p c Hp Hc. destruct (Hres p c Hp Hc) as [Hrange Huniq].
  split; [exact Hrange|]. split; [|exact Huniq].
  fold w' in Hmax. lia.
Qed.

Lemma calls_last_index_apply_op o w :
  calls_last_index (calls w) <= calls_last_index (calls (apply_op o w)).
Proof.
  destruct o as [pk|pk| | | |flt frd|srt]; simpl.
  - rewrite storage_check_sip_packet_paths.
    destruct (proto_SIP _) as [sip_data|]; [|simpl; lia].
    cbv zeta. destruct (storage_find_by_callid _ _).
    + cbn [snd]. rewrite calls_last_index_sip_store_message. lia.
    + destruct (sip_filters_pass _ _); [|simpl; lia].
      destruct (mem_ok w); cbn [snd].
      * rewrite calls_last_index_sip_store_message. simpl.
        rewrite calls_last_index_sip_make_room. lia.
      * rewrite calls_last_index_sip_make_room. lia.
  - rewrite calls_storage_check_rtp_packet. lia.
  - lia.
  - destruct (storage_calls_rotate_frame w) as (_ & _ & _ & _ & -> & _). lia.
  - unfold storage_calls_clear. simpl. rewrite calls_foldr_call_destroy. lia.
  - unfold storage_calls_clear_soft. simpl. lia.
  - unfold storage_set_sort_options. simpl. lia.
Qed.

(** X6: the index counter, while it is below [index_max], the largest
    value of its C type (declared outside src/), so that the [++] of
    line 168 is the addition used here.  The call created for a first
    message gets the index [calls.last_index + 1] and the counter moves
    to it, also when a rotation made room first; a message of a known
    call and a skipped message leave the counter alone; no operation,
    clearing included, lowers it: over a run that ends at or below
    [index_max] the counter only grows and stays at or below
    [index_max] after every operation of the run, so no increment of
    the run wrapped and no index was handed out twice. *)
Theorem storage_last_index_counts_calls (w : World) (index_max : Z) :
  (forall packet sip_data r w',
      proto_SIP packet = Some sip_data ->
      storage_find_by_callid w (sd_callid sip_data) = None ->
      calls_last_index (calls w) < index_max ->
      storage_check_sip_packet packet w = (Some r, w') ->
      calls_last_index (calls w') = calls_last_index (calls w) + 1
      /\ calls_last_index (calls w') <= index_max
      /\ index (get_call w' (ref_call r)) = calls_last_index (calls w) + 1
      /\ callid (get_call w' (ref_call r)) = sd_callid sip_data
      /\ xcallid (get_call w' (ref_call r)) = sd_xcallid sip_data
      /\ locked (get_call w' (ref_call r)) = false)
  /\ (forall packet sip_data call r w',
        proto_SIP packet = Some sip_data ->
        storage_find_by_callid w (sd_callid sip_data) = Some call ->
        storage_check_sip_packet packet w = (r, w') ->
        calls_last_index (calls w') = calls_last_index (calls w))
  /\ (forall packet w',
        storage_check_sip_packet packet w = (None, w') ->
        calls_last_index (calls w') = calls_last_index (calls w))
  /\ (forall os,
        calls_last_index (calls (apply_ops os w)) <= index_max ->
        forall os1 os2, os = os1 ++ os2 ->
          calls_last_index (calls w) <= calls_last_index (calls (apply_ops os1 w))
          /\ calls_last_index (calls (apply_ops os1 w))
             <= calls_last_index (calls (apply_ops os w))
          /\ calls_last_index (calls (apply_ops os1 w)) <= index_max).
Proof.
  split; [|split; [|split]].
  - intros packet sip_data r w' Hs Hf Hmax.
    rewrite storage_check_sip_packet_paths, Hs. cbv zeta. rewrite Hf.
    destruct (sip_filters_pass _ _); [|done]. destruct (mem_ok w); [|done].
    set (new := sip_new_call sip_data w). intros Heq.
    assert (r = (sip_store_message packet (sip_message sip_data) new.1 true new.2).1
            /\ w' = (sip_store_message packet (sip_message sip_data) new.1 true
                       new.2).2)
      as [-> ->] by (split; congruence). clear Heq.
    destruct (sip_store_message_frame packet (sip_message sip_data) new.1 true new.2)
      as (Hr & _).
    rewrite Hr, calls_last_index_sip_store_message.
    split; [simpl; by rewrite calls_last_index_sip_make_room|].
    split; [simpl; rewrite calls_last_index_sip_make_room; lia|].
    assert (call_heap new.2 !! new.1
            = Some (mkCall (sd_callid sip_data) (sd_xcallid sip_data)
                      (calls_last_index (calls (sip_make_room w)) + 1)
                      CALL_STATE_NONE false [] [] [])) as Hc
      by (unfold new, sip_new_call; simpl; by rewrite lookup_insert_eq).
    destruct (identity_kept_live _ _ _ _
                (identity_kept_sip_store_message packet (sip_message sip_data)
                   new.1 true new.2) Hc) as (c' & Hc' & Hid).
    unfold get_call. rewrite Hc'. simpl.
    unfold call_identity in Hid. simpl in Hid.
    injection Hid as -> -> -> ->.
    by rewrite calls_last_index_sip_make_room.
  - intros packet sip_data call r w' Hs Hf.
    rewrite storage_check_sip_packet_paths, Hs. cbv zeta. rewrite Hf.
    intros Heq.
    assert (w' = (sip_store_message packet (sip_message sip_data) call false w).2)
      as -> by congruence.
    apply calls_last_index_sip_store_message.
  - intros packet w'. rewrite storage_check_sip_packet_paths.
    destruct (proto_SIP _) as [sip_data|]; [|by intros [= <-]].
    cbv zeta. destruct (storage_find_by_callid _ _); [done|].
    destruct (sip_filters_pass _ _); [|by intros [= <-]].
    destruct (mem_ok w); [done|]. intros [= <-].
    apply calls_last_index_sip_make_room.
  - assert (forall l v, calls_last_index (calls v)
                        <= calls_last_index (calls (apply_ops l v))) as Hmono.
    { intros l. induction l as [|o l IH]; intros v; simpl; [lia|].
      etransitivity; [apply (calls_last_index_apply_op o)|apply IH]. }
    intros os Hmax os1 os2 ->.
    assert (apply_ops (os1 ++ os2) w = apply_ops os2 (apply_ops os1 w)) as Happ
      by (unfold apply_ops; apply foldl_app).
    rewrite Happ in *.
    pose proof (Hmono os1 w). pose proof (Hmono os2 (apply_ops os1 w)). lia.
Qed.

(** ** Clearing *)

Lemma call_heap_foldr_call_destroy l w :
  call_heap (foldr call_destroy w l) = foldr delete (call_heap w) l.
Proof. induction l as [|p l IH]; simpl; [done|]. by rewrite IH. Qed.

Lemma lookup_foldr_delete_list (h : gmap ptr SipCall) l p :
  foldr delete h l !! p = if bool_decide (p ∈ l) then None else h !! p.
Proof.
  induction l as [|q l IH]; simpl; [done|].
  rewrite lookup_delete. destruct (decide (q = p)) as [->|Hne].
  - rewrite bool_decide_eq_true_2; [done|by left].
  - rewrite IH. apply not_eq_sym in Hne.
    destruct (bool_decide (p ∈ l)) eqn:Hb.
    + apply bool_decide_eq_true in Hb.
      rewrite bool_decide_eq_true_2; [done|by right].
    + apply bool_decide_eq_false in Hb.
      rewrite bool_decide_eq_false_2; [done|].
      rewrite elem_of_cons. tauto.
Qed.

(** X7: [storage_calls_clear] empties the three views and destroys the
    listed calls: no call is listed or active, every lookup by Call-ID
    misses, and the listed calls are gone from the heap while the
    others stay.  It keeps the options and the index counter, so the
    next call does not start again at index 1, and it does not mark the
    list as changed. *)
Theorem storage_calls_clear_empties (w : World) :
  let w' := storage_calls_clear w in
  storage_calls_count w' = 0
  /\ storage_active_calls_vector w' = []
  /\ (forall cid, storage_find_by_callid w' cid = None)
  /\ (forall p, p ∈ storage_calls_vector w -> call_heap w' !! p = None)
  /\ (forall p, p ∉ storage_calls_vector w -> call_heap w' !! p = call_heap w !! p)
  /\ calls_last_index (calls w') = calls_last_index (calls w)
  /\ calls_changed (calls w') = calls_changed (calls w)
  /\ storage_capture_options w' = storage_capture_options w
  /\ storage_sort_options w' = storage_sort_options w
  /\ calls_match (calls w') = calls_match (calls w).
Proof.
  unfold storage_calls_clear, storage_calls_vector. simpl.
  rewrite calls_foldr_call_destroy, call_heap_foldr_call_destroy.
  split; [done|]. split; [done|].
  split; [intros cid; apply lookup_empty|].
  split; [|split; [|done]].
  - intros p Hp. rewrite lookup_foldr_delete_list.
    by rewrite bool_decide_eq_true_2.
  - intros p Hp. rewrite lookup_foldr_delete_list.
    by rewrite bool_decide_eq_false_2.
Qed.

Lemma g_sequence_copy_length l keep :
  (length (g_sequence_copy l keep) <= length l)%nat.
Proof.
  induction l as [|x l IH]; simpl; [done|]. destruct (keep x); simpl; lia.
Qed.

Lemma storage_calls_clear_soft_eq filter_check_call freed_callid w :
  let keep := fun p => filter_check_call (get_call w p) in
  storage_calls_clear_soft filter_check_call freed_callid w
  = mkWorld
      (mkCalls (g_sequence_copy (calls_list (calls w)) keep)
         (g_sequence_copy (calls_active (calls w)) keep)
         (storage_repopulate_callids freed_callid
            (g_sequence_copy (calls_list (calls w)) keep) ∅)
         (calls_last_index (calls w)) (calls_changed (calls w))
         (calls_capture (calls w)) (calls_match (calls w))
         (calls_sort (calls w)))
      (call_heap w) (stream_heap w) (mem_ok w).
Proof. reflexivity. Qed.

(** X8: [storage_calls_clear_soft] keeps in the list and in the active
    list the calls that pass the display filter, in the order they had:
    a call is listed, respectively active, afterwards exactly when it
    was before and passes the filter.  No call and no stream is
    destroyed, the calls keep their index, state, lock, messages,
    streams and children, and the index counter, the options and the
    changed flag are left as they were.  Nothing is said of the lookups
    by Call-ID that follow: the keys of the table were freed (line 455)
    before they were inserted again (line 467). *)
Theorem storage_calls_clear_soft_keeps (filter_check_call : SipCall -> bool)
    (freed_callid : ptr -> string) (w : World) :
  let w' := storage_calls_clear_soft filter_check_call freed_callid w in
  let keep := fun p => filter_check_call (get_call w p) in
  storage_calls_vector w' = List.filter keep (storage_calls_vector w)
  /\ storage_active_calls_vector w'
     = List.filter keep (storage_active_calls_vector w)
  /\ (forall p, p ∈ storage_calls_vector w'
                <-> p ∈ storage_calls_vector w /\ keep p = true)
  /\ (forall p, p ∈ storage_active_calls_vector w'
                <-> p ∈ storage_active_calls_vector w /\ keep p = true)
  /\ (NoDup (storage_calls_vector w) -> NoDup (storage_calls_vector w'))
  /\ storage_calls_count w' <= storage_calls_count w
  /\ (forall p c, call_heap w !! p = Some c ->
        exists c', call_heap w' !! p = Some c'
                   /\ xcallid c' = xcallid c /\ index c' = index c
                   /\ state c' = state c /\ locked c' = locked c
                   /\ msgs c' = msgs c /\ streams c' = streams c
                   /\ children c' = children c)
  /\ stream_heap w' = stream_heap w
  /\ calls_last_index (calls w') = calls_last_index (calls w)
  /\ calls_changed (calls w') = calls_changed (calls w)
  /\ storage_capture_options w' = storage_capture_options w
  /\ storage_sort_options w' = storage_sort_options w
  /\ calls_match (calls w') = calls_match (calls w).
Proof.
  intros w' keep.
  assert (calls_list (calls w') = g_sequence_copy (calls_list (calls w)) keep)
    as Hl by done.
  split; [done|]. split; [done|]. split; [intros p; apply g_sequence_copy_elem|].
  split; [intros p; apply g_sequence_copy_elem|].
  split; [apply g_sequence_copy_NoDup|].
  split.
  { unfold storage_calls_count, g_sequence_get_length. rewrite Hl.
    pose proof (g_sequence_copy_length (calls_list (calls w)) keep). lia. }
  split; [|done].
  intros p c Hc. exists c. by repeat split.
Qed.

(** ** Statistics *)

Lemma storage_calls_stats_from_spec filter_check_call w it stats :
  let s := storage_calls_stats_from filter_check_call w it stats in
  total s = total stats
  /\ displayed s
     = displayed stats
       + Z.of_nat (length (List.filter
                             (fun p => filter_check_call (get_call w p)) it)).
Proof.
  revert stats. induction it as [|p it IH]; intros stats; simpl; [lia|].
  destruct (IH (if filter_check_call (get_call w p)
                then mkStats (total stats) (displayed stats + 1) else stats))
    as [Ht Hd].
  rewrite Ht, Hd. destruct (filter_check_call (get_call w p)); simpl; lia.
Qed.

(** X9: [storage_calls_stats] counts all listed calls and those that
    pass the display filter: the total is [storage_calls_count], the
    displayed count lies between 0 and the total, reaches the total
    exactly when every listed call passes the filter, and is the number
    of calls a soft clear with that filter would keep. *)
Theorem storage_calls_stats_counts (filter_check_call : SipCall -> bool)
    (freed_callid : ptr -> string) (w : World) :
  let s := storage_calls_stats filter_check_call w in
  total s = storage_calls_count w
  /\ 0 <= displayed s <= total s
  /\ displayed s
     = storage_calls_count
         (storage_calls_clear_soft filter_check_call freed_callid w)
  /\ (displayed s = total s
      <-> forall p, p ∈ storage_calls_vector w ->
            filter_check_call (get_call w p) = true).
Proof.
  unfold storage_calls_stats, storage_calls_iterator, storage_calls_vector.
  destruct (storage_calls_stats_from_spec filter_check_call w (calls_list (calls w))
              (mkStats (g_sequence_get_length (calls_list (calls w))) 0))
    as [Ht Hd].
  simpl in *. rewrite Ht, Hd. unfold storage_calls_count, g_sequence_get_length.
  set (keep := fun p => filter_check_call (get_call w p)).
  pose proof (g_sequence_copy_length (calls_list (calls w)) keep) as Hle.
  unfold g_sequence_copy in Hle.
  split; [done|]. split; [lia|]. split; [done|].
  generalize (calls_list (calls w)). intros l. clear.
  induction l as [|x l IH]; simpl.
  - split; [|done]. intros _ p Hp. by apply elem_of_nil in Hp.
  - pose proof (g_sequence_copy_length l keep) as Hle. unfold g_sequence_copy in Hle.
    destruct (keep x) eqn:Hk; simpl.
    + split.
      * intros Heq p [->|Hp]%elem_of_cons; [done|]. apply IH; [lia|done].
      * intros Hall. assert (0 + Z.of_nat (length (List.filter keep l))
                             = Z.of_nat (length l)) as Hl; [|lia].
        apply IH. intros p Hp. apply Hall. by right.
    + split; [lia|]. intros Hall. specialize (Hall x). unfold keep in Hk.
      rewrite Hall in Hk; [done|by left].
Qed.

(** ** Sorting the list *)

Section Sorter.
Variable cmp : ptr -> ptr -> Z.
Variable dom : list ptr.
Hypothesis cmp_total :
  forall a b, a ∈ dom -> b ∈ dom -> 0 < cmp a b -> cmp b a <= 0.
Hypothesis cmp_trans :
  forall a b c, a ∈ dom -> b ∈ dom -> c ∈ dom ->
    cmp a b <= 0 -> cmp b c <= 0 -> cmp a c <= 0.

Lemma g_sequence_insert_sorted_sorted l x :
  x ∈ dom -> l ⊆ dom ->
  StronglySorted (fun a b => cmp a b <= 0) l ->
  StronglySorted (fun a b => cmp a b <= 0) (g_sequence_insert_sorted l x cmp).
Proof using cmp_total cmp_trans.
  intros Hx Hl Hs. induction Hs as [|y l Hs IH Hy]; simpl.
  - constructor; [constructor|constructor].
  - assert (y ∈ dom) as Hyd by (apply Hl; by left).
    assert (l ⊆ dom) as Hld by (intros z Hz; apply Hl; by right).
    destruct (0 <? cmp y x) eqn:Hc.
    + apply Z.ltb_lt in Hc. constructor; [by constructor|].
      assert (cmp x y <= 0) as Hxy by (by apply cmp_total).
      constructor; [done|]. rewrite Forall_forall in Hy |- *.
      intros z Hz. apply (cmp_trans x y z); try done.
      * by apply Hld.
      * by apply Hy.
    + apply Z.ltb_ge in Hc. constructor; [by apply IH|].
      rewrite g_sequence_insert_sorted_perm. by constructor.
Qed.

Lemma g_sequence_sort_sorted l acc :
  l ⊆ dom -> acc ⊆ dom ->
  StronglySorted (fun a b => cmp a b <= 0) acc ->
  StronglySorted (fun a b => cmp a b <= 0)
    (foldl (fun acc x => g_sequence_insert_sorted acc x cmp) acc l).
Proof using cmp_total cmp_trans.
  revert acc. induction l as [|x l IH]; intros acc Hl Hacc Hs; simpl; [done|].
  assert (x ∈ dom) as Hx by (apply Hl; by left).
  apply IH.
  - intros z Hz. apply Hl. by right.
  - intros z Hz. rewrite g_sequence_insert_sorted_perm in Hz.
    apply elem_of_cons in Hz as [->|Hz]; auto.
  - by apply g_sequence_insert_sorted_sorted.
Qed.
End Sorter.

(** X10: [storage_set_sort_options] stores the new options before it
    sorts, so the list is sorted by the options just given: when the
    comparison of the new sort field is a total preorder on the listed
    calls, every call in the list compares lower than or equal to every
    call after it.  The list keeps the same calls, the active list, the
    Call-ID index and the heaps are untouched, the changed flag is not
    set, and [storage_sort_options] returns the options given. *)
Theorem storage_set_sort_options_sorts (srt : SStorageSortOpts) (w : World) :
  let w' := storage_set_sort_options srt w in
  let cmp := storage_sorter w' in
  (forall a b, a ∈ storage_calls_vector w -> b ∈ storage_calls_vector w ->
     0 < cmp a b -> cmp b a <= 0) ->
  (forall a b c, a ∈ storage_calls_vector w -> b ∈ storage_calls_vector w ->
     c ∈ storage_calls_vector w ->
     cmp a b <= 0 -> cmp b c <= 0 -> cmp a c <= 0) ->
  StronglySorted (fun a b => cmp a b <= 0) (storage_calls_vector w')
  /\ storage_calls_vector w' ≡ₚ storage_calls_vector w
  /\ storage_sort_options w' = srt
  /\ storage_calls_count w' = storage_calls_count w
  /\ storage_active_calls_vector w' = storage_active_calls_vector w
  /\ (forall cid, storage_find_by_callid w' cid = storage_find_by_callid w cid)
  /\ call_heap w' = call_heap w /\ stream_heap w' = stream_heap w
  /\ calls_changed (calls w') = calls_changed (calls w).
Proof.
  intros w' cmp Htot Htrans.
  pose proof (storage_set_sort_options_perm srt w) as Hperm.
  split; [|split; [done|split; [done|split; [|done]]]].
  - unfold w', storage_set_sort_options, storage_calls_vector. simpl.
    apply (g_sequence_sort_sorted cmp (calls_list (calls w)) Htot Htrans);
      [done| |constructor].
    intros x Hx. by apply elem_of_nil in Hx.
  - unfold storage_calls_count, g_sequence_get_length. f_equal.
    apply Permutation_length. exact Hperm.
Qed.

(** ** The stream that takes an RTP packet *)

Lemma lookup_upd_stream_ne p q f w :
  p <> q -> stream_heap (upd_stream p f w) !! q = stream_heap w !! q.
Proof. intros Hne. unfold upd_stream. simpl. by rewrite lookup_alter_ne. Qed.

Lemma rtp_resolve_format_other packet stream format w q t :
  stream_heap w !! q = Some t ->
  stream_heap (rtp_resolve_format packet stream format w).2 !! q = Some t.
Proof.
  intros Hq. unfold rtp_resolve_format, alloc_stream.
  case_match; [|done]. simpl. rewrite stream_heap_call_add_stream. simpl.
  rewrite lookup_insert_ne; [done|].
  intros <-. by rewrite fresh_ptr_fresh in Hq.
Qed.

Lemma rtp_first_packet_other packet stream format w q t :
  stream <> q ->
  stream_heap w !! q = Some t ->
  stream_heap (rtp_first_packet packet stream format w) !! q = Some t.
Proof.
  intros Hne Hq. unfold rtp_first_packet.
  destruct (negb _); [|done].
  set (w1 := upd_stream stream _ w).
  assert (stream_heap w1 !! q = Some t) as H1
    by (unfold w1; by rewrite lookup_upd_stream_ne).
  repeat case_match; try done; by apply create_reverse_other.
Qed.

Lemma streams_extended_refl c : streams_extended c c.
Proof. by repeat split. Qed.

Lemma streams_extended_trans c1 c2 c3 :
  streams_extended c1 c2 -> streams_extended c2 c3 -> streams_extended c1 c3.
Proof.
  intros (Hi & Hs & Hm & Hc & Hp) (Hi' & Hs' & Hm' & Hc' & Hp').
  repeat split; try congruence. by etrans.
Qed.

Lemma streams_extended_add c sp :
  streams_extended c (set_streams c (streams c ++ [sp])).
Proof. repeat split. simpl. by apply prefix_app_r. Qed.

(** The block meant for RTCP adds the packet to a complete stream and
    changes nothing else of it. *)
Lemma stream_rtcp_block_fields x pk a :
  complete x = true ->
  let y := stream_add_packet (stream_complete (stream_add_packet x pk) a) pk in
  complete y = true /\ fmtcode y = fmtcode x /\ media y = media x
  /\ src y = src x /\ dst y = dst x.
Proof. intros Hx. unfold stream_complete. simpl. by rewrite Hx. Qed.

(** X11: the outcome of [storage_check_rtp_packet], given that
    [stream_find_by_format] returns streams of the store.  Without RTP
    data or without a matching stream the result is NULL and the store
    is unchanged.  Otherwise the stream returned is the one found, or a
    new one when the found stream is complete with another format; it
    is complete, carries the format of the packet and the media of the
    found stream, and every other stream of the store is as before.
    The three views of the calls are untouched and a call changes at
    most by streams appended to it. *)
Theorem storage_check_rtp_packet_result (packet : packet_t) (w : World) :
  (forall rtp stream,
     proto_RTP (newpacket packet) = Some rtp ->
     stream_find_by_format w (pkt_src packet) (pkt_dst packet)
       (encoding_id rtp mod 256) = Some stream ->
     is_Some (stream_heap w !! stream)) ->
  let r := (storage_check_rtp_packet packet w).1 in
  let w' := (storage_check_rtp_packet packet w).2 in
  calls w' = calls w
  /\ (forall p, streams_extended (get_call w p) (get_call w' p))
  /\ match r with
     | None =>
         w' = w
         /\ (proto_RTP (newpacket packet) = None
             \/ exists rtp,
                  proto_RTP (newpacket packet) = Some rtp
                  /\ stream_find_by_format w (pkt_src packet) (pkt_dst packet)
                       (encoding_id rtp mod 256) = None)
     | Some sp =>
         exists rtp stream s s',
           proto_RTP (newpacket packet) = Some rtp
           /\ stream_find_by_format w (pkt_src packet) (pkt_dst packet)
                (encoding_id rtp mod 256) = Some stream
           /\ stream_heap w !! stream = Some s
           /\ stream_heap w' !! sp = Some s'
           /\ (if complete s && negb (fmtcode s =? encoding_id rtp mod 256)
               then stream_heap w !! sp = None else sp = stream)
           /\ complete s' = true
           /\ fmtcode s' = encoding_id rtp mod 256
           /\ media s' = media s
           /\ src s' = (if complete s && (fmtcode s =? encoding_id rtp mod 256)
                        then src s else pkt_src packet)
           /\ dst s' = (if complete s && negb (fmtcode s =? encoding_id rtp mod 256)
                        then mkAddress (ip (address (media s))) (rtpport (media s))
                        else dst s)
           /\ (forall q t, q <> sp -> stream_heap w !! q = Some t ->
                 stream_heap w' !! q = Some t)
     end.
Proof.
  intros Hlive r w'.
  split; [apply calls_storage_check_rtp_packet|].
  split.
  { apply (calls_related_storage_check_rtp_packet
             (fun _ c c' => streams_extended c c')).
    - intros _ c. apply streams_extended_refl.
    - intros _ c1 c2 c3. apply streams_extended_trans.
    - intros _ c sp. apply streams_extended_add. }
  unfold r, w', storage_check_rtp_packet, rtp_block.
  destruct (proto_RTP (newpacket packet)) as [rtp|] eqn:Hrtp; [|by split; [|left]].
  set (format := encoding_id rtp mod 256).
  destruct (stream_find_by_format w (pkt_src packet) (pkt_dst packet) format)
    as [stream|] eqn:Hfind; [|split; [done|right; by exists rtp]].
  destruct (Hlive rtp stream eq_refl Hfind) as [s Hs].
  pose proof (rtp_resolve_format_stream packet stream format w s Hs) as Hres.
  pose proof (fun q t => rtp_resolve_format_other packet stream format w q t)
    as Hoth.
  destruct (rtp_resolve_format packet stream format w) as [sp w0].
  simpl in Hoth. simpl.
  set (s0 := if complete s && negb (fmtcode s =? format)
             then stream_set_format
                    (stream_complete (stream_create (newpacket packet) (media s))
                       (pkt_src packet)) format
             else s).
  assert (stream_heap w0 !! sp = Some s0) as Hs0.
  { unfold s0. destruct (complete s && negb (fmtcode s =? format)).
    - by destruct Hres as [_ Hnew].
    - by destruct Hres as [-> ->]. }
  pose proof (rtp_first_packet_stream packet sp format w0 s0 Hs0) as H1.
  pose proof (fun q t => rtp_first_packet_other packet sp format w0 q t) as Hoth1.
  set (w1 := rtp_first_packet packet sp format w0) in *. clearbody w1.
  exists rtp, stream, s. eexists. fold format.
  split; [done|]. split; [done|]. split; [done|].
  split; [simpl; by rewrite !lookup_alter_eq, H1|].
  split.
  { destruct (complete s && negb (fmtcode s =? format)); [apply (proj1 Hres)|apply (proj1 Hres)]. }
  assert (forall q t, q <> sp -> stream_heap w !! q = Some t ->
            stream_heap
              (upd_stream sp (fun x => stream_add_packet x packet)
                 (upd_stream sp (fun x => stream_complete x (pkt_src packet))
                    (upd_stream sp (fun x => stream_add_packet x packet) w1)))
              !! q = Some t) as Hframe.
  { intros q t Hne Hq. rewrite !lookup_upd_stream_ne by done.
    apply Hoth1; [by apply not_eq_sym|]. by apply Hoth. }
  set (s1 := if complete s0 then s0
             else stream_set_format (stream_complete s0 (pkt_src packet)) format)
    in *.
  assert (complete s1 = true /\ fmtcode s1 = format /\ media s1 = media s
          /\ src s1 = (if complete s && (fmtcode s =? format)
                       then src s else pkt_src packet)
          /\ dst s1 = (if complete s && negb (fmtcode s =? format)
                       then mkAddress (ip (address (media s))) (rtpport (media s))
                       else dst s)) as (Hc1 & Hf1 & Hm1 & Hsrc1 & Hdst1).
  { unfold s1, s0. clear. clearbody format.
    destruct (complete s) eqn:Hc;
      destruct (Z.eqb_spec (fmtcode s) format) as [Hf|Hf];
      unfold stream_complete, stream_set_format; simpl; rewrite ?Hc; simpl;
      done. }
  clearbody s1. clear Hres Hs0 s0.
  destruct (stream_rtcp_block_fields s1 packet (pkt_src packet) Hc1)
    as (-> & -> & -> & -> & ->).
  split; [done|]. split; [done|]. split; [done|]. split; [done|].
  split; [done|]. exact Hframe.
Qed.

(** ** Streams registered from an SDP body *)

Lemma registered_stream_mono r M M' t :
  M ⊆ M' -> registered_stream r M t -> registered_stream r M' t.
Proof. intros HM (? & ? & ?). split; [done|]. split; [by apply HM|done]. Qed.

Lemma streams_registered_refl r M w : streams_registered r M w w.
Proof. split; [done|]. intros q t Hq Hn. congruence. Qed.

Lemma streams_registered_trans r M1 M2 M w1 w2 w3 :
  M1 ⊆ M -> M2 ⊆ M ->
  streams_registered r M1 w1 w2 -> streams_registered r M2 w2 w3 ->
  streams_registered r M w1 w3.
Proof.
  intros H1 H2 [Hk12 Hn12] [Hk23 Hn23]. split; [by auto|].
  intros q t Hq Hn. destruct (stream_heap w2 !! q) as [t2|] eqn:Hq2.
  - assert (t2 = t) as -> by (apply Hk23 in Hq2; congruence).
    eapply registered_stream_mono; [exact H1|by apply (Hn12 q)].
  - eapply registered_stream_mono; [exact H2|by apply (Hn23 q)].
Qed.

Lemma streams_registered_block r M found call s w :
  registered_stream r M s ->
  streams_registered r M w (register_block found call s w).
Proof.
  intros Hs. destruct found; [apply streams_registered_refl|].
  unfold register_block, alloc_stream.
  split; intros q t; rewrite stream_heap_call_add_stream; simpl.
  - intros Hq. rewrite lookup_insert_ne; [done|].
    intros <-. by rewrite fresh_ptr_fresh in Hq.
  - intros Hq Hn. destruct (decide (fresh_ptr (stream_heap w) = q)) as [Heq|Hne].
    + subst q. rewrite lookup_insert_eq in Hq. congruence.
    + rewrite lookup_insert_ne in Hq by done. congruence.
Qed.

Lemma msgs_register_block found call s w p :
  msgs (get_call (register_block found call s w) p) = msgs (get_call w p).
Proof.
  destruct found; [done|]. unfold register_block, alloc_stream.
  destruct call as [c|]; [|done]. unfold call_add_stream, upd_call, get_call.
  simpl. rewrite lookup_alter. destruct (decide (c = p)) as [->|]; [|done].
  by destruct (call_heap w !! p).
Qed.

Lemma register_media_blocks r packet pk m w :
  exists f1 c1 s1 f2 c2 s2 f3 c3 s3,
    let w0 := upd_msg r (fun x => set_msg_medias x (msg_medias x ++ [m])) w in
    register_media r packet pk m w
    = register_block f3 c3 s3
        (register_block f2 c2 s2 (register_block f1 c1 s1 w0))
    /\ registered_stream r [m] s1 /\ registered_stream r [m] s2
    /\ registered_stream r [m] s3.
Proof.
  unfold register_media. do 9 eexists. split; [reflexivity|].
  unfold registered_stream. simpl. rewrite !list_elem_of_singleton. done.
Qed.

Lemma register_media_result r packet pk m w m0 :
  msgs (get_call w (ref_call r)) !! ref_pos r = Some m0 ->
  let w' := register_media r packet pk m w in
  msgs (get_call w' (ref_call r)) !! ref_pos r
  = Some (set_msg_medias m0 (msg_medias m0 ++ [m]))
  /\ streams_registered r [m] w w'.
Proof.
  intros Hm0.
  destruct (register_media_blocks r packet pk m w)
    as (f1 & c1 & s1 & f2 & c2 & s2 & f3 & c3 & s3 & Heq & H1 & H2 & H3).
  simpl in Heq. simpl. rewrite Heq. split.
  - rewrite !msgs_register_block.
    pose proof (get_msg_upd_msg r
                  (fun x => set_msg_medias x (msg_medias x ++ [m])) w m0 Hm0) as Hg.
    unfold get_msg in Hg.
    unfold upd_msg, upd_call, get_call in *. simpl in *.
    rewrite lookup_alter_eq.
    destruct (call_heap w !! ref_call r) as [c|]; simpl in *; [|done].
    by rewrite list_lookup_alter_eq, Hm0.
  - eapply (streams_registered_trans r [m] [m]); [done|done| |
      by apply streams_registered_block].
    eapply (streams_registered_trans r [m] [m]); [done|done| |
      by apply streams_registered_block].
    eapply (streams_registered_trans r [m] [m]); [done|done| |
      by apply streams_registered_block].
    split; [done|]. intros q t Hq Hn. simpl in Hq. congruence.
Qed.

Lemma register_medias_result r packet pk M w m0 :
  msgs (get_call w (ref_call r)) !! ref_pos r = Some m0 ->
  let w' := foldl (fun w m => register_media r packet pk m w) w M in
  msgs (get_call w' (ref_call r)) !! ref_pos r
  = Some (set_msg_medias m0 (msg_medias m0 ++ M))
  /\ streams_registered r M w w'.
Proof.
  revert w m0. induction M as [|m M IH]; intros w m0 Hm0; simpl.
  - split; [|apply streams_registered_refl].
    rewrite app_nil_r, Hm0. by destruct m0.
  - destruct (register_media_result r packet pk m w m0 Hm0) as [Hm1 Hs1].
    destruct (IH _ _ Hm1) as [Hm2 Hs2]. simpl in Hm2. split.
    + rewrite Hm2. simpl. by rewrite <- app_assoc.
    + eapply (streams_registered_trans r [m] M); [| |exact Hs1|exact Hs2].
      * intros x Hx. apply list_elem_of_singleton in Hx as ->. by left.
      * intros x Hx. by right.
Qed.

Lemma medias_registered_refl r p c : medias_registered r p c c.
Proof. by repeat split. Qed.

Lemma medias_registered_trans r p c1 c2 c3 :
  medias_registered r p c1 c2 -> medias_registered r p c2 c3 ->
  medias_registered r p c1 c3.
Proof.
  intros (Hi & Hs & Hc & Hp & Hl & Ho & Hm) (Hi' & Hs' & Hc' & Hp' & Hl' & Ho' & Hm').
  repeat split; try congruence.
  - by etrans.
  - intros i Hne. rewrite Ho' by done. by apply Ho.
  - intros Hne. rewrite Hm' by done. by apply Hm.
Qed.

(** X12: [storage_register_streams] on a stored message whose packet
    has an SDP body appends the medias of the body to the message, in
    their order, and changes nothing else of the message: it is the
    message it was, retransmission mark included, with the longer list
    of medias.  Every stream of the store stays as it is; every new
    stream belongs to the message, carries one of these medias, has no
    source and no packet yet.  The three views of the calls are
    untouched; a call keeps its identity, state, children and the other
    messages, and its streams are only appended to.  Without an SDP
    body nothing changes. *)
Theorem storage_register_streams_result (r : MsgRef) (w : World)
    (pk : packet_t) :
  msg_packet (get_msg w r) = Some pk ->
  let w' := storage_register_streams r w in
  let M := match proto_SDP (newpacket pk) with
           | Some sdp => sdp_medias sdp
           | None => []
           end in
  get_msg w' r = set_msg_medias (get_msg w r) (msg_medias (get_msg w r) ++ M)
  /\ msg_medias (get_msg w' r) = msg_medias (get_msg w r) ++ M
  /\ msg_header (get_msg w' r) = msg_header (get_msg w r)
  /\ msg_retrans (get_msg w' r) = msg_retrans (get_msg w r)
  /\ streams_registered r M w w'
  /\ calls w' = calls w
  /\ (forall p, medias_registered r p (get_call w p) (get_call w' p))
  /\ (proto_SDP (newpacket pk) = None -> w' = w).
Proof.
  intros Hpk w' M.
  assert (exists m0, msgs (get_call w (ref_call r)) !! ref_pos r = Some m0)
    as [m0 Hm0].
  { unfold get_msg in Hpk. destruct (msgs _ !! _) as [m0|]; [by exists m0|done]. }
  assert (get_msg w r = m0) as Hg by (unfold get_msg; by rewrite Hm0).
  assert (msgs (get_call w' (ref_call r)) !! ref_pos r
          = Some (set_msg_medias m0 (msg_medias m0 ++ M))
          /\ streams_registered r M w w') as [Hm' Hs'].
  { unfold w', M, storage_register_streams. rewrite Hpk.
    destruct (proto_SDP (newpacket pk)) as [sdp|].
    - by apply register_medias_result.
    - split; [|apply streams_registered_refl].
      rewrite app_nil_r, Hm0. by destruct m0. }
  assert (get_msg w' r = set_msg_medias m0 (msg_medias m0 ++ M)) as Hg'
    by (unfold get_msg; by rewrite Hm').
  rewrite Hg, Hg'. split; [done|]. split; [done|]. split; [done|].
  split; [done|]. split; [done|].
  split; [apply calls_storage_register_streams|]. split.
  - apply (calls_related_storage_register_streams (medias_registered r) r).
    + intros p c. apply medias_registered_refl.
    + intros p c1 c2 c3. apply medias_registered_trans.
    + intros p c sp. unfold medias_registered. simpl.
      split_and!; try done. by apply prefix_app_r.
    + intros c f Hf. unfold medias_registered. simpl. split_and!; try done.
      * by rewrite length_alter.
      * intros i Hne. by rewrite list_lookup_alter_ne.
  - intros Hn. unfold w', storage_register_streams. by rewrite Hpk, Hn.
Qed.

(** ** The active list *)

Lemma active_sub_sip_update_invite call r w p :
  p ∈ calls_active (calls (sip_update_invite call r w)) ->
  p ∈ calls_active (calls w).
Proof.
  unfold sip_update_invite. destruct (call_is_invite _); [|done].
  set (w1 := upd_call _ _ _).
  assert (calls w1 = calls w) as Hc
    by (unfold w1; rewrite calls_upd_call; apply calls_storage_register_streams).
  clearbody w1. unfold storage_call_is_active. rewrite Hc.
  destruct (call_is_active _);
    destruct (g_sequence_index (calls_active (calls w)) call =? -1) eqn:Hi;
    simpl; rewrite ?Hc; try done.
  - apply Z.eqb_neq in Hi. unfold g_sequence_append.
    intros [Hp|Hp]%elem_of_app; [done|].
    apply list_elem_of_singleton in Hp as ->.
    destruct (decide (call ∈ calls_active (calls w))) as [|Hn]; [done|].
    by apply g_sequence_index_absent in Hn.
  - clear. induction (calls_active (calls w)) as [|y l IH]; simpl; [done|].
    case_bool_decide.
    + intros Hp. by right.
    + intros [->|Hp]%elem_of_cons; [by left|right; by apply IH].
Qed.

Lemma active_sub_sip_store_message packet m call newcall w p :
  p ∈ calls_active (calls (sip_store_message packet m call newcall w).2) ->
  p ∈ calls_active (calls w).
Proof.
  unfold sip_store_message.
  set (w1 := if call_msg_count _ =? 0 then _ else w).
  assert (calls w1 = calls w) as H1.
  { unfold w1. destruct (_ =? 0); [|done]. destruct (negb _); [|done].
    apply calls_call_add_xcall. }
  set (r := mkMsgRef call _).
  set (w2 := call_msg_retrans_check r _).
  assert (calls w2 = calls w) as H2 by (by rewrite <- H1).
  pose proof (active_sub_sip_update_invite call r w2 p) as Hupd.
  rewrite H2 in Hupd. by destruct newcall.
Qed.

Lemma active_sub_storage_calls_rotate w p :
  p ∈ calls_active (calls (storage_calls_rotate w)) ->
  p ∈ calls_active (calls w).
Proof.
  unfold storage_calls_rotate.
  destruct (storage_calls_rotate_from_cases w (calls_list (calls w)))
    as [[_ ->]|(l1 & call & l2 & _ & _ & _ & ->)]; [done|].
  simpl. clear. induction (calls_active (calls w)) as [|y l IH]; simpl; [done|].
  case_bool_decide.
  - intros Hp. by right.
  - intros [->|Hp]%elem_of_cons; [by left|right; by apply IH].
Qed.

Lemma active_sub_storage_check_sip_packet packet w p :
  p ∈ calls_active (calls (storage_check_sip_packet packet w).2) ->
  p ∈ calls_active (calls w).
Proof.
  assert (p ∈ calls_active (calls (sip_make_room w)) ->
          p ∈ calls_active (calls w)) as Hroom.
  { unfold sip_make_room. destruct (_ =? _); [|done].
    apply active_sub_storage_calls_rotate. }
  rewrite storage_check_sip_packet_paths.
  destruct (proto_SIP packet) as [sip_data|]; [|done].
  cbv zeta. destruct (storage_find_by_callid _ _) as [call|].
  - apply active_sub_sip_store_message.
  - destruct (sip_filters_pass _ _); [|done].
    destruct (mem_ok w); [|done].
    intros Hp%active_sub_sip_store_message. by apply Hroom.
Qed.

Lemma active_sub_apply_op o w p :
  p ∈ calls_active (calls (apply_op o w)) -> p ∈ calls_active (calls w).
Proof.
  destruct o as [pk|pk| | | |flt frd|srt]; cbn [apply_op].
  - apply active_sub_storage_check_sip_packet.
  - by rewrite calls_storage_check_rtp_packet.
  - done.
  - apply active_sub_storage_calls_rotate.
  - simpl. by intros ?%elem_of_nil.
  - rewrite storage_calls_clear_soft_eq. simpl.
    by intros [? _]%g_sequence_copy_elem.
  - done.
Qed.

(** X13: no operation of the store puts a call into the active list
    that was not in it: [storage_check_sip_packet] appends a call to
    [calls.active] only when the call is already there.  So in a store
    that was initialised the active list stays empty and
    [storage_call_is_active] answers false for every call, whatever is
    ingested. *)
Theorem storage_active_never_gains (os : list store_op) (w : World) :
  (forall p, p ∈ storage_active_calls_vector (apply_ops os w) ->
             p ∈ storage_active_calls_vector w)
  /\ (forall capture_options match_options sort_options w0,
        storage_init capture_options match_options sort_options w0 = Some w ->
        storage_active_calls_vector (apply_ops os w) = []
        /\ forall p, storage_call_is_active (apply_ops os w) p = false).
Proof.
  assert (forall p, p ∈ storage_active_calls_vector (apply_ops os w) ->
                    p ∈ storage_active_calls_vector w) as Hsub.
  { unfold storage_active_calls_vector, apply_ops. revert w.
    induction os as [|o os IH]; intros w p; simpl; [done|].
    intros Hp%IH. by apply active_sub_apply_op in Hp. }
  split; [done|]. intros co mo so w0 Hinit.
  assert (storage_active_calls_vector w = []) as Hw.
  { unfold storage_init in Hinit. repeat case_match; try done;
      injection Hinit as <-; done. }
  assert (storage_active_calls_vector (apply_ops os w) = []) as He.
  { destruct (storage_active_calls_vector (apply_ops os w)) as [|p l] eqn:Hl;
      [done|].
    specialize (Hsub p). rewrite ?Hl, Hw in Hsub.
    exfalso. apply (not_elem_of_nil p), Hsub. by left. }
  split; [done|]. intros p. unfold storage_call_is_active.
  unfold storage_active_calls_vector in He. by rewrite He.
Qed.

(** ** Calls linked by X-Call-ID *)

Lemma children_call_update_state c m :
  children (call_update_state c m) = children c.
Proof. unfold call_update_state. by repeat case_match. Qed.

(** Lines 174-217 change the children of a call only at line 183. *)
Lemma sip_store_message_children packet m call newcall w q c :
  call_heap w !! q = Some c ->
  let linked :=
    if call_msg_count (get_call w call) =? 0 then
      if negb (String.length (xcallid (get_call w call)) =? 0)%nat
      then storage_find_by_callid w (xcallid (get_call w call)) else None
    else None in
  children (get_call (sip_store_message packet m call newcall w).2 q)
  = children c ++ (if decide (linked = Some q) then [call] else []).
Proof.
  intros Hq linked. unfold sip_store_message.
  set (w1 := if call_msg_count _ =? 0 then _ else w).
  assert (children (get_call w1 q)
          = children c ++ (if decide (linked = Some q) then [call] else []))
    as H1.
  { assert (children (get_call w q) = children c) as H0
      by (unfold get_call; by rewrite Hq).
    unfold w1, linked. destruct (_ =? 0).
    2:{ rewrite decide_False by done. by rewrite app_nil_r. }
    destruct (negb _).
    2:{ rewrite decide_False by done. by rewrite app_nil_r. }
    destruct (storage_find_by_callid _ _) as [pp|]; simpl.
    2:{ by rewrite app_nil_r. }
    unfold get_call, upd_call. simpl. rewrite lookup_alter.
    destruct (decide (pp = q)) as [->|Hne].
    - rewrite Hq. simpl. by rewrite decide_True.
    - rewrite Hq. simpl. rewrite decide_False by congruence.
      by rewrite app_nil_r. }
  rewrite <- H1.
  set (r := mkMsgRef call _).
  set (R := fun (_ : ptr) (c c' : SipCall) => children c' = children c).
  assert (forall p a, R p a a) as R_refl by done.
  assert (forall p a b d, R p a b -> R p b d -> R p a d) as R_trans
    by (unfold R; intros; congruence).
  set (w2 := call_add_message call _ w1).
  assert (calls_related R w1 w2) as H2.
  { apply calls_related_upd_call; [done|]. intros a. unfold R.
    by rewrite children_call_update_state. }
  assert (calls_related R w2 (sip_update_invite call r (call_msg_retrans_check r w2)))
    as H3.
  { eapply calls_related_trans; [exact R_trans| |].
    - apply (calls_related_call_msg_retrans_check R r); done.
    - apply (calls_related_sip_update_invite R r); try done.
      intros p a m0. apply children_call_update_state. }
  set (w3 := sip_update_invite call r (call_msg_retrans_check r w2)) in *.
  transitivity (children (get_call w3 q)).
  - by destruct newcall.
  - rewrite (H3 q). apply (H2 q).
Qed.

(** X14: how [storage_check_sip_packet] links calls by X-Call-ID.  The
    first message of a new call, in a store that is not full, appends
    the new call to the children of the call its X-Call-ID resolves to
    and to no other; with an empty X-Call-ID, or one that resolves to
    nothing, no call gains a child.  An X-Call-ID equal to the Call-ID
    resolves to the new call itself, which becomes its own child.  A
    message of a call that already has messages changes no children. *)
Theorem storage_check_sip_packet_links_xcall (packet : Packet)
    (sip_data : PacketSipData) (w : World) :
  index_consistent w ->
  proto_SIP packet = Some sip_data ->
  let w' := (storage_check_sip_packet packet w).2 in
  (storage_find_by_callid w (sd_callid sip_data) = None ->
   sip_filters_pass w sip_data = true ->
   mem_ok w = true ->
   limit (calls_capture (calls w)) <> storage_calls_count w ->
   exists r,
     (storage_check_sip_packet packet w).1 = Some r
     /\ call_heap w !! ref_call r = None
     /\ let linked :=
          if (String.length (sd_xcallid sip_data) =? 0)%nat then None
          else if decide (sd_callid sip_data = sd_xcallid sip_data)
               then Some (ref_call r)
               else storage_find_by_callid w (sd_xcallid sip_data) in
        (forall q, q ∈ storage_calls_vector w \/ q = ref_call r ->
           children (get_call w' q)
           = children (get_call w q)
             ++ (if decide (linked = Some q) then [ref_call r] else []))
        /\ (forall parent,
              linked = Some parent ->
              children (get_call w' parent)
              = children (get_call w parent) ++ [ref_call r]))
  /\ (forall call c,
        storage_find_by_callid w (sd_callid sip_data) = Some call ->
        call_heap w !! call = Some c ->
        msgs c <> [] ->
        forall q, q ∈ storage_calls_vector w ->
          children (get_call w' q) = children (get_call w q)).
Proof.
  intros Hw Hs w'. pose proof Hw as (Hnd & Hin & Hidx). split.
  - intros Hf Hp Hm Hlim.
    assert (sip_make_room w = w) as Hroom.
    { unfold sip_make_room. by destruct (Z.eqb_spec (limit (calls_capture (calls w)))
                                        (storage_calls_count w)). }
    unfold w'. rewrite storage_check_sip_packet_paths, Hs. cbv zeta.
    rewrite Hf, Hp, Hm.
    set (new := sip_new_call sip_data w).
    assert (new.1 = fresh_ptr (call_heap w)) as Hnew1
      by (unfold new, sip_new_call; by rewrite Hroom).
    assert (call_heap new.2
            = <[new.1 := mkCall (sd_callid sip_data) (sd_xcallid sip_data)
                           (calls_last_index (calls w) + 1)
                           CALL_STATE_NONE false [] [] []]> (call_heap w))
      as Hheap by (unfold new, sip_new_call; by rewrite Hroom).
    assert (calls_callids (calls new.2)
            = <[sd_callid sip_data := new.1]> (calls_callids (calls w)))
      as Hids by (unfold new, sip_new_call; by rewrite Hroom).
    destruct (sip_store_message_frame packet (sip_message sip_data) new.1 true new.2)
      as (Hr & _).
    clearbody new. eexists. split; [done|]. cbn [fst snd]. rewrite Hr.
    assert (call_heap w !! new.1 = None) as Hfresh
      by (rewrite Hnew1; apply fresh_ptr_fresh).
    split; [done|].
    set (linked := if (String.length (sd_xcallid sip_data) =? 0)%nat then None
                   else if decide (sd_callid sip_data = sd_xcallid sip_data)
                        then Some new.1
                        else storage_find_by_callid w (sd_xcallid sip_data)).
    assert (get_call new.2 new.1
            = mkCall (sd_callid sip_data) (sd_xcallid sip_data)
                (calls_last_index (calls w) + 1) CALL_STATE_NONE false [] [] [])
      as Hgnew by (unfold get_call; by rewrite Hheap, lookup_insert_eq).
    assert ((if call_msg_count (get_call new.2 new.1) =? 0 then
               if negb (String.length (xcallid (get_call new.2 new.1)) =? 0)%nat
               then storage_find_by_callid new.2 (xcallid (get_call new.2 new.1))
               else None
             else None) = linked) as Hlinked.
    { rewrite Hgnew. simpl. unfold linked, storage_find_by_callid.
      destruct (String.length (sd_xcallid sip_data) =? 0)%nat; simpl; [done|].
      rewrite Hids. destruct (decide (sd_callid sip_data = sd_xcallid sip_data))
        as [->|Hne].
      - by rewrite lookup_insert_eq.
      - by rewrite lookup_insert_ne. }
    assert (forall q, q ∈ storage_calls_vector w \/ q = new.1 ->
              children (get_call (sip_store_message packet (sip_message sip_data)
                                    new.1 true new.2).2 q)
              = children (get_call w q)
                ++ (if decide (linked = Some q) then [new.1] else [])) as Hall.
    { intros q Hq.
      assert (exists cq, call_heap new.2 !! q = Some cq
                         /\ children cq = children (get_call w q))
        as (cq & Hcq & Hch).
      { destruct Hq as [Hq| ->].
        - destruct (Hin q Hq) as (c & Hc & _). exists c.
          rewrite Hheap, lookup_insert_ne by congruence.
          split; [done|]. unfold get_call. by rewrite Hc.
        - eexists. rewrite Hheap, lookup_insert_eq. split; [done|].
          unfold get_call. by rewrite Hfresh. }
      rewrite (sip_store_message_children _ _ _ _ _ _ _ Hcq).
      by rewrite Hlinked, Hch. }
    split; [exact Hall|].
    intros parent Hpar.
    assert (parent ∈ storage_calls_vector w \/ parent = new.1) as Hq.
    { unfold linked in Hpar.
      destruct (String.length (sd_xcallid sip_data) =? 0)%nat; [done|].
      destruct (decide _); [right; congruence|].
      left. by destruct (Hidx _ _ Hpar). }
    rewrite (Hall parent Hq). by rewrite decide_True.
  - intros call c Hf Hc Hmsgs q Hq.
    unfold w'. rewrite storage_check_sip_packet_paths, Hs. cbv zeta.
    rewrite Hf. cbn [fst snd].
    destruct (Hin q Hq) as (cq & Hcq & _).
    rewrite (sip_store_message_children _ _ _ _ _ _ _ Hcq).
    assert (get_call w call = c) as -> by (unfold get_call; by rewrite Hc).
    assert ((call_msg_count c =? 0) = false) as ->.
    { apply Z.eqb_neq. unfold call_msg_count. destruct (msgs c); [done|].
      simpl. lia. }
    rewrite decide_False by done. rewrite app_nil_r.
    unfold get_call. by rewrite Hcq.
Qed.

(** ** Locked calls *)

Lemma index_consistentb_sound w : index_consistentb w = true -> index_consistent w.
Proof.
  unfold index_consistentb, index_consistent.
  intros [[Hnd Hl]%andb_prop Hh]%andb_prop.
  apply bool_decide_eq_true in Hnd. split; [done|].
  rewrite forallb_forall in Hl. rewrite forallb_forall in Hh. split.
  - intros p Hp%list_elem_of_In. specialize (Hl p Hp).
    destruct (call_heap w !! p) as [c|]; [|done].
    exists c. split; [done|]. by apply bool_decide_eq_true in Hl.
  - intros cid p Hp. apply elem_of_map_to_list in Hp.
    apply list_elem_of_In in Hp. specialize (Hh _ Hp). simpl in Hh.
    apply andb_prop in Hh as [Hin Hc]. apply bool_decide_eq_true in Hin.
    split; [done|]. destruct (call_heap w !! p) as [c|]; [|done].
    exists c. split; [done|]. by apply bool_decide_eq_true in Hc.
Qed.

Lemma g_sequence_remove_data_other l x p :
  p ∈ l -> p <> x -> p ∈ g_sequence_remove_data l x.
Proof.
  induction l as [|y l IH]; simpl; [done|].
  intros [->|Hp]%elem_of_cons Hne.
  - rewrite bool_decide_eq_false_2 by done. by left.
  - case_bool_decide; [done|]. right. by apply IH.
Qed.

Lemma locked_survives_storage_calls_rotate w p c :
  p ∈ calls_list (calls w) -> call_heap w !! p = Some c -> locked c = true ->
  p ∈ calls_list (calls (storage_calls_rotate w))
  /\ call_heap (storage_calls_rotate w) !! p = Some c.
Proof.
  intros Hp Hc Hl. unfold storage_calls_rotate.
  destruct (storage_calls_rotate_from_cases w (calls_list (calls w)))
    as [[_ ->]|(l1 & call & l2 & _ & _ & Hun & ->)]; [done|].
  assert (p <> call) as Hne.
  { intros ->. unfold get_call in Hun. rewrite Hc in Hun. simpl in Hun. congruence. }
  simpl. split; [by apply g_sequence_remove_data_other|].
  by rewrite lookup_delete_ne.
Qed.

Lemma locked_survives_storage_check_sip_packet packet w p c :
  p ∈ calls_list (calls w) -> call_heap w !! p = Some c -> locked c = true ->
  p ∈ calls_list (calls (storage_check_sip_packet packet w).2)
  /\ exists c', call_heap (storage_check_sip_packet packet w).2 !! p = Some c'
                /\ call_identity c' = call_identity c.
Proof.
  intros Hp Hc Hl.
  assert (p ∈ calls_list (calls (sip_make_room w))
          /\ call_heap (sip_make_room w) !! p = Some c) as [Hp1 Hc1].
  { unfold sip_make_room. destruct (_ =? _); [|done].
    by apply locked_survives_storage_calls_rotate. }
  rewrite storage_check_sip_packet_paths.
  destruct (proto_SIP packet) as [sip_data|]; [|by eauto].
  cbv zeta. destruct (storage_find_by_callid _ _) as [call|] eqn:Hf.
  - destruct (sip_store_message_frame packet (sip_message sip_data) call false w)
      as (_ & _ & _ & _ & _ & Hlist & _).
    cbn [snd]. rewrite (Hlist eq_refl). split; [done|].
    eapply identity_kept_live; [apply identity_kept_sip_store_message|done].
  - destruct (sip_filters_pass _ _); [|by eauto].
    destruct (mem_ok w); [|by eauto].
    destruct (sip_store_message_frame packet (sip_message sip_data)
                (sip_new_call sip_data w).1 true (sip_new_call sip_data w).2)
      as (_ & _ & _ & _ & _ & _ & Hlist).
    destruct (Hlist eq_refl) as [cmp Hcmp]. cbn [snd]. rewrite Hcmp. split.
    + apply g_sequence_insert_sorted_elem. by right.
    + eapply identity_kept_live; [apply identity_kept_sip_store_message|].
      unfold sip_new_call. simpl. rewrite lookup_insert_ne; [done|].
      intros Heq. rewrite <- Heq in Hc1. by rewrite fresh_ptr_fresh in Hc1.
Qed.

Lemma locked_survives_apply_op o w p c :
  keeps_calls o = true ->
  p ∈ calls_list (calls w) -> call_heap w !! p = Some c -> locked c = true ->
  p ∈ calls_list (calls (apply_op o w))
  /\ exists c', call_heap (apply_op o w) !! p = Some c'
                /\ call_identity c' = call_identity c.
Proof.
  intros Hk Hp Hc Hl. destruct o as [pk|pk| | | |flt frd|srt];
    cbn [apply_op]; try done.
  - by apply locked_survives_storage_check_sip_packet.
  - rewrite calls_storage_check_rtp_packet. split; [done|].
    eapply identity_kept_live; [apply identity_kept_storage_check_rtp_packet|done].
  - by eauto.
  - destruct (locked_survives_storage_calls_rotate w p c Hp Hc Hl) as [? ?].
    by eauto.
  - split; [|by eauto]. by rewrite storage_set_sort_options_perm.
Qed.

(** X15: a locked call is never taken out by the store on its own.  In
    a consistent store, a listed call that is locked is still listed,
    alive, locked, with its Call-ID and index, and found under its
    Call-ID after any sequence of packets, polls, rotations and sorts:
    [storage_calls_rotate] passes over it.  Only [storage_calls_clear]
    and [storage_calls_clear_soft] can remove it. *)
Theorem storage_locked_call_survives (os : list store_op) (w : World)
    (p : ptr) (c : SipCall) :
  index_consistent w ->
  Forall (fun o => keeps_calls o = true) os ->
  p ∈ storage_calls_vector w ->
  call_heap w !! p = Some c ->
  locked c = true ->
  let w' := apply_ops os w in
  p ∈ storage_calls_vector w'
  /\ storage_find_by_callid w' (callid c) = Some p
  /\ exists c', call_heap w' !! p = Some c'
                /\ callid c' = callid c /\ xcallid c' = xcallid c
                /\ index c' = index c /\ locked c' = true.
Proof.
  intros Hw Hos Hp Hc Hl w'.
  assert (index_consistent w'
          /\ p ∈ calls_list (calls w')
          /\ exists c', call_heap w' !! p = Some c'
                        /\ call_identity c' = call_identity c)
    as (Hw' & Hp' & c' & Hc' & Hid).
  { unfold w', apply_ops. clear w'. revert w c Hw Hp Hc Hl.
    induction Hos as [|o os Ho Hos IH]; intros w c Hw Hp Hc Hl; simpl.
    - by eauto.
    - destruct (locked_survives_apply_op o w p c Ho Hp Hc Hl)
        as (Hp1 & c1 & Hc1 & Hid1).
      assert (locked c1 = true) as Hl1.
      { unfold call_identity in Hid1. injection Hid1 as _ _ _ ->. done. }
      assert (keeps_index o = true) as Hki by (by destruct o).
      destruct (IH (apply_op o w) c1 (index_consistent_apply_op o w Hki Hw)
                  Hp1 Hc1 Hl1)
        as (Hw2 & Hp2 & c2 & Hc2 & Hid2).
      split; [done|]. split; [done|]. exists c2. split; [done|]. congruence. }
  split; [done|].
  unfold call_identity in Hid. injection Hid as Hcid Hx Hi Hlk.
  split.
  - destruct Hw' as (_ & Hin & _). destruct (Hin p Hp') as (c2 & Hc2 & Hh).
    unfold storage_find_by_callid. congruence.
  - exists c'. repeat split; congruence.
Qed.

End Properties.

(** ** Scenarios *)
Module Scenario.
Import Sample.

(** C1 (the code departs from it): the first INVITE of a dialog puts
    the call in the list and in the Call-ID index, and the call is
    active, but it is not in the active list: the source appends to
    [calls.active] only a call that is already there. *)
Theorem active_list_misses_new_call :
  let w := ingest_sip (invite "A") (store 2 no_match) in
  calls_list (calls w) = [1%nat]
  /\ storage_find_by_callid w "A" = Some 1%nat
  /\ callid (get_call w 1%nat) = "A"
  /\ call_is_active (get_call w 1%nat) = true
  /\ storage_call_is_active w 1%nat = false
  /\ calls_active (calls w) = [].
Proof. vm_compute. repeat split. Qed.

(** C2, counterexample: with a limit of 1 and the only call pinned, a
    second dialog is admitted and the list holds two calls. *)
Lemma limit_exceeded_when_all_locked :
  let w1 := call_lock 1%nat one_call in
  let w2 := ingest_sip (invite "B") w1 in
  limit (storage_capture_options w2) = 1
  /\ Forall (fun p => locked (get_call w1 p) = true) (calls_list (calls w1))
  /\ storage_calls_count w1 = 1
  /\ is_Some (storage_find_by_callid w2 "B")
  /\ ~ storage_calls_count w2 <= limit (storage_capture_options w2).
Proof.
  vm_compute. repeat split; try (repeat constructor); try by eexists.
  intros Hle. by apply Hle.
Qed.

(** C3 (the code departs from it): the list is full when the first
    message of dialog B arrives and [call_create] fails.  The message
    is skipped, but the rotation that made room has already run: call
    A has left the list and the index and is destroyed. *)
Theorem rotation_precedes_failed_call_create :
  let w := out_of_memory one_call in
  let res := storage_check_sip_packet (invite "B") w in
  calls_list (calls w) = [1%nat]
  /\ storage_find_by_callid w "A" = Some 1%nat
  /\ storage_find_by_callid w "B" = None
  /\ res.1 = None
  /\ calls_list (calls res.2) = []
  /\ storage_find_by_callid res.2 "A" = None
  /\ call_heap res.2 !! 1%nat = None.
Proof. vm_compute. repeat split. Qed.

(** C5 (the code departs from it): for the media 10.0.0.1:16000 of the
    first INVITE the media is appended to the message and two RTP
    streams are created, to the media address and to the source of the
    message; no RTCP stream is created although the call has no stream
    to port 16001, because the RTCP guard tests the RTP destination
    again.  When the same INVITE is ingested again, a second stream to
    the source of the message is created next to the first. *)
Theorem register_streams_creates_no_rtcp_stream :
  let w := dialog_X in
  let w' := ingest_sip invite_sdp w in
  msg_medias (get_msg w (mkMsgRef 1%nat 0%nat)) = [audio]
  /\ map (stream_view w) (streams (get_call w 1%nat))
     = [ (PACKET_RTP, emptyaddr, mkAddress "10.0.0.1" 16000, 0, false, 0);
         (PACKET_RTP, emptyaddr, mkAddress "10.0.0.2" 16000, 0, false, 0) ]
  /\ call_find_stream (Some 1%nat) emptyaddr (mkAddress "10.0.0.1" 16001) w = None
  /\ map (stream_view w') (streams (get_call w' 1%nat))
     = [ (PACKET_RTP, emptyaddr, mkAddress "10.0.0.1" 16000, 0, false, 0);
         (PACKET_RTP, emptyaddr, mkAddress "10.0.0.2" 16000, 0, false, 0);
         (PACKET_RTP, emptyaddr, mkAddress "10.0.0.2" 16000, 0, false, 0) ].
Proof. vm_compute. repeat split. Qed.

(** C6 (the code departs from it): the first RTP packet of scenario 3
    completes the stream to 10.0.0.1:16000 with the packet source and
    payload type 0, and a new stream is created, completed with
    10.0.0.1:16000 and given payload type 0.  Its destination is the
    one [stream_create] took from the media, 10.0.0.1:16000, not the
    source of the forward stream: the endpoints are not swapped. *)
Theorem reverse_stream_keeps_media_destination :
  let res := storage_check_rtp_packet first_rtp dialog_X in
  res.1 = Some 1%nat
  /\ stream_is_complete (get_stream dialog_X 1%nat) = false
  /\ call_find_stream (Some 1%nat) rtp_dst rtp_src dialog_X = None
  /\ map (stream_view res.2) (streams (get_call res.2 1%nat))
     = [ (PACKET_RTP, rtp_src, rtp_dst, 0, true, 2);
         (PACKET_RTP, emptyaddr, mkAddress "10.0.0.2" 16000, 0, false, 0);
         (PACKET_RTP, rtp_dst, rtp_dst, 0, true, 0) ]
  /\ dst (get_stream res.2 3%nat) <> src (get_stream res.2 1%nat).
Proof. vm_compute. repeat split. intros [=]. Qed.

(** ** The general statements at concrete inputs *)

Definition busy_hour : list capture_event :=
  [ SipPacket (invite "A"); SipPacket invite_sdp; RtpPacket first_rtp;
    PollChanged; SipPacket (invite "C"); SipPacket (invite "D"); PollChanged ].

Lemma storage_calls_count_bounded_witness :
  pin_room two_calls_A_locked
  /\ locked (get_call two_calls_A_locked 1%nat) = true
  /\ storage_calls_count (final (run busy_hour two_calls_A_locked))
     <= limit (calls_capture (calls (final (run busy_hour two_calls_A_locked)))).
Proof.
  assert (pin_room two_calls_A_locked) as Hroom.
  { split.
    - vm_compute. intros [=].
    - intros _. exists 2%nat. split.
      + vm_compute. repeat constructor.
      + vm_compute. reflexivity. }
  split; [exact Hroom|]. split; [vm_compute; reflexivity|].
  exact (proj1 (storage_calls_count_bounded busy_hour two_calls_A_locked Hroom)).
Defined.

Lemma storage_check_rtp_packet_rtcp_only_witness :
  proto_RTCP (newpacket rtcp_only) = Some (mkRtcpData [201])
  /\ proto_RTP (newpacket rtcp_only) = None
  /\ storage_check_rtp_packet rtcp_only dialog_X = (None, dialog_X).
Proof.
  split; [reflexivity|]. split; [reflexivity|].
  apply (storage_check_rtp_packet_rtcp_only rtcp_only dialog_X (mkRtcpData [201]));
    reflexivity.
Defined.

Lemma storage_check_match_expr_invert_witness :
  storage_check_sip_packet invite_alice (store 2 not_alice)
  = (None, store 2 not_alice)
  /\ exists r,
       (storage_check_sip_packet (invite "B") (store 2 not_alice)).1 = Some r
       /\ storage_find_by_callid
            (storage_check_sip_packet (invite "B") (store 2 not_alice)).2 "B"
          = Some (ref_call r)
       /\ ref_call r
          ∈ calls_list (calls (storage_check_sip_packet (invite "B")
                                 (store 2 not_alice)).2).
Proof.
  destruct (storage_check_match_expr_invert (store 2 not_alice)) as (_ & _ & H3).
  split.
  - apply (proj1 (H3 invite_alice
                    (mkSipData "A" EmptyString "sip:bob@example.org"
                       "sip:alice@example.org" 1 1001 EmptyString
                       "INVITE sip:alice@example.org SIP/2.0")
                    "sip:alice@" (mkRegex "sip:alice@" false)
                    eq_refl eq_refl eq_refl eq_refl eq_refl)).
    reflexivity.
  - apply (proj2 (H3 (invite "B")
                    (mkSipData "B" EmptyString "sip:bob@example.org"
                       "sip:alice@example.org" 1 1001 EmptyString
                       "INVITE sip:carol@example.org SIP/2.0")
                    "sip:alice@" (mkRegex "sip:alice@" false)
                    eq_refl eq_refl eq_refl eq_refl eq_refl));
      reflexivity.
Defined.

Lemma storage_calls_rotate_first_unlocked_witness :
  (calls_list (calls (storage_calls_rotate two_calls_A_locked)) = [1%nat] ++ []
   /\ storage_find_by_callid (storage_calls_rotate two_calls_A_locked) "B" = None
   /\ storage_find_by_callid (storage_calls_rotate two_calls_A_locked) "A"
      = Some 1%nat)
  /\ storage_calls_rotate (call_lock 1%nat one_call) = call_lock 1%nat one_call.
Proof.
  split.
  - destruct (proj1 (storage_calls_rotate_first_unlocked two_calls_A_locked)
                [1%nat] 2%nat [] eq_refl) as (Hl & _ & _ & Hh & _).
    + repeat constructor.
    + reflexivity.
    + split; [exact Hl|]. unfold storage_find_by_callid. rewrite Hh.
      split; reflexivity.
  - apply (proj2 (storage_calls_rotate_first_unlocked (call_lock 1%nat one_call))).
    repeat constructor.
Defined.

Lemma storage_check_rtp_packet_adds_twice_witness :
  exists sp w1 s1,
    rtp_block first_rtp dialog_X
    = Some (Some sp, upd_stream sp (fun x => stream_add_packet x first_rtp) w1)
    /\ stream_heap w1 !! sp = Some s1
    /\ pkt_cnt s1 = 0
    /\ pkt_cnt (get_stream (storage_check_rtp_packet first_rtp dialog_X).2 sp)
       = pkt_cnt s1 + 2.
Proof.
  assert (stream_find_by_format dialog_X (pkt_src first_rtp) (pkt_dst first_rtp)
            (encoding_id (mkRtpData 0) mod 256) = Some 1%nat) as Hfind
    by (vm_compute; reflexivity).
  assert (stream_heap dialog_X !! 1%nat = Some (get_stream dialog_X 1%nat)) as Hlive
    by (vm_compute; reflexivity).
  destruct (storage_check_rtp_packet_adds_twice first_rtp dialog_X (mkRtpData 0)
              1%nat (get_stream dialog_X 1%nat) eq_refl Hfind Hlive)
    as (sp & w1 & s1 & Hb & Hs & Hc & _ & Hcnt & _).
  exists sp, w1, s1. repeat split; assumption.
Defined.

(** ** The properties of the store on the sample sessions *)

Lemma storage_index_consistent_witness :
  storage_init (mkCaptureOpts 2 true true) no_match by_index boot
  = Some (store 2 no_match)
  /\ NoDup (storage_calls_vector (apply_ops session (store 2 no_match)))
  /\ forall cid p,
       storage_find_by_callid (apply_ops session (store 2 no_match)) cid = Some p ->
       p ∈ storage_calls_vector (apply_ops session (store 2 no_match)).
Proof.
  assert (storage_init (mkCaptureOpts 2 true true) no_match by_index boot
          = Some (store 2 no_match)) as Hinit by (vm_compute; reflexivity).
  split; [exact Hinit|].
  assert (Forall (fun o => keeps_index o = true) session) as Hos
    by (repeat constructor).
  destruct (storage_index_consistent (mkCaptureOpts 2 true true) no_match by_index
              boot (store 2 no_match) session Hinit Hos) as (Hnd & _ & Hidx).
  split; [exact Hnd|]. intros cid p Hp. exact (proj1 (Hidx cid p Hp)).
Defined.

Lemma storage_check_sip_packet_appends_witness :
  exists m',
    msgs (get_call (ingest_sip (invite "A") one_call) 1%nat)
    = msgs (get_call one_call 1%nat) ++ [m']
    /\ reqresp m' = 1001.
Proof.
  assert (index_consistent one_call) as Hw
    by (apply index_consistentb_sound; vm_compute; reflexivity).
  assert (storage_check_sip_packet (invite "A") one_call
          = (Some (mkMsgRef 1%nat 1%nat), ingest_sip (invite "A") one_call)) as Hrun
    by (vm_compute; reflexivity).
  destruct (storage_check_sip_packet_appends (invite "A") (invite_data "A" EmptyString)
              one_call _ _ Hw eq_refl Hrun)
    as (_ & (m' & Hm' & _ & _ & _ & Hrr & _) & _).
  exists m'. split; [exact Hm'|exact Hrr].
Defined.

Lemma storage_init_result_witness :
  storage_calls_count (store 2 not_alice) = 0
  /\ mregex (calls_match (calls (store 2 not_alice)))
     = Some (mkRegex "sip:alice@" false)
  /\ storage_sort_options (store 2 not_alice) = by_index.
Proof.
  assert (storage_init (mkCaptureOpts 2 true true) not_alice by_index_desc boot
          = Some (store 2 not_alice)) as Hinit by (vm_compute; reflexivity).
  destruct (proj1 (proj2 (storage_init_result (mkCaptureOpts 2 true true) not_alice
                            by_index_desc boot)) (store 2 not_alice) Hinit)
    as (Hc & _ & _ & _ & _ & _ & Hrx & Hs & _).
  split; [exact Hc|]. split; [exact (Hrx "sip:alice@" eq_refl)|exact Hs].
Defined.

Lemma storage_check_sip_packet_first_message_witness :
  storage_check_sip_packet invite_alice (store 2 not_alice) = (None, store 2 not_alice)
  /\ exists r,
       (storage_check_sip_packet (invite "B") (store 2 not_alice)).1 = Some r
       /\ ref_pos r = 0%nat.
Proof.
  split.
  - apply (proj1 (storage_check_sip_packet_first_message invite_alice
                    (mkSipData "A" EmptyString "sip:bob@example.org"
                       "sip:alice@example.org" 1 1001 EmptyString
                       "INVITE sip:alice@example.org SIP/2.0")
                    (store 2 not_alice) eq_refl eq_refl)).
    left. reflexivity.
  - destruct (proj1 (proj2 (storage_check_sip_packet_first_message (invite "B")
                              (invite_data "B" EmptyString)
                              (store 2 not_alice) eq_refl eq_refl)))
      as (r & Hr & Hpos & _).
    + intros [Hm|[[Hi _]|[Hc _]]]; vm_compute in *; discriminate.
    + reflexivity.
    + exists r. split; [exact Hr|exact Hpos].
Defined.

Lemma storage_indexes_unique_witness :
  3%nat ∈ storage_calls_vector (apply_ops session (store 2 no_match))
  /\ 1 <= index (get_call (apply_ops session (store 2 no_match)) 3%nat)
       <= calls_last_index (calls (apply_ops session (store 2 no_match))).
Proof.
  assert (storage_init (mkCaptureOpts 2 true true) no_match by_index boot
          = Some (store 2 no_match)) as Hinit by (vm_compute; reflexivity).
  assert (3%nat ∈ storage_calls_vector (apply_ops session (store 2 no_match)))
    as Hp by (vm_compute; repeat constructor).
  assert (call_heap (apply_ops session (store 2 no_match)) !! 3%nat
          = Some (get_call (apply_ops session (store 2 no_match)) 3%nat)) as Hc
    by (vm_compute; reflexivity).
  assert (Forall (fun o => keeps_index o = true) session) as Hos
    by (repeat constructor).
  assert (calls_last_index (calls (apply_ops session (store 2 no_match)))
          <= 2147483647) as Hmax by (vm_compute; intros [=]).
  split; [exact Hp|].
  exact (proj1 (storage_indexes_unique (mkCaptureOpts 2 true true) no_match by_index
                  boot (store 2 no_match) session 2147483647 Hinit Hos Hmax
                  3%nat _ Hp Hc)).
Defined.

Lemma storage_last_index_counts_calls_witness :
  calls_last_index (calls (ingest_sip (invite "B") one_call))
  = calls_last_index (calls one_call) + 1
  /\ index (get_call (ingest_sip (invite "B") one_call) 1%nat) = 2
  /\ calls_last_index (calls one_call)
     <= calls_last_index (calls (apply_ops [OpClear; OpSip (invite "C")] one_call)).
Proof.
  assert (storage_check_sip_packet (invite "B") one_call
          = (Some (mkMsgRef 1%nat 0%nat), ingest_sip (invite "B") one_call)) as Hrun
    by (vm_compute; reflexivity).
  assert (calls_last_index (calls one_call) < 2147483647) as Hlt
    by (vm_compute; reflexivity).
  assert (calls_last_index (calls (apply_ops [OpClear; OpSip (invite "C")] one_call))
          <= 2147483647) as Hmax by (vm_compute; intros [=]).
  destruct (storage_last_index_counts_calls one_call 2147483647)
    as (Hnew & _ & _ & Hmono).
  destruct (Hnew (invite "B") (invite_data "B" EmptyString) _ _ eq_refl eq_refl
              Hlt Hrun) as (Hl & _ & Hi & _).
  split; [exact Hl|]. split; [exact Hi|].
  destruct (Hmono [OpClear; OpSip (invite "C")] Hmax
              [OpClear; OpSip (invite "C")] [] eq_refl) as (Hle & _).
  exact Hle.
Defined.

Lemma storage_set_sort_options_sorts_witness :
  StronglySorted
    (fun a b => storage_sorter
                  (storage_set_sort_options by_index_desc two_calls_A_locked) a b <= 0)
    (storage_calls_vector (storage_set_sort_options by_index_desc two_calls_A_locked))
  /\ storage_sort_options (storage_set_sort_options by_index_desc two_calls_A_locked)
     = by_index_desc.
Proof.
  destruct (storage_set_sort_options_sorts by_index_desc two_calls_A_locked)
    as (Hs & _ & Ho & _).
  - intros a b _ _. unfold storage_sorter.
    change (calls_sort (calls (storage_set_sort_options by_index_desc
                                 two_calls_A_locked))) with by_index_desc.
    generalize (get_call (storage_set_sort_options by_index_desc two_calls_A_locked) a)
               (get_call (storage_set_sort_options by_index_desc two_calls_A_locked) b).
    intros ca cb. simpl. lia.
  - intros a b c _ _ _. unfold storage_sorter.
    change (calls_sort (calls (storage_set_sort_options by_index_desc
                                 two_calls_A_locked))) with by_index_desc.
    generalize (get_call (storage_set_sort_options by_index_desc two_calls_A_locked) a)
               (get_call (storage_set_sort_options by_index_desc two_calls_A_locked) b)
               (get_call (storage_set_sort_options by_index_desc two_calls_A_locked) c).
    intros ca cb cc. simpl. lia.
  - split; [exact Hs|exact Ho].
Defined.

Lemma storage_check_rtp_packet_result_witness :
  calls (storage_check_rtp_packet first_rtp dialog_X).2 = calls dialog_X
  /\ forall p,
       msgs (get_call (storage_check_rtp_packet first_rtp dialog_X).2 p)
       = msgs (get_call dialog_X p).
Proof.
  destruct (storage_check_rtp_packet_result first_rtp dialog_X) as (Hc & Hk & _).
  - intros rtp stream Hr Hf. vm_compute in Hr. injection Hr as <-.
    vm_compute in Hf. injection Hf as <-. vm_compute. eexists. reflexivity.
  - split; [exact Hc|]. intros p. destruct (Hk p) as (_ & _ & Hm & _). exact Hm.
Defined.

Lemma storage_register_streams_result_witness :
  msg_medias (get_msg (storage_register_streams (mkMsgRef 1%nat 0%nat) dialog_X)
                (mkMsgRef 1%nat 0%nat))
  = msg_medias (get_msg dialog_X (mkMsgRef 1%nat 0%nat)) ++ [audio]
  /\ calls (storage_register_streams (mkMsgRef 1%nat 0%nat) dialog_X) = calls dialog_X.
Proof.
  assert (msg_packet (get_msg dialog_X (mkMsgRef 1%nat 0%nat))
          = Some (packet_to_oldpkt invite_sdp)) as Hpk
    by (vm_compute; reflexivity).
  destruct (storage_register_streams_result (mkMsgRef 1%nat 0%nat) dialog_X
              (packet_to_oldpkt invite_sdp) Hpk) as (_ & Hm & _ & _ & _ & Hc & _).
  split; [exact Hm|exact Hc].
Defined.

Lemma storage_active_never_gains_witness :
  storage_active_calls_vector (apply_ops session (store 2 no_match)) = []
  /\ call_is_active
       (get_call (apply_ops session (store 2 no_match)) 3%nat) = true.
Proof.
  assert (storage_init (mkCaptureOpts 2 true true) no_match by_index boot
          = Some (store 2 no_match)) as Hinit by (vm_compute; reflexivity).
  split.
  - exact (proj1 (proj2 (storage_active_never_gains session (store 2 no_match))
                    (mkCaptureOpts 2 true true) no_match by_index boot Hinit)).
  - vm_compute. reflexivity.
Defined.

Lemma storage_check_sip_packet_links_xcall_witness :
  children (get_call (ingest_sip (invite_from "B" "A")
                        (ingest_sip (invite "A") (store 2 no_match))) 1%nat)
  = [2%nat]
  /\ children (get_call (ingest_sip (invite_from "Z" "Z") (store 2 no_match)) 1%nat)
     = [1%nat].
Proof.
  split.
  - assert (index_consistent (ingest_sip (invite "A") (store 2 no_match))) as Hw
      by (apply index_consistentb_sound; vm_compute; reflexivity).
    destruct (proj1 (storage_check_sip_packet_links_xcall (invite_from "B" "A")
                       (invite_data "B" "A")
                       (ingest_sip (invite "A") (store 2 no_match)) Hw eq_refl))
      as (r & Hr & _ & _ & Hpar).
    + reflexivity.
    + reflexivity.
    + reflexivity.
    + vm_compute. discriminate.
    + vm_compute in Hr. injection Hr as <-.
      exact (Hpar 1%nat eq_refl).
  - assert (index_consistent (store 2 no_match)) as Hw
      by (apply index_consistentb_sound; vm_compute; reflexivity).
    destruct (proj1 (storage_check_sip_packet_links_xcall (invite_from "Z" "Z")
                       (invite_data "Z" "Z") (store 2 no_match) Hw eq_refl))
      as (r & Hr & _ & _ & Hpar).
    + reflexivity.
    + reflexivity.
    + reflexivity.
    + vm_compute. discriminate.
    + vm_compute in Hr. injection Hr as <-.
      exact (Hpar 1%nat eq_refl).
Defined.

Lemma storage_locked_call_survives_witness :
  1%nat ∈ storage_calls_vector
            (apply_ops [OpSip (invite "C"); OpRotate; OpSip (invite "D")]
               two_calls_A_locked)
  /\ storage_find_by_callid
       (apply_ops [OpSip (invite "C"); OpRotate; OpSip (invite "D")]
          two_calls_A_locked) "A" = Some 1%nat.
Proof.
  assert (index_consistent two_calls_A_locked) as Hw
    by (apply index_consistentb_sound; vm_compute; reflexivity).
  assert (call_heap two_calls_A_locked !! 1%nat
          = Some (get_call two_calls_A_locked 1%nat)) as Hc
    by (vm_compute; reflexivity).
  destruct (storage_locked_call_survives
              [OpSip (invite "C"); OpRotate; OpSip (invite "D")]
              two_calls_A_locked 1%nat (get_call two_calls_A_locked 1%nat) Hw)
    as (Hp & Hf & _).
  - repeat constructor.
  - vm_compute. left.
  - exact Hc.
  - reflexivity.
  - split; [exact Hp|exact Hf].
Defined.

End Scenario.
